(** * Verification of the route code generator
    [packages/run/src/vite/codegen/index.ts]

    The generator turns a set of routes into JavaScript text.  The
    development embeds the generator as Rocq functions that produce the
    emitted program as a syntax tree (every constructor documents the
    JavaScript it stands for; the modules of a route are also printed,
    line by line), and gives the emitted programs an executable
    semantics, so that statements about "the generated matcher" or "the
    generated dispatch function" are statements about the result of
    running the emitted program. *)

From Stdlib Require Import Strings.String Strings.Ascii Lists.List.
From Stdlib Require Import ZArith.ZArith Arith.Arith Bool.Bool Lia.
From Stdlib Require Import Numbers.DecimalString.
Import ListNotations.

Set Warnings "-register-all".

Open Scope string_scope.
Open Scope Z_scope.

(** ** JavaScript primitives

    A string is a sequence of code units, and a character of the model,
    an [ascii], is a code unit from 0 to 255, named by its number: the
    strings of the model are the JavaScript strings over the Latin-1
    range of Unicode (U+0000 to U+00FF), where [length], [slice] and
    [indexOf] count one per character.  The literals of this file are
    ASCII.  Numbers that index strings are integers, as [indexOf] answers
    [-1]. *)

Module JS.

Definition truthy (s : string) : bool := negb (s =? EmptyString)%string.

Definition inRange (lo hi c : ascii) : bool :=
  ((N_of_ascii lo <=? N_of_ascii c) && (N_of_ascii c <=? N_of_ascii hi))%N.

(** The letters with a lower-case form, by the Unicode case mapping that
    [String.prototype.toLowerCase] applies: [A] to [Z], and from U+00C0 to
    U+00DE all but the multiplication sign U+00D7.  Each one is mapped to
    the character 32 places further on; no other character from U+0000 to
    U+00FF is changed. *)
Definition isUpper (c : ascii) : bool :=
  inRange "A" "Z" c
  || (inRange (ascii_of_nat 192) (ascii_of_nat 222) c
      && negb (c =? ascii_of_nat 215)%char).

Definition lowerChar (c : ascii) : ascii :=
  if isUpper c then ascii_of_N (N_of_ascii c + 32) else c.

(** [s.toLowerCase()] *)
Fixpoint toLowerCase (s : string) : string :=
  match s with
  | EmptyString => EmptyString
  | String c r => String (lowerChar c) (toLowerCase r)
  end.

(** [s.toUpperCase()] on ASCII strings: the generator applies it to HTTP
    verbs only (the type [HttpVerb], names in lower-case ASCII letters). *)
Definition upperChar (c : ascii) : ascii :=
  if inRange "a" "z" c then ascii_of_N (N_of_ascii c - 32) else c.

Fixpoint toUpperCase (s : string) : string :=
  match s with
  | EmptyString => EmptyString
  | String c r => String (upperChar c) (toUpperCase r)
  end.

Fixpoint take (n : nat) (s : string) : string :=
  match n, s with
  | S n', String c r => String c (take n' r)
  | _, _ => EmptyString
  end.

Fixpoint drop (n : nat) (s : string) : string :=
  match n, s with
  | S n', String _ r => drop n' r
  | _, _ => s
  end.

Definition len (s : string) : Z := Z.of_nat (String.length s).

(** A relative index of [slice]: negative counts from the end. *)
Definition clampIndex (l k : Z) : Z :=
  if k <? 0 then Z.max (l + k) 0 else Z.min k l.

(** [s.slice(a, b)] *)
Definition slice (s : string) (a b : Z) : string :=
  let from := clampIndex (len s) a in
  let to := clampIndex (len s) b in
  take (Z.to_nat (to - from)) (drop (Z.to_nat from) s).

(** [s.slice(a)] *)
Definition sliceFrom (s : string) (a : Z) : string := slice s a (len s).

Fixpoint findChar (c : ascii) (s : string) : option nat :=
  match s with
  | EmptyString => None
  | String x r =>
      if (x =? c)%char then Some O else option_map S (findChar c r)
  end.

(** [s.indexOf(c, from)] for a one-character needle. *)
Definition indexOf (s : string) (c : ascii) (from : Z) : Z :=
  let k := Z.to_nat (Z.max from 0) in
  match findChar c (drop k s) with
  | Some j => Z.of_nat (k + j)
  | None => -1
  end.

(** [s.endsWith('/')] *)
Fixpoint endsWithSlash (s : string) : bool :=
  match s with
  | EmptyString => false
  | String c EmptyString => (c =? "/")%char
  | String _ r => endsWithSlash r
  end.

(** The double-quote character of the emitted text. *)
Definition dq : string := String (ascii_of_nat 34) EmptyString.

(** Template interpolation of a number. *)
Definition showNum (z : Z) : string := NilZero.string_of_int (Z.to_int z).

(** [xs.join(sep)] *)
Definition join (sep : string) (xs : list string) : string :=
  String.concat sep xs.

End JS.

(** ** Data model ([../types], as the generator reads it) *)

Definition HttpVerb := string.

Record RoutableFile := {
  file_id : string;
  file_importPath : string;
  file_relativePath : string;
  file_verbs : option (list HttpVerb)
}.

Record ParamInfo := {
  param_name : string;
  param_index : Z
}.

Record Route := {
  route_key : string;
  route_path : string;
  route_index : Z;
  route_params : option (list ParamInfo);
  route_handler : option RoutableFile;
  route_page : option RoutableFile;
  route_layouts : list RoutableFile;
  route_middleware : list RoutableFile;
  route_meta : option RoutableFile
}.

Inductive TrailingSlashes :=
| RedirectWithout | RedirectWith | RewriteWithout | RewriteWith.

Record RouterOptions := { trailingSlashes : TrailingSlashes }.

(** [routes.special], an object with the reserved keys [404] and [500]. *)
Record SpecialRoutes := {
  special_404 : option Route;
  special_500 : option Route
}.

Record BuiltRoutes := {
  routes_list : list Route;
  routes_special : SpecialRoutes
}.

(** [Error(message)] thrown while generating. *)
Inductive result (A : Type) :=
| Ok (a : A)
| Err (message : string).
Arguments Ok {A} a.
Arguments Err {A} message.

Definition bind {A B} (r : result A) (f : A -> result B) : result B :=
  match r with
  | Ok a => f a
  | Err m => Err m
  end.

Notation "x <- r ;; k" := (bind r (fun x => k))
  (at level 61, r at next level, right associativity).

(** Concatenation of lists of lines, apart from [++] on strings. *)
Notation "a +++ b" := (@app _ a b) (at level 60, right associativity).

(** ** Property names: [wrapPropertyName], [renderParamsInfo],
    [renderParamsInfoType] *)

Section PropertyNames.

Definition isLetter (c : ascii) : bool :=
  JS.inRange "A" "Z" c || JS.inRange "a" "z" c.

Definition isDigit (c : ascii) : bool := JS.inRange "0" "9" c.

(** The class [[A-Za-z_$]]. *)
Definition classStart (c : ascii) : bool :=
  isLetter c || (c =? "_")%char || (c =? "$")%char.

(** The class [[A-Za-z0-9$_]]. *)
Definition classPart (c : ascii) : bool :=
  isLetter c || isDigit c || (c =? "$")%char || (c =? "_")%char.

(** [/^[^A-Za-z_$]|[^A-Za-z0-9$_]/.test(name)]: the search tries every
    position; the first alternative only matches at the start of the
    input, the second at any position. *)
Fixpoint regexTestFrom (atStart : bool) (s : string) : bool :=
  match s with
  | EmptyString => false
  | String c r =>
      (atStart && negb (classStart c))
      || negb (classPart c)
      || regexTestFrom false r
  end.

Definition regexTest (name : string) : bool := regexTestFrom true name.

Definition wrapPropertyName (name : string) : string :=
  if regexTest name then "'" ++ name ++ "'" else name.

(** State of the loop of [renderParamsInfo]. *)
Record ParamsAcc := {
  acc_result : string;
  acc_catchAll : string;
  acc_sep : string
}.

Definition renderParamsStep (pathIndex : option string)
    (acc : ParamsAcc) (p : ParamInfo) : ParamsAcc :=
  if 0 <=? param_index p then
    {| acc_result := acc_result acc ++ acc_sep acc ++ " "
                     ++ wrapPropertyName (param_name p) ++ ": s"
                     ++ JS.showNum (param_index p + 1);
       acc_catchAll := acc_catchAll acc;
       (* sep ||= "," *)
       acc_sep := if JS.truthy (acc_sep acc) then acc_sep acc else "," |}
  else
    match pathIndex with
    | Some ix =>
        if JS.truthy ix then
          {| acc_result := acc_result acc;
             acc_catchAll := param_name p;
             acc_sep := acc_sep acc |}
        else acc
    | None => acc
    end.

Definition renderParamsInfo (params : list ParamInfo)
    (pathIndex : option string) : string :=
  match params with
  | [] => "{}"
  | _ =>
      let acc := fold_left (renderParamsStep pathIndex) params
                   {| acc_result := EmptyString; acc_catchAll := EmptyString;
                      acc_sep := "{" |} in
      let result :=
        if JS.truthy (acc_catchAll acc) then
          acc_result acc ++ acc_sep acc ++ " "
          ++ wrapPropertyName (acc_catchAll acc) ++ ": pathname.slice("
          ++ match pathIndex with Some ix => ix | None => "undefined" end
          ++ ")"
        else acc_result acc in
      if JS.truthy result then result ++ " }" else "{}"
  end.

Definition renderParamsInfoType (params : list ParamInfo) : string :=
  match params with
  | [] => "{}"
  | _ =>
      fold_left
        (fun result p =>
           result ++ " " ++ wrapPropertyName (param_name p) ++ ": string;")
        params "{"
      ++ " }"
  end.

Definition renderMatch (verb : HttpVerb) (route : Route)
    (pathIndex : option string) : string :=
  let handler := verb ++ JS.showNum (route_index route) in
  let params :=
    match route_params route with
    | Some [] | None => "{}"
    | Some params => renderParamsInfo params pathIndex
    end in
  let meta :=
    match route_meta route with
    | Some _ => "meta" ++ JS.showNum (route_index route)
    | None => "{}"
    end in
  "{ handler: " ++ handler ++ ", params: " ++ params ++ ", meta: " ++ meta
  ++ " }".

End PropertyNames.

(** The claim's words: a name is a valid identifier when its first
    character is a letter, underscore or dollar sign and every character
    is a letter, digit, dollar sign or underscore. *)
Definition firstCharOk (name : string) : bool :=
  match name with
  | EmptyString => true
  | String c _ => isLetter c || (c =? "_")%char || (c =? "$")%char
  end.

Fixpoint allChars (p : ascii -> bool) (s : string) : bool :=
  match s with
  | EmptyString => true
  | String c r => p c && allChars p r
  end.

Definition validIdentifier (name : string) : bool :=
  firstCharOk name
  && allChars (fun c => isLetter c || isDigit c
                        || (c =? "$")%char || (c =? "_")%char) name.

Definition quoted (name : string) : string := "'" ++ name ++ "'".

(** The key the claim expects for a parameter name. *)
Definition propertyKey (name : string) : string :=
  if validIdentifier name then name else quoted name.

(** ** Handler-chain compiler: [writePageResponse], [writeMiddleware],
    [writeRouteEntryHandler] *)

(** The statements that [writeRouteEntryHandler] writes into a dispatch
    function. *)
Inductive cstmt :=
| ConstPage (wrapFn : string)
    (* const W = () => new Response(page.stream(buildInput()), {...}); *)
| ReturnPage
    (* return new Response(page.stream(buildInput()), {...}); *)
| ConstCall (wrapFn middleware next : string)
    (* const W = () => call(M, N, context); *)
| ReturnCall (middleware next : string).
    (* return call(M, N, context); *)

Definition show_cstmt (s : cstmt) : list string :=
  let page prefix :=
    [ prefix ++ " new Response(page.stream(buildInput()), {";
      "  status: 200,";
      "  headers: { " ++ JS.dq ++ "content-type" ++ JS.dq ++ ": " ++ JS.dq
      ++ "text/html;charset=UTF-8" ++ JS.dq ++ " }";
      "});" ] in
  match s with
  | ConstPage w => page ("const " ++ w ++ " = () =>")
  | ReturnPage => page "return"
  | ConstCall w m n =>
      [ "const " ++ w ++ " = () => call(" ++ m ++ ", " ++ n ++ ", context);" ]
  | ReturnCall m n => [ "return call(" ++ m ++ ", " ++ n ++ ", context);" ]
  end.

(** [wrapFn ? ... : ...]: an absent or empty name is falsy. *)
Definition wrapName (wrapFn : option string) : option string :=
  match wrapFn with
  | Some w => if JS.truthy w then Some w else None
  | None => None
  end.

Definition writePageResponse (wrapFn : option string) : cstmt :=
  match wrapName wrapFn with
  | Some w => ConstPage w
  | None => ReturnPage
  end.

Definition writeMiddleware (middleware next : string)
    (wrapFn : option string) : cstmt :=
  match wrapName wrapFn with
  | Some w => ConstCall w middleware next
  | None => ReturnCall middleware next
  end.

(** [handler?.verbs?.includes(verb)] *)
Definition handlerIncludes (handler : option RoutableFile) (verb : HttpVerb)
    : bool :=
  match handler with
  | Some h =>
      match file_verbs h with
      | Some vs => existsb (String.eqb verb) vs
      | None => false
      end
  | None => false
  end.

(** The writers and local variables of [writeRouteEntryHandler]:
    [continuations] is the branch "cont" opened right after the function's
    first line, [writer] holds what is written to the function block
    itself. *)
Record ChainVars := {
  continuations : list cstmt;
  writer : list cstmt;
  currentName : string;
  hasBody : bool
}.

(** Lines 187-222: the handler or page step. *)
Definition chainHead (route : Route) (verb : HttpVerb) : result ChainVars :=
  let len := List.length (route_middleware route) in
  match route_page route, (verb =? "get")%string with
  | Some _, true =>
      let currentName := "__page" in
      if handlerIncludes (route_handler route) verb then
        let name := verb ++ "Handler" in
        let conts := [writePageResponse (Some currentName)] in
        if (0 <? len)%nat then
          let nextName := currentName in
          let currentName := "__" ++ name in
          Ok {| continuations :=
                  conts ++ [writeMiddleware name nextName (Some currentName)];
                writer := [];
                currentName := currentName;
                hasBody := false |}
        else
          Ok {| continuations := conts;
                writer := [writeMiddleware name currentName None];
                currentName := currentName;
                hasBody := true |}
      else if (0 <? len)%nat then
        Ok {| continuations := [writePageResponse (Some currentName)];
              writer := [];
              currentName := currentName;
              hasBody := false |}
      else
        Ok {| continuations := [writePageResponse None];
              writer := [];
              currentName := currentName;
              hasBody := true |}
  | _, _ =>
      match route_handler route with
      | Some _ =>
          let name := verb ++ "Handler" in
          let currentName := "__" ++ name in
          let nextName := "noContent" in
          if (0 <? len)%nat then
            Ok {| continuations :=
                    [writeMiddleware name nextName (Some currentName)];
                  writer := [];
                  currentName := currentName;
                  hasBody := false |}
          else
            Ok {| continuations := [];
                  writer := [writeMiddleware name nextName None];
                  currentName := currentName;
                  hasBody := true |}
      | None =>
          Err ("Route " ++ route_key route ++ " has no handler for " ++ verb
               ++ " requests")
      end
  end.

(** Lines 225-232: [let i = len; while (i--) { ... }].  The argument [i]
    is the value the test [i--] reads; the body runs with [i - 1]. *)
Fixpoint chainLoop (middleware : list RoutableFile) (i : nat)
    (vars : ChainVars) : ChainVars :=
  match i with
  | O => vars
  | S i' =>
      match nth_error middleware i' with
      | Some m =>
          let name := "mware" ++ file_id m in
          let nextName := currentName vars in
          let currentName :=
            if (0 <? i')%nat then "__" ++ name else EmptyString in
          chainLoop middleware i'
            {| continuations :=
                 continuations vars
                 ++ [writeMiddleware name nextName (Some currentName)];
               writer := writer vars;
               currentName := currentName;
               hasBody := hasBody vars |}
      | None => vars (* [i' < len] always: not reached *)
      end
  end.

(** One emitted dispatch function:
    [export async function NAME(PARAMS) { BODY }]. *)
Record EntryFunction := {
  fn_name : string;
  fn_params : list string;
  fn_body : list cstmt
}.

Definition writeRouteEntryHandler (route : Route) (verb : HttpVerb)
    : result EntryFunction :=
  vars <- chainHead route verb ;;
  let vars :=
    if hasBody vars then vars
    else chainLoop (route_middleware route)
           (List.length (route_middleware route)) vars in
  Ok {| fn_name := verb ++ JS.showNum (route_index route);
        fn_params :=
          match route_page route with
          | Some _ => ["context"; "buildInput"]
          | None => ["context"]
          end;
        (* continuations.join() *)
        fn_body := continuations vars ++ writer vars |}.

Definition show_EntryFunction (f : EntryFunction) : list string :=
  [ EmptyString;
    "export async function " ++ fn_name f ++ "("
    ++ JS.join ", " (fn_params f) ++ ") {" ]
  ++ map (fun l => "  " ++ l) (flat_map show_cstmt (fn_body f))
  ++ [ "}" ].

(** ** Route modules: [renderRouteTemplate], [renderRouteEntry]

    The writer ([./writer]) and the helpers of [../utils/route] and
    [../constants] are not part of this file; the helpers and constants are
    parameters, and of the writer only the order of the lines is kept: a
    branch is spliced where it was opened. *)

Section RouteModules.

Variable virtualFilePrefix markoRunFilePrefix : string.
Variable serverEntryQuery virtualRuntimePrefix : string.

(** [getVerbs(route)]; [None] is a falsy answer. *)
Variable getVerbs : Route -> option (list HttpVerb).

Record TemplateModule := {
  tpl_header : string;
  tpl_imports : list string;
  tpl_body : list string
}.

Definition indentLines (ls : list string) : list string :=
  map (fun l => "  " ++ l) ls.

(** [writeRouteTemplateTag]: the import lines and the tag lines. *)
Fixpoint writeRouteTemplateTag (files : list RoutableFile) (index : Z)
    : list string * list string :=
  match files with
  | [] => ([], [])
  | file :: rest =>
      let isLast := match rest with [] => true | _ => false end in
      let tag := if isLast then "page" else "layout" ++ JS.showNum index in
      let import :=
        "import " ++ tag ++ " from './" ++ file_importPath file ++ "';" in
      if isLast then ([import], ["<" ++ tag ++ " ...input />"])
      else
        let '(imports, inner) := writeRouteTemplateTag rest (index + 1) in
        let opening := "<" ++ tag ++ " ...input>" in
        (import :: imports, opening :: indentLines inner +++ ["</>"])
  end.

Definition renderRouteTemplate (route : Route) : result TemplateModule :=
  match route_page route with
  | None => Err ("Route " ++ route_key route ++ " has no page to render")
  | Some page =>
      let '(imports, body) :=
        writeRouteTemplateTag (route_layouts route ++ [page]) 1 in
      Ok {| tpl_header :=
              "// " ++ virtualFilePrefix ++ "/" ++ markoRunFilePrefix
              ++ "route__" ++ route_key route ++ ".marko";
            tpl_imports := imports;
            tpl_body := EmptyString :: body |}
  end.

Definition show_TemplateModule (m : TemplateModule) : list string :=
  tpl_header m :: tpl_imports m +++ tpl_body m.

Record RouteEntryModule := {
  entry_header : string;
  entry_imports : list string;
  entry_handlers : list string;
  entry_functions : list EntryFunction
}.

(** [for (const verb of verbs) writeRouteEntryHandler(writer, route, verb)];
    an error of one call ends the rendering. *)
Fixpoint writeHandlers (route : Route) (verbs : list HttpVerb)
    : result (list EntryFunction) :=
  match verbs with
  | [] => Ok []
  | verb :: rest =>
      f <- writeRouteEntryHandler route verb ;;
      fs <- writeHandlers route rest ;;
      Ok (f :: fs)
  end.

Definition isSome {A} (o : option A) : bool :=
  match o with Some _ => true | None => false end.

Definition renderRouteEntry (route : Route) : result RouteEntryModule :=
  match getVerbs route with
  | None =>
      Err ("Route " ++ route_key route
           ++ " doesn't have a handler or page for any HTTP verbs")
  | Some verbs =>
      let handler := route_handler route in
      let page := route_page route in
      let middleware := route_middleware route in
      let hasMiddleware := (0 <? List.length middleware)%nat in
      let runtimeImports :=
        (if isSome handler then ["normalize"] else [])
        +++ (if isSome handler || hasMiddleware then ["call"] else [])
        +++ (if negb (isSome page) || (1 <? List.length verbs)%nat
            then ["noContent"] else []) in
      let handlerVerbs :=
        match handler with
        | Some h => match file_verbs h with Some vs => vs | None => [] end
        | None => []
        end in
      let imports :=
        (match runtimeImports with
         | [] => []
         | _ => ["import { " ++ JS.join ", " runtimeImports ++ " } from '"
                 ++ virtualRuntimePrefix ++ "';"]
         end)
        +++ (if hasMiddleware then
              ["import { "
               ++ JS.join ", " (map (fun m => "mware" ++ file_id m) middleware)
               ++ " } from '" ++ virtualFilePrefix ++ "/" ++ markoRunFilePrefix
               ++ "middleware.js';"]
            else [])
        +++ (match handler, handlerVerbs with
            | Some h, _ :: _ =>
                ["import { " ++ JS.join ", " (map JS.toUpperCase handlerVerbs)
                 ++ " } from './" ++ file_importPath h ++ "';"]
            | _, _ => []
            end)
        +++ (if isSome page then
              ["import page from '" ++ virtualFilePrefix ++ "/"
               ++ markoRunFilePrefix ++ "route__" ++ route_key route
               ++ ".marko" ++ serverEntryQuery ++ "';"]
            else [])
        +++ (match route_meta route with
            | Some meta =>
                ["export { default as meta" ++ JS.showNum (route_index route)
                 ++ " } from './" ++ file_importPath meta ++ "';"]
            | None => []
            end) in
      let handlers :=
        match handlerVerbs with
        | [] => []
        | _ =>
            EmptyString
            :: map (fun verb =>
                      "const " ++ verb ++ "Handler = normalize("
                      ++ JS.toUpperCase verb ++ ");") handlerVerbs
        end in
      functions <- writeHandlers route verbs ;;
      Ok {| entry_header :=
              "// " ++ virtualFilePrefix ++ "/" ++ markoRunFilePrefix
              ++ "route__" ++ route_key route ++ ".js";
            entry_imports := imports;
            entry_handlers := handlers;
            entry_functions := functions |}
  end.

Definition show_RouteEntryModule (m : RouteEntryModule) : list string :=
  entry_header m :: entry_imports m +++ entry_handlers m
  +++ flat_map show_EntryFunction (entry_functions m).

End RouteModules.

(** ** Values of the generated programs *)

(** What a layer can throw: the two signals of the runtime, or any other
    value, kept as an error with a message and a stack. *)
Inductive Thrown :=
| NotMatched
| NotHandled
| ErrorValue (message stack : string).

Record Url := {
  url_origin : string;
  url_pathname : string
}.

Record Request := {
  req_method : string;
  req_url : Url;
  req_accept : option string   (* request.headers.get('Accept') *)
}.

(** [route.meta]: an imported [metaN] or [{}]. *)
Inductive Meta :=
| MetaEmpty
| MetaOf (index : Z).

Definition Params := list (string * string).

(** The context object; a field never assigned is [None]. *)
Record Context := {
  ctx_url : Url;
  ctx_request : Request;
  ctx_platform : string;
  ctx_params : option Params;
  ctx_meta : option Meta
}.

(** Modelled from the spec: the runtime helper [createInput(context)],
    which is not in this file, "produces the page-render input-builder for
    a given request context, optionally extended with an error"; the input
    is kept as the context and the error it was built from. *)
Record PageInput := {
  input_context : Context;
  input_error : option Thrown
}.

Definition buildInput (context : Context) (error : option Thrown)
    : PageInput :=
  {| input_context := context; input_error := error |}.

Inductive Response :=
| PageResponse (page : string) (status : Z) (input : PageInput)
    (* new Response(PAGE.stream(buildInput(..)), { status, headers }) *)
| JsonResponse (status : Z) (statusText message stack : string)
    (* new Response(JSON.stringify({ error: { message, stack } }),
                    { statusText, status }) *)
| RedirectResponse (url : Url)
    (* Response.redirect(url) *)
| UserResponse (tag : string).
    (* a response made by a handler or a middleware *)

(** Result of awaiting a call: a value (a response, or a falsy value), or
    a thrown value. *)
Inductive Outcome :=
| Returns (response : option Response)
| Throws (error : Thrown).

Definition Thunk := unit -> Outcome.

(** A normalized handler or middleware: [(context, next) => ...]. *)
Definition Layer := Context -> Thunk -> Outcome.

Definition referenceError (name : string) : Outcome :=
  Throws (ErrorValue (name ++ " is not defined") EmptyString).

(** ** Running a generated dispatch function *)

Section Dispatch.

(** The runtime's [call] and [noContent], and the module-level bindings of
    the route module ([getHandler], [mware1], ...). *)
Variable call : Layer -> Thunk -> Context -> Outcome.
Variable noContent : Thunk.
Variable layers : string -> option Layer.

Variable context : Context.

Definition pageRender : Outcome :=
  Returns (Some (PageResponse "page" 200 (buildInput context None))).

Fixpoint lookupConst (env : list (string * Thunk)) (name : string)
    : option Thunk :=
  match env with
  | [] => None
  | (n, t) :: rest => if (n =? name)%string then Some t else lookupConst rest name
  end.

(** The identifier passed as [next]: a [const] of the function, or the
    imported [noContent]. *)
Definition lookupNext (env : list (string * Thunk)) (name : string)
    : option Thunk :=
  match lookupConst env name with
  | Some t => Some t
  | None => if (name =? "noContent")%string then Some noContent else None
  end.

(** [call(M, N, context)] *)
Definition evalCall (env : list (string * Thunk)) (middleware next : string)
    : Outcome :=
  match layers middleware with
  | None => referenceError middleware
  | Some layer =>
      match lookupNext env next with
      | None => referenceError next
      | Some k => call layer k context
      end
  end.

(** The statements run in order; each arrow function closes over the
    bindings declared before it, which are the only ones the generator
    makes it refer to. *)
Fixpoint runBody (env : list (string * Thunk)) (body : list cstmt)
    : Outcome :=
  match body with
  | [] => Returns None
  | ConstPage w :: rest => runBody ((w, fun _ => pageRender) :: env) rest
  | ReturnPage :: _ => pageRender
  | ConstCall w m n :: rest =>
      runBody ((w, fun _ => evalCall env m n) :: env) rest
  | ReturnCall m n :: _ => evalCall env m n
  end.

Definition runEntryFunction (f : EntryFunction) : Outcome :=
  runBody [] (fn_body f).

(** The innermost step of a chain. *)
Inductive Terminal :=
| PageStep
| NoContentStep.

Definition runTerminal (t : Terminal) : Thunk :=
  match t with
  | PageStep => fun _ => pageRender
  | NoContentStep => noContent
  end.

(** [call(l1, () => call(l2, ... () => call(ln, terminal, context) ...))]:
    the first layer of the list is the outermost call. *)
Fixpoint runChain (names : list string) (terminal : Thunk) : Thunk :=
  match names with
  | [] => terminal
  | m :: rest =>
      fun _ =>
        match layers m with
        | None => referenceError m
        | Some layer => call layer (runChain rest terminal) context
        end
  end.

End Dispatch.

(** The chain of a function body, read off its text: the layers from the
    returned call inwards, and the innermost step.  A name passed as
    [next] is a [const] declared before, or the imported [noContent]. *)
Definition Chain := (list string * Terminal)%type.

Definition lookupChain (env : list (string * Chain)) (name : string)
    : option Chain :=
  match find (fun e => (fst e =? name)%string) env with
  | Some (_, c) => Some c
  | None =>
      if (name =? "noContent")%string then Some ([], NoContentStep) else None
  end.

Fixpoint chainOf (env : list (string * Chain)) (body : list cstmt)
    : option Chain :=
  match body with
  | [] => None
  | ConstPage w :: rest => chainOf ((w, ([], PageStep)) :: env) rest
  | ReturnPage :: _ => Some ([], PageStep)
  | ConstCall w m n :: rest =>
      match lookupChain env n with
      | Some (ls, t) => chainOf ((w, (m :: ls, t)) :: env) rest
      | None => None
      end
  | ReturnCall m n :: _ =>
      match lookupChain env n with
      | Some (ls, t) => Some (m :: ls, t)
      | None => None
      end
  end.

(** The bindings that a run of [const] statements adds. *)
Fixpoint chainEnv (env : list (string * Chain)) (body : list cstmt)
    : option (list (string * Chain)) :=
  match body with
  | [] => Some env
  | ConstPage w :: rest => chainEnv ((w, ([], PageStep)) :: env) rest
  | ConstCall w m n :: rest =>
      match lookupChain env n with
      | Some (ls, t) => chainEnv ((w, (m :: ls, t)) :: env) rest
      | None => None
      end
  | _ => None
  end.

(** The bindings of a run agree with the chains read off the text. *)
Definition agree (call : Layer -> Thunk -> Context -> Outcome)
    (noContent : Thunk) (layers : string -> option Layer) (context : Context)
    (cenv : list (string * Chain)) (env : list (string * Thunk)) : Prop :=
  Forall2
    (fun ce e =>
       fst ce = fst e
       /\ snd e = runChain call layers context (fst (snd ce))
                    (runTerminal noContent context (snd (snd ce))))
    cenv env.

(** The layers and the end of the chain that the claims describe for a
    route and a verb: the middleware in declared order, then the verb's
    handler if there is one, then the page (for [get] on a page route) or
    [noContent]. *)
Definition pageApplies (route : Route) (verb : HttpVerb) : bool :=
  isSome (route_page route) && (verb =? "get")%string.

Definition handlerStep (route : Route) (verb : HttpVerb) : list string :=
  if pageApplies route verb then
    if handlerIncludes (route_handler route) verb
    then [verb ++ "Handler"] else []
  else
    if isSome (route_handler route) then [verb ++ "Handler"] else [].

Definition mwareName (m : RoutableFile) : string := "mware" ++ file_id m.

Definition middlewareNames (route : Route) : list string :=
  map mwareName (route_middleware route).

Definition expectedTerminal (route : Route) (verb : HttpVerb) : Terminal :=
  if pageApplies route verb then PageStep else NoContentStep.

(** The route has something to answer the verb with. *)
Definition supportsVerb (route : Route) (verb : HttpVerb) : bool :=
  pageApplies route verb || isSome (route_handler route).

(** ** Trie-to-code compiler: [writeRouterVerb]

    A trie node as the compiler reads it: [static] is a [Map] whose values
    are kept in insertion order, or [undefined]; each child carries its own
    [key]; [catchAll] is the route of the catch-all edge. *)
Inductive RouteTrie :=
| Trie (key : string) (route : option Route)
       (static : option (list RouteTrie)) (dynamic : option RouteTrie)
       (catchAll : option Route).

Definition trie_key (t : RouteTrie) : string :=
  let 'Trie k _ _ _ _ := t in k.
Definition trie_route (t : RouteTrie) : option Route :=
  let 'Trie _ r _ _ _ := t in r.
Definition trie_static (t : RouteTrie) : option (list RouteTrie) :=
  let 'Trie _ _ s _ _ := t in s.
Definition trie_dynamic (t : RouteTrie) : option RouteTrie :=
  let 'Trie _ _ _ d _ := t in d.
Definition trie_catchAll (t : RouteTrie) : option Route :=
  let 'Trie _ _ _ _ c := t in c.

(** *** The emitted matcher, as a program *)

(** The variables of a matcher: [len], [iN] and [sN]. *)
Inductive var :=
| VLen
| VIndex (n : nat)
| VSegment (n : nat).

(** The parameter [offset : number | string]: a number, or the name of an
    index variable [iN]. *)
Inductive Offset :=
| OffNum (n : Z)
| OffIndex (n : nat).

Inductive expr :=
| Num (z : Z)
| Str (s : string)
| Ref (x : var)
| PathLength                      (* pathname.length *)
| IndexOfSlash (from : expr)      (* pathname.indexOf('/', FROM) *)
| Slice (a b : expr)              (* pathname.slice(A, B) *)
| Plus (a b : expr)               (* A + B *)
| Minus (a b : expr)              (* A - B *)
| Cond (c a b : expr)             (* C ? A : B *)
| Lower (e : expr)                (* E.toLowerCase() *)
| Not (e : expr)                  (* !E *)
| Or (a b : expr)                 (* A || B *)
| And (a b : expr)                (* A && B *)
| StrictEq (a b : expr)           (* A === B *)
| StrictNe (a b : expr)           (* A !== B *)
| Greater (a b : expr).           (* A > B *)

(** The object literal written by [renderMatch]. *)
Record Match := {
  match_verb : HttpVerb;
  match_route : Route;
  match_pathIndex : option string
}.

Definition show_Match (m : Match) : string :=
  renderMatch (match_verb m) (match_route m) (match_pathIndex m).

Inductive stmt :=
| Const (x : var) (e : expr)      (* const X = E; *)
| If (c : expr) (body : list stmt) (orElse : option (list stmt))
                                  (* if (C) { BODY } [else { ELSE }] *)
| Switch (e : expr) (cases : list (string * list stmt))
                                  (* switch (E) { case 'K': BODY ... } *)
| Return (m : option Match).      (* return M;  return null; *)

Definition offsetExpr (offset : Offset) : expr :=
  match offset with
  | OffNum n => Num n
  | OffIndex n => Ref (VIndex n)
  end.

(** [String(offset)] *)
Definition show_Offset (offset : Offset) : string :=
  match offset with
  | OffNum n => JS.showNum n
  | OffIndex n => "i" ++ JS.showNum (Z.of_nat n)
  end.

(** [child.static || child.dynamic || child.catchAll] *)
Definition hasSubtree (t : RouteTrie) : bool :=
  isSome (trie_static t) || isSome (trie_dynamic t) || isSome (trie_catchAll t).

(** [dynamic?.route] *)
Definition dynamicRoute (dynamic : option RouteTrie) : option Route :=
  match dynamic with
  | Some d => trie_route d
  | None => None
  end.

(** The array [terminal]: the static children that end a route. *)
Definition terminalChildren (static : option (list RouteTrie))
    : list (string * Route) :=
  match static with
  | None => []
  | Some cs =>
      flat_map (fun c =>
                  match trie_route c with
                  | Some r => [(trie_key c, r)]
                  | None => []
                  end) cs
  end.

(** Lines 477-498: a [switch] on the segment in lower case when more than
    one static child ends a route, one [if] otherwise. *)
Definition terminalDispatch (verb : HttpVerb) (value : expr)
    (terminal : list (string * Route)) : list stmt :=
  let ret r :=
    Return (Some {| match_verb := verb; match_route := r;
                    match_pathIndex := None |}) in
  match terminal with
  | [] => []
  | _ =>
      if (1 <? List.length terminal)%nat then
        [Switch (Lower value) (map (fun kr => (fst kr, [ret (snd kr)])) terminal)]
      else
        map (fun kr => If (StrictEq (Lower value) (Str (fst kr)))
                          [ret (snd kr)] None) terminal
  end.

(** Lines 466-507: the block for a path that ends with this segment. *)
Definition lastSegmentBlock (verb : HttpVerb) (next : nat) (offset : Offset)
    (terminal : list (string * Route)) (dynRoute : option Route)
    : list stmt :=
  let index := Ref (VIndex next) in
  let value := Slice (offsetExpr offset) (Cond index (Num (-1)) (Ref VLen)) in
  match dynRoute with
  | Some r =>
      Const (VSegment next) value
      :: terminalDispatch verb (Ref (VSegment next)) terminal
      +++ [If (Ref (VSegment next))
              [Return (Some {| match_verb := verb; match_route := r;
                               match_pathIndex := None |})] None]
  | None => terminalDispatch verb value terminal
  end.

(** Lines 524-550: a [switch] when more than one static child has a
    subtree, one [if] otherwise; each case holds the code of the child. *)
Definition childrenDispatch (value : expr)
    (children : list (string * list stmt)) : list stmt :=
  match children with
  | [] => []
  | _ =>
      if (1 <? List.length children)%nat then
        [Switch (Lower value) children]
      else
        map (fun kb => If (StrictEq (Lower value) (Str (fst kb)))
                          (snd kb) None) children
  end.

(** Lines 517-556: the block for a path that goes on after this segment;
    [children] and [dynamicBody] hold the code already generated for the
    static children with a subtree and for the dynamic child. *)
Definition moreSegmentsBlock (next : nat) (offset : Offset)
    (bindsSegment : bool) (children : list (string * list stmt))
    (dynamicBody : option (list stmt)) : list stmt :=
  let index := Ref (VIndex next) in
  let value := Slice (offsetExpr offset) (Minus index (Num 1)) in
  let dynamicBlock value :=
    match dynamicBody with
    | Some body => [If value body None]
    | None => []
    end in
  if bindsSegment then
    Const (VSegment next) value
    :: childrenDispatch (Ref (VSegment next)) children
    +++ dynamicBlock (Ref (VSegment next))
  else childrenDispatch value children +++ dynamicBlock value.

(** Lines 447-558, given the generated code of the subtrees. *)
Definition segmentCode (verb : HttpVerb) (next : nat) (offset : Offset)
    (terminal : list (string * Route)) (dynRoute : option Route)
    (bindsSegment : bool) (children : list (string * list stmt))
    (dynamicBody : option (list stmt)) : list stmt :=
  let index := Ref (VIndex next) in
  let hasLast :=
    match terminal with [] => isSome dynRoute | _ => true end in
  let hasMore :=
    match children with [] => isSome dynamicBody | _ => true end in
  let more := moreSegmentsBlock next offset bindsSegment children dynamicBody in
  Const (VIndex next) (Plus (IndexOfSlash (offsetExpr offset)) (Num 1))
  :: (if hasLast then
        [If (Or (Not index) (StrictEq index (Ref VLen)))
            (lastSegmentBlock verb next offset terminal dynRoute)
            (if hasMore then Some more else None)]
      else if hasMore then
        [If (And index (StrictNe index (Ref VLen))) more None]
      else []).

(** [typeof offset === "string" ? index : offset + child.key.length + 1] *)
Definition nextOffset (offset : Offset) (next : nat) (child : RouteTrie)
    : Offset :=
  match offset with
  | OffIndex _ => OffIndex next
  | OffNum n => OffNum (n + JS.len (trie_key child) + 1)
  end.

(** [dynamic?.static || dynamic?.dynamic] *)
Definition dynamicHasEdges (dynamic : option RouteTrie) : bool :=
  match dynamic with
  | Some d => isSome (trie_static d) || isSome (trie_dynamic d)
  | None => false
  end.

(** What is written after the blocks are closed (lines 564-572). *)
Definition tailCode (verb : HttpVerb) (level : nat) (offset : Offset)
    (catchAll : option Route) : list stmt :=
  match catchAll with
  | Some r =>
      [Return (Some {| match_verb := verb; match_route := r;
                       match_pathIndex := Some (show_Offset offset) |})]
  | None => if (level =? 0)%nat then [Return None] else []
  end.

Fixpoint writeRouterVerb (trie : RouteTrie) (verb : HttpVerb) (level : nat)
    (offset : Offset) {struct trie} : list stmt :=
  let 'Trie _ route static dynamic catchAll := trie in
  let hasEdges := isSome static || isSome dynamic in
  let next := S level in
  (* the array [children], with the code written for each child *)
  let children :=
    match static with
    | None => []
    | Some cs =>
        flat_map
          (fun child =>
             if hasSubtree child then
               [(trie_key child,
                 writeRouterVerb child verb next (nextOffset offset next child))]
             else [])
          cs
    end in
  let dynamicBody :=
    match dynamic with
    | Some d =>
        if hasSubtree d
        then Some (writeRouterVerb d verb next (OffIndex next))
        else None
    | None => None
    end in
  let segments :=
    if hasEdges then
      segmentCode verb next offset (terminalChildren static)
        (dynamicRoute dynamic) (dynamicHasEdges dynamic) children dynamicBody
    else [] in
  match level with
  | O =>
      Const VLen PathLength
      :: match route with
         | Some r =>
             If (StrictEq (Ref VLen) (Num 1))
                [Return (Some {| match_verb := verb; match_route := r;
                                 match_pathIndex := None |})] None
             :: segments
         | None =>
             if hasEdges
             then [If (Greater (Ref VLen) (Num 1)) segments None]
             else segments
         end
      +++ tailCode verb level offset catchAll
  | S _ => segments +++ tailCode verb level offset catchAll
  end.

(** *** Running a matcher *)

Inductive value :=
| VNum (z : Z)
| VStr (s : string)
| VBool (b : bool).

Definition truthyValue (v : value) : bool :=
  match v with
  | VNum z => negb (z =? 0)
  | VStr s => JS.truthy s
  | VBool b => b
  end.

(** [===] *)
Definition strictEq (a b : value) : bool :=
  match a, b with
  | VNum x, VNum y => x =? y
  | VStr x, VStr y => (x =? y)%string
  | VBool x, VBool y => Bool.eqb x y
  | _, _ => false
  end.

Definition var_eqb (x y : var) : bool :=
  match x, y with
  | VLen, VLen => true
  | VIndex n, VIndex m => (n =? m)%nat
  | VSegment n, VSegment m => (n =? m)%nat
  | _, _ => false
  end.

Record Env := {
  env_pathname : string;
  env_vars : list (var * value)
}.

Definition bindVar (x : var) (v : value) (env : Env) : Env :=
  {| env_pathname := env_pathname env;
     env_vars := (x, v) :: env_vars env |}.

Fixpoint lookupVar (vars : list (var * value)) (x : var) : option value :=
  match vars with
  | [] => None
  | (y, v) :: rest => if var_eqb y x then Some v else lookupVar rest x
  end.

(** The value of an expression; [None] is a thrown error (a variable that
    is not bound, an operand of the wrong type). *)
Fixpoint eval (env : Env) (e : expr) : option value :=
  let num e := match eval env e with Some (VNum z) => Some z | _ => None end in
  match e with
  | Num z => Some (VNum z)
  | Str s => Some (VStr s)
  | Ref x => lookupVar (env_vars env) x
  | PathLength => Some (VNum (JS.len (env_pathname env)))
  | IndexOfSlash from =>
      match num from with
      | Some k => Some (VNum (JS.indexOf (env_pathname env) "/" k))
      | None => None
      end
  | Slice a b =>
      match num a, num b with
      | Some x, Some y => Some (VStr (JS.slice (env_pathname env) x y))
      | _, _ => None
      end
  | Plus a b =>
      match num a, num b with
      | Some x, Some y => Some (VNum (x + y))
      | _, _ => None
      end
  | Minus a b =>
      match num a, num b with
      | Some x, Some y => Some (VNum (x - y))
      | _, _ => None
      end
  | Cond c a b =>
      match eval env c with
      | Some v => if truthyValue v then eval env a else eval env b
      | None => None
      end
  | Lower e =>
      match eval env e with
      | Some (VStr s) => Some (VStr (JS.toLowerCase s))
      | _ => None
      end
  | Not e =>
      match eval env e with
      | Some v => Some (VBool (negb (truthyValue v)))
      | None => None
      end
  | Or a b =>
      match eval env a with
      | Some v => if truthyValue v then Some v else eval env b
      | None => None
      end
  | And a b =>
      match eval env a with
      | Some v => if truthyValue v then eval env b else Some v
      | None => None
      end
  | StrictEq a b =>
      match eval env a, eval env b with
      | Some x, Some y => Some (VBool (strictEq x y))
      | _, _ => None
      end
  | StrictNe a b =>
      match eval env a, eval env b with
      | Some x, Some y => Some (VBool (negb (strictEq x y)))
      | _, _ => None
      end
  | Greater a b =>
      match num a, num b with
      | Some x, Some y => Some (VBool (y <? x))
      | _, _ => None
      end
  end.

(** How a block ends: it runs to its end, reaches a [return], or throws.
    [Returned] carries what the [return] reached holds, [null] or the
    object literal as [renderMatch] wrote it ([show_Match] is its text):
    the run is followed up to that statement, and the literal is not
    evaluated. *)
Inductive Completion :=
| Normal
| Returned (m : option Match)
| Failed.

(** The statements of a block, in order; a [const] is in scope for the
    rest of its block. *)
Definition runBlockWith (run : Env -> stmt -> Env * Completion)
    : Env -> list stmt -> Completion :=
  fix go (env : Env) (ss : list stmt) : Completion :=
    match ss with
    | [] => Normal
    | s :: rest =>
        match run env s with
        | (env', Normal) => go env' rest
        | (_, c) => c
        end
    end.

(** The cases of a [switch] from the first one whose label is strictly
    equal to the value; as no case ends in [break], a case that runs to its
    end goes on into the next one. *)
Definition runCasesWith (runBlock : Env -> list stmt -> Completion)
    (env : Env) (v : value)
    : bool -> list (string * list stmt) -> Completion :=
  fix go (entered : bool) (cases : list (string * list stmt)) : Completion :=
    match cases with
    | [] => Normal
    | (k, body) :: rest =>
        if entered || strictEq v (VStr k) then
          match runBlock env body with
          | Normal => go true rest
          | c => c
          end
        else go false rest
    end.

(** One statement.  A [return] ends the run with what it holds; the
    object literal is taken as it is written and is not evaluated (its
    text, [show_Match], reads the segment variables of the positional
    parameters and the pathname from the path index). *)
Fixpoint execStmt (env : Env) (s : stmt) {struct s} : Env * Completion :=
  match s with
  | Const x e =>
      match eval env e with
      | Some v => (bindVar x v env, Normal)
      | None => (env, Failed)
      end
  | If c body orElse =>
      match eval env c with
      | Some v =>
          if truthyValue v then (env, runBlockWith execStmt env body)
          else
            match orElse with
            | Some alt => (env, runBlockWith execStmt env alt)
            | None => (env, Normal)
            end
      | None => (env, Failed)
      end
  | Switch e cases =>
      match eval env e with
      | Some v => (env, runCasesWith (runBlockWith execStmt) env v false cases)
      | None => (env, Failed)
      end
  | Return m => (env, Returned m)
  end.

Definition exec : Env -> list stmt -> Completion := runBlockWith execStmt.

(** The route a completion carries: [Some None] when the code runs to its
    end or returns [null]; [None] when it throws. *)
Definition completionRoute (c : Completion) : option (option Route) :=
  match c with
  | Returned (Some m) => Some (Some (match_route m))
  | Returned None => Some None
  | Normal => Some None
  | Failed => None
  end.

(** The body of one [case 'verb': { ... }] of [match], run on a pathname:
    the matched route, if any. *)
Definition runMatcher (code : list stmt) (pathname : string)
    : option (option Route) :=
  completionRoute (exec {| env_pathname := pathname; env_vars := [] |} code).

(** ** Entry-point compiler: [renderRouter] *)

Section Router.

Variable virtualFilePrefix markoRunFilePrefix serverEntryQuery : string.

(** [httpVerbs] of [../constants], [getVerbs] and [hasVerb] of
    [../utils/route] and [createRouteTrie] of [../routes/routeTrie]. *)
Variable httpVerbs : list HttpVerb.
Variable getVerbs : Route -> option (list HttpVerb).
Variable hasVerb : Route -> HttpVerb -> bool.
Variable createRouteTrie : list Route -> result RouteTrie.

(** The router module: its import lines, the cases of the [switch] of
    [match], and the parts of [invoke] and [fetch] that depend on the
    routes and options. *)
Record RouterModule := {
  router_imports : list string;
  router_matchers : list (HttpVerb * list stmt);
  (* the [else] branch and the 404 response of [invoke] are written *)
  router_notFoundPage : bool;
  (* the 500 response of [invoke] is written *)
  router_errorPage : bool;
  (* which trailing-slash fragment [fetch] holds *)
  router_trailingSlashes : TrailingSlashes
}.

Fixpoint routeImports (routes : list Route) : result (list string) :=
  match routes with
  | [] => Ok []
  | route :: rest =>
      match getVerbs route with
      | None => Err "Cannot read properties of undefined (reading 'map')"
      | Some verbs =>
          let names :=
            map (fun verb => verb ++ JS.showNum (route_index route)) verbs
            +++ (if isSome (route_meta route)
                 then ["meta" ++ JS.showNum (route_index route)] else []) in
          let line :=
            "import { " ++ JS.join ", " names ++ " } from '"
            ++ virtualFilePrefix ++ "/" ++ markoRunFilePrefix ++ "route__"
            ++ route_key route ++ ".js';" in
          lines <- routeImports rest ;;
          Ok (line :: lines)
      end
  end.

(** [Object.values(routes.special)]: integer keys come in ascending
    order. *)
Definition specialValues (special : SpecialRoutes) : list Route :=
  (match special_404 special with Some r => [r] | None => [] end)
  +++ (match special_500 special with Some r => [r] | None => [] end).

Fixpoint verbCases (routes : list Route) (verbs : list HttpVerb)
    : result (list (HttpVerb * list stmt)) :=
  match verbs with
  | [] => Ok []
  | verb :: rest =>
      let filteredRoutes := filter (fun route => hasVerb route verb) routes in
      match filteredRoutes with
      | [] => verbCases routes rest
      | _ =>
          trie <- createRouteTrie filteredRoutes ;;
          cases <- verbCases routes rest ;;
          Ok ((verb, writeRouterVerb trie verb 0 (OffNum 1)) :: cases)
      end
  end.

Definition renderRouter (routes : BuiltRoutes) (options : option RouterOptions)
    : result RouterModule :=
  let options :=
    match options with
    | Some o => o
    | None => {| trailingSlashes := RedirectWithout |}
    end in
  imports <- routeImports (routes_list routes) ;;
  cases <- verbCases (routes_list routes) httpVerbs ;;
  Ok {| router_imports :=
          "import { NotHandled, NotMatched, createInput } from 'virtual:marko-run/internal';"
          :: imports
          +++ map (fun r =>
                     "import page" ++ route_key r ++ " from '"
                     ++ virtualFilePrefix ++ "/" ++ markoRunFilePrefix
                     ++ "special__" ++ route_key r ++ ".marko"
                     ++ serverEntryQuery ++ "';")
                  (specialValues (routes_special routes));
        router_matchers := cases;
        router_notFoundPage := isSome (special_404 (routes_special routes));
        router_errorPage := isSome (special_500 (routes_special routes));
        router_trailingSlashes := trailingSlashes options |}.

End Router.

(** *** The generated [match] *)

(** [if (!pathname) pathname = '/'; else if (pathname.charAt(0) !== '/')
    pathname = '/' + pathname;] *)
Definition normalizePathname (pathname : string) : string :=
  match pathname with
  | EmptyString => "/"
  | String c _ => if (c =? "/")%char then pathname else "/" ++ pathname
  end.

(** [switch (method.toLowerCase()) { case 'verb': { ... } ... } return null;]
    [None] is a thrown error; the object of the [return] reached is
    handed back as it is written. *)
Definition runMatch (matchers : list (HttpVerb * list stmt))
    (method pathname : string) : option (option Match) :=
  let env := {| env_pathname := normalizePathname pathname; env_vars := [] |} in
  match runCasesWith exec env (VStr (JS.toLowerCase method)) false matchers with
  | Returned m => Some m
  | Normal => Some None
  | Failed => None
  end.

(** *** The generated [invoke] *)

(** The object returned by [match]. *)
Record MatchedRoute := {
  matched_handler : Context -> Outcome;
  matched_params : Params;
  matched_meta : Meta
}.

Fixpoint includes (needle s : string) : bool :=
  String.prefix needle s
  || match s with
     | EmptyString => false
     | String _ r => includes needle r
     end.

(** [context.request.headers.get('Accept')?.includes('text/html')] *)
Definition acceptsHtml (context : Context) : bool :=
  match req_accept (ctx_request context) with
  | Some accept => includes "text/html" accept
  | None => false
  end.

Definition setRoute (context : Context) (params : Params) (meta : Meta)
    : Context :=
  {| ctx_url := ctx_url context;
     ctx_request := ctx_request context;
     ctx_platform := ctx_platform context;
     ctx_params := Some params;
     ctx_meta := Some meta |}.

(** What follows the [if (route) { ... }] statement inside the outer [try]:
    with a 404 page, the 404 response for a client that accepts HTML;
    otherwise the end of the function. *)
Definition notFoundFallback (notFoundPage : bool) (context : Context)
    : Outcome :=
  if notFoundPage && acceptsHtml context then
    Returns (Some (PageResponse "page404" 404 (buildInput context None)))
  else Returns None.

(** The outer [try] block; the context is returned with the outcome, as the
    block assigns to its fields. *)
Definition invokeTry (notFoundPage : bool) (route : option MatchedRoute)
    (context : Context) : Context * Outcome :=
  match route with
  | Some r =>
      let context := setRoute context (matched_params r) (matched_meta r) in
      match matched_handler r context with
      | Returns (Some response) => (context, Returns (Some response))
      | Returns None => (context, notFoundFallback notFoundPage context)
      | Throws NotHandled => (context, Returns None)
      | Throws NotMatched => (context, notFoundFallback notFoundPage context)
      | Throws error => (context, Throws error)
      end
  | None =>
      if notFoundPage then
        let context := setRoute context [] MetaEmpty in
        (context, notFoundFallback notFoundPage context)
      else (context, Returns None)
  end.

(** [} catch (error) { [if (accepts html) return 500 page;] throw error; }] *)
Definition invokeCatch (errorPage : bool) (context : Context)
    (error : Thrown) : Outcome :=
  if errorPage && acceptsHtml context then
    Returns (Some (PageResponse "page500" 500
                     (buildInput context (Some error))))
  else Throws error.

Definition invokeWithContext (notFoundPage errorPage : bool)
    (route : option MatchedRoute) (request : Request) (platform : string)
    (url : Url) : Context * Outcome :=
  let context :=
    {| ctx_url := url; ctx_request := request; ctx_platform := platform;
       ctx_params := None; ctx_meta := None |} in
  match invokeTry notFoundPage route context with
  | (context, Throws error) => (context, invokeCatch errorPage context error)
  | done => done
  end.

Definition invoke (notFoundPage errorPage : bool)
    (route : option MatchedRoute) (request : Request) (platform : string)
    (url : Url) : Outcome :=
  snd (invokeWithContext notFoundPage errorPage route request platform url).

(** *** The generated [fetch] *)

Section Fetch.

(** [match] and [invoke] of the same module, and [import.meta.env.DEV]. *)
Variable matchRoute : string -> string -> option MatchedRoute.
Variable invokeRoute :
  option MatchedRoute -> Request -> string -> Url -> Outcome.
Variable dev : bool.

Definition withPathname (url : Url) (pathname : string) : Url :=
  {| url_origin := url_origin url; url_pathname := pathname |}.

Definition isRoot (pathname : string) : bool := (pathname =? "/")%string.

(** The fragment written for the trailing-slash option: a redirect
    ([inl]), or the url and pathname to go on with ([inr]). *)
Definition applyTrailingSlashes (policy : TrailingSlashes) (url : Url)
    : Response + Url * string :=
  let pathname := url_pathname url in
  match policy with
  | RedirectWithout =>
      if negb (isRoot pathname) && JS.endsWithSlash pathname then
        inl (RedirectResponse (withPathname url (JS.slice pathname 0 (-1))))
      else inr (url, pathname)
  | RedirectWith =>
      if negb (isRoot pathname) && negb (JS.endsWithSlash pathname) then
        inl (RedirectResponse (withPathname url (pathname ++ "/")))
      else inr (url, pathname)
  | RewriteWithout =>
      if negb (isRoot pathname) && JS.endsWithSlash pathname then
        let pathname := JS.slice pathname 0 (-1) in
        inr (withPathname url pathname, pathname)
      else inr (url, pathname)
  | RewriteWith =>
      if negb (isRoot pathname) && negb (JS.endsWithSlash pathname) then
        let pathname := pathname ++ "/" in
        inr (withPathname url pathname, pathname)
      else inr (url, pathname)
  end.

(** [error.message] and [error.stack] inside a template literal. *)
Definition errorMessage (error : Thrown) : string :=
  match error with
  | ErrorValue message _ => message
  | _ => "undefined"
  end.

Definition errorStack (error : Thrown) : string :=
  match error with
  | ErrorValue _ stack => stack
  | _ => "undefined"
  end.

Definition newline : string := String (ascii_of_nat 10) EmptyString.

(** [new Response(body, { statusText, status })] throws a [TypeError]
    unless [statusText] is a reason phrase: each of its characters has to
    be a tab, a space, a visible ASCII character, or a character from
    0x80 to 0xFF. *)
Definition reasonPhraseChar (c : ascii) : bool :=
  (c =? ascii_of_nat 9)%char
  || JS.inRange " " "~" c
  || JS.inRange (ascii_of_nat 128) (ascii_of_nat 255) c.

Definition isReasonPhrase (statusText : string) : bool :=
  allChars reasonPhraseChar statusText.

(** The [catch] block of [fetch]: the response it returns, or [None] when
    the constructor of the response throws. *)
Definition errorResponse (error : Thrown) : option Response :=
  let message :=
    if dev then "Internal Server Error (" ++ errorMessage error ++ ")"
    else "Internal Server Error" in
  let stack :=
    if dev then
      "This will only be seen in development mode" ++ newline ++ newline
      ++ errorStack error
    else EmptyString in
  if isReasonPhrase message then Some (JsonResponse 500 message message stack)
  else None.

(** What the promise of [fetch] settles to: the value the function
    returns, or the rejection with the [TypeError] thrown inside its
    [catch] block, which nothing catches. *)
Inductive Settled :=
| Fulfilled (response : option Response)
| Rejected.

Definition settle (response : option Response) : Settled :=
  match response with
  | Some r => Fulfilled (Some r)
  | None => Rejected
  end.

Definition fetch (policy : TrailingSlashes) (request : Request)
    (platform : string) : Settled :=
  let url := req_url request in
  match applyTrailingSlashes policy url with
  | inl redirect => Fulfilled (Some redirect)
  | inr (url, pathname) =>
      let route := matchRoute (req_method request) pathname in
      match invokeRoute route request platform url with
      | Returns response => Fulfilled response
      | Throws error => settle (errorResponse error)
      end
  end.

End Fetch.

(** [fetch] of a rendered router module. *)
Definition fetchOf (m : RouterModule)
    (matchRoute : string -> string -> option MatchedRoute) (dev : bool)
    : Request -> string -> Settled :=
  fetch matchRoute
    (invoke (router_notFoundPage m) (router_errorPage m)) dev
    (router_trailingSlashes m).

(** Modelled from the spec: the runtime helper [call(layer, next,
    context)], which is not in this file, "invokes a middleware/handler
    layer with a reference to the next continuation and the shared
    context", where a result short-circuits what follows, [NotMatched]
    means "try the fallback" and [NotHandled] "produce no response". *)
Definition specCall (layer : Layer) (next : Thunk) (context : Context)
    : Outcome :=
  match layer context next with
  | Returns (Some response) => Returns (Some response)
  | Returns None => next tt
  | Throws NotMatched => next tt
  | Throws NotHandled => Returns None
  | Throws error => Throws error
  end.

(** The two parts of the contract of [call] that the page fallback relies
    on. *)
Definition callShortCircuits (call : Layer -> Thunk -> Context -> Outcome)
    (context : Context) : Prop :=
  forall layer next response,
    layer context next = Returns (Some response) ->
    call layer next context = Returns (Some response).

Definition callFallsBack (call : Layer -> Thunk -> Context -> Outcome)
    (context : Context) : Prop :=
  forall layer next,
    layer context next = Throws NotMatched ->
    call layer next context = next tt.

(** Middleware that hands on the response of what it wraps: each of the
    names is bound to a layer, and [call] on it answers with the response
    that the next step answers with. *)
Definition handsOn (call : Layer -> Thunk -> Context -> Outcome)
    (layers : string -> option Layer) (context : Context)
    (names : list string) : Prop :=
  forall name,
    In name names ->
    exists layer,
      layers name = Some layer
      /\ forall next response,
           next tt = Returns (Some response) ->
           call layer next context = Returns (Some response).


(** The context [invoke] starts from. *)
Definition initialContext (request : Request) (platform : string) (url : Url)
    : Context :=
  {| ctx_url := url; ctx_request := request; ctx_platform := platform;
     ctx_params := None; ctx_meta := None |}.

(** Sample values for the closed instances below. *)
Definition sampleUrl (pathname : string) : Url :=
  {| url_origin := "http://localhost"; url_pathname := pathname |}.

Definition sampleRequest (pathname : string) (accept : option string)
    : Request :=
  {| req_method := "GET"; req_url := sampleUrl pathname;
     req_accept := accept |}.

Definition sampleMatched (handler : Context -> Outcome) : MatchedRoute :=
  {| matched_handler := handler;
     matched_params := [("id", "7")];
     matched_meta := MetaEmpty |}.

Definition sampleFile (id : string) (verbs : option (list HttpVerb))
    : RoutableFile :=
  {| file_id := id; file_importPath := id ++ ".js";
     file_relativePath := id ++ ".js"; file_verbs := verbs |}.

Definition sampleRoute (key path : string) (index : Z)
    (handler page : option RoutableFile) (middleware : list RoutableFile)
    : Route :=
  {| route_key := key; route_path := path; route_index := index;
     route_params := None; route_handler := handler; route_page := page;
     route_layouts := []; route_middleware := middleware;
     route_meta := None |}.

(** The params object in the claim's words: one entry per positional
    parameter, then the entry of the catch-all parameter, each under its
    [propertyKey]. *)
Fixpoint concatAll (xs : list string) : string :=
  match xs with
  | [] => EmptyString
  | x :: rest => x ++ concatAll rest
  end.

Definition positionalEntry (p : ParamInfo) : string :=
  if 0 <=? param_index p then
    "{ " ++ propertyKey (param_name p) ++ ": s"
    ++ JS.showNum (param_index p + 1)
  else EmptyString.

Definition pathIndexGiven (pathIndex : option string) : bool :=
  match pathIndex with
  | Some ix => JS.truthy ix
  | None => false
  end.

Definition lastCatchAll (pathIndex : option string) (params : list ParamInfo)
    (seed : string) : string :=
  fold_left
    (fun found p =>
       if negb (0 <=? param_index p) && pathIndexGiven pathIndex
       then param_name p else found)
    params seed.

Definition paramsObject (params : list ParamInfo) (pathIndex : option string)
    : string :=
  let entries := concatAll (map positionalEntry params) in
  let catchAll := lastCatchAll pathIndex params EmptyString in
  let body :=
    if JS.truthy catchAll then
      entries ++ "{ " ++ propertyKey catchAll ++ ": pathname.slice("
      ++ match pathIndex with Some ix => ix | None => "undefined" end ++ ")"
    else entries in
  if JS.truthy body then body ++ " }" else "{}".

Definition paramsType (params : list ParamInfo) : string :=
  "{"
  ++ concatAll (map (fun p => " " ++ propertyKey (param_name p) ++ ": string;")
                    params)
  ++ " }".

(** A page route with a handler for [get] and [post] and three
    middleware, and the bindings of its module. *)
Definition sampleChainRoute : Route :=
  sampleRoute "item" "/item" 3
    (Some (sampleFile "handler" (Some ["get"; "post"])))
    (Some (sampleFile "page" None))
    [sampleFile "1" None; sampleFile "2" None; sampleFile "5" None].

Definition sampleLayers (handler : Layer) (name : string) : option Layer :=
  if (name =? "getHandler")%string then Some handler
  else if (name =? "postHandler")%string then Some handler
  else Some (fun _ next => next tt).

Definition sampleNoContent : Thunk :=
  fun _ => Returns (Some (UserResponse "no content")).

Definition sampleContext : Context :=
  initialContext (sampleRequest "/item" None) "edge" (sampleUrl "/item").

(** *** The priority the claims describe

    At a node reached with one last segment left: the route of the literal
    child whose key is the segment in lower case; else, for a segment that
    is not empty, the route that ends at the dynamic child; else the
    catch-all route. *)
Definition terminalRoute (t : RouteTrie) (key : string) : option Route :=
  option_map snd
    (find (fun kr => (fst kr =? key)%string)
          (terminalChildren (trie_static t))).

Definition lastSegmentRoute (t : RouteTrie) (segment : string)
    : option Route :=
  match terminalRoute t (JS.toLowerCase segment) with
  | Some r => Some r
  | None =>
      match dynamicRoute (trie_dynamic t) with
      | Some r => if JS.truthy segment then Some r else trie_catchAll t
      | None => trie_catchAll t
      end
  end.

(** The literal child of a node that has a subtree, by key. *)
Definition subtreeChild (t : RouteTrie) (key : string) : option RouteTrie :=
  match trie_static t with
  | Some cs =>
      find (fun c => (trie_key c =? key)%string) (filter hasSubtree cs)
  | None => None
  end.

(** The route registered under a path of literal segments. *)
Fixpoint literalRoute (t : RouteTrie) (keys : list string) : option Route :=
  match keys with
  | [] => None
  | [key] => terminalRoute t key
  | key :: rest =>
      match subtreeChild t key with
      | Some child => literalRoute child rest
      | None => None
      end
  end.

Definition noSlash (s : string) : Prop := JS.findChar "/" s = None.

(** A segment of a pathname that a literal key matches: not empty, without
    [/], and with the key as its lower-case form.  (A key that holds an
    upper-case letter is matched by no segment.) *)
Definition segmentMatches (segment key : string) : Prop :=
  segment <> EmptyString /\ noSlash segment
  /\ JS.toLowerCase segment = key.

(** [/seg1/seg2/.../segn], with a trailing slash or not. *)
Fixpoint pathOf (segments : list string) (trailing : bool) : string :=
  match segments with
  | [] => if trailing then "/" else EmptyString
  | segment :: rest => "/" ++ segment ++ pathOf rest trailing
  end.

(** The value of the parameter [offset] where the code of a node at
    [level] runs. *)
Definition offsetIs (env : Env) (level : nat) (offset : Offset) (o : Z)
    : Prop :=
  match offset with
  | OffNum n => n = o
  | OffIndex j =>
      (j <= level)%nat
      /\ lookupVar (env_vars env) (VIndex j) = Some (VNum o)
  end.

(** The pathname ends with [segment], which starts at position [o], and
    at most a slash after it. *)
Definition atLastSegment (env : Env) (o : Z) (segment : string) : Prop :=
  exists before trailing,
    env_pathname env
    = before ++ segment ++ (if trailing : bool then "/" else EmptyString)
    /\ JS.len before = o
    /\ noSlash segment.

Definition lenBound (env : Env) : Prop :=
  lookupVar (env_vars env) VLen = Some (VNum (JS.len (env_pathname env))).

(** The object returned for a route that is not a catch-all. *)
Definition plainMatch (verb : HttpVerb) (r : Route) : Match :=
  {| match_verb := verb; match_route := r; match_pathIndex := None |}.

(** The cases written for the static children with a subtree, and the
    code written for the dynamic child, of a node at [level]. *)
Definition childrenCode (t : RouteTrie) (verb : HttpVerb) (level : nat)
    (offset : Offset) : list (string * list stmt) :=
  match trie_static t with
  | None => []
  | Some cs =>
      map (fun child =>
             (trie_key child,
              writeRouterVerb child verb (S level)
                (nextOffset offset (S level) child)))
          (filter hasSubtree cs)
  end.

Definition dynamicCode (t : RouteTrie) (verb : HttpVerb) (level : nat)
    : option (list stmt) :=
  match trie_dynamic t with
  | Some d =>
      if hasSubtree d
      then Some (writeRouterVerb d verb (S level) (OffIndex (S level)))
      else None
  | None => None
  end.

(** The code of the edges of a node: what [writeRouterVerb] writes between
    the opening lines of level 0 and the closing lines. *)
Definition segmentsCode (t : RouteTrie) (verb : HttpVerb) (level : nat)
    (offset : Offset) : list stmt :=
  if isSome (trie_static t) || isSome (trie_dynamic t) then
    segmentCode verb (S level) offset (terminalChildren (trie_static t))
      (dynamicRoute (trie_dynamic t)) (dynamicHasEdges (trie_dynamic t))
      (childrenCode t verb level offset) (dynamicCode t verb level)
  else [].

(** The index variable of a node at [level], run on [env]. *)
Definition indexValue (env : Env) (o : Z) : Z :=
  JS.indexOf (env_pathname env) "/" o + 1.

(** Try one thing, then another: the second runs when the first ran to
    its end without returning. *)
Definition orElse (first second : Completion) : Completion :=
  match first with
  | Normal => second
  | done => done
  end.

(** The variables in scope in the block of a node for a pathname that goes
    on: its index, and the segment when the node binds it. *)
Definition innerEnv (t : RouteTrie) (level : nat) (env : Env) (o : Z)
    (segment : string) : Env :=
  let env1 := bindVar (VIndex (S level)) (VNum (indexValue env o)) env in
  if dynamicHasEdges (trie_dynamic t)
  then bindVar (VSegment (S level)) (VStr segment) env1
  else env1.

(** What a node does with a pathname that goes on after the segment: the
    cases of the static children from the one whose key is the segment in
    lower case; then, for a segment that is not empty, the code of the
    dynamic child; then the catch-all. *)
Definition innerOrder (t : RouteTrie) (verb : HttpVerb) (level : nat)
    (offset : Offset) (env : Env) (o : Z) (segment : string) : Completion :=
  let inner := innerEnv t level env o segment in
  orElse
    (runCasesWith exec inner (VStr (JS.toLowerCase segment)) false
       (childrenCode t verb level offset))
    (orElse
       (match dynamicCode t verb level with
        | Some body => if JS.truthy segment then exec inner body else Normal
        | None => Normal
        end)
       (exec env (tailCode verb level offset (trie_catchAll t)))).

(** The pathname goes on after [segment], which starts at position [o]. *)
Definition atInnerSegment (env : Env) (o : Z) (segment : string) : Prop :=
  exists before rest,
    env_pathname env = before ++ segment ++ "/" ++ rest
    /\ rest <> EmptyString
    /\ JS.len before = o
    /\ noSlash segment.

(** The pathname from a segment on: [seg1/seg2/.../segn]. *)
Definition innerPath (segments : list string) (trailing : bool) : string :=
  match segments with
  | [] => EmptyString
  | segment :: rest => segment ++ pathOf rest trailing
  end.

(** The trie of [/item/edit], [/item/$id] and [/item/$$rest]. *)
Definition editRoute : Route :=
  sampleRoute "item.edit" "/item/edit" 1
    (Some (sampleFile "edit" (Some ["get"]))) None [].

Definition idRoute : Route :=
  sampleRoute "item.$id" "/item/$id" 2
    (Some (sampleFile "id" (Some ["get"]))) None [].

Definition restRoute : Route :=
  sampleRoute "item.$$rest" "/item/$$rest" 3
    (Some (sampleFile "rest" (Some ["get"]))) None [].

(** The same dynamic and catch-all routes with their parameters: the
    second segment, and the rest of the pathname. *)
Definition itemIdRoute : Route :=
  {| route_key := "item.$id"; route_path := "/item/$id"; route_index := 2;
     route_params := Some [{| param_name := "id"; param_index := 1 |}];
     route_handler := Some (sampleFile "id" (Some ["get"]));
     route_page := None; route_layouts := []; route_middleware := [];
     route_meta := None |}.

Definition itemRestRoute : Route :=
  {| route_key := "item.$$rest"; route_path := "/item/$$rest";
     route_index := 3;
     route_params := Some [{| param_name := "rest"; param_index := -1 |}];
     route_handler := Some (sampleFile "rest" (Some ["get"]));
     route_page := None; route_layouts := []; route_middleware := [];
     route_meta := None |}.

Definition itemNode : RouteTrie :=
  Trie "item" None
    (Some [Trie "edit" (Some editRoute) None None None])
    (Some (Trie EmptyString (Some idRoute) None None None))
    (Some restRoute).

Definition sampleTrie : RouteTrie :=
  Trie EmptyString None (Some [itemNode]) None None.

(** The routes [/a/x], [/b/y] and [/$p/y], and the trie that holds them
    with the literal children of the root in a given insertion order. *)
Definition axRoute : Route :=
  sampleRoute "a.x" "/a/x" 1 (Some (sampleFile "ax" (Some ["get"]))) None [].

Definition byRoute : Route :=
  sampleRoute "b.y" "/b/y" 2 (Some (sampleFile "by" (Some ["get"]))) None [].

Definition pyRoute : Route :=
  {| route_key := "$p.y"; route_path := "/$p/y"; route_index := 3;
     route_params := Some [{| param_name := "p"; param_index := 0 |}];
     route_handler := Some (sampleFile "py" (Some ["get"]));
     route_page := None; route_layouts := []; route_middleware := [];
     route_meta := None |}.

Definition aNode : RouteTrie :=
  Trie "a" None (Some [Trie "x" (Some axRoute) None None None]) None None.

Definition bNode : RouteTrie :=
  Trie "b" None (Some [Trie "y" (Some byRoute) None None None]) None None.

Definition siblingsOf (children : list RouteTrie) : RouteTrie :=
  Trie EmptyString None (Some children)
    (Some (Trie EmptyString None
             (Some [Trie "y" (Some pyRoute) None None None]) None None))
    None.

Definition siblingsTrie : RouteTrie := siblingsOf [aNode; bNode].

(** The variables of the matcher of a verb after its first line,
    [const len = pathname.length]. *)
Definition rootEnv (pathname : string) : Env :=
  bindVar VLen (VNum (JS.len pathname))
    {| env_pathname := pathname; env_vars := [] |}.

(** ** The other functions of the file *)

(** [s.lastIndexOf(c)] for a one-character needle: [-1] when absent. *)
Fixpoint lastChar (c : ascii) (s : string) : option nat :=
  match s with
  | EmptyString => None
  | String x r =>
      match lastChar c r with
      | Some j => Some (S j)
      | None => if (x =? c)%char then Some O else None
      end
  end.

Definition lastIndexOf (s : string) (c : ascii) : Z :=
  match lastChar c s with
  | Some j => Z.of_nat j
  | None => -1
  end.

Definition stripTsExtension (path : string) : string :=
  let index := lastIndexOf path "." in
  if negb (index =? -1) then
    let ext := JS.sliceFrom path (index + 1) in
    if (JS.toLowerCase ext =? "ts")%string then JS.slice path 0 index
    else path
  else path.

(** The module written by [renderMiddleware]: the branch of the imports is
    opened after the first line and joined before the end. *)
Record MiddlewareModule := {
  mw_header : string;
  mw_imports : list string;
  mw_body : list string
}.

Definition renderMiddleware (virtualFilePrefix markoRunFilePrefix : string)
    (middleware : list RoutableFile) : MiddlewareModule :=
  {| mw_header :=
       "// " ++ virtualFilePrefix ++ "/" ++ markoRunFilePrefix
       ++ "middleware.js";
     mw_imports :=
       "import { normalize } from 'virtual:marko-run/internal';"
       :: map (fun f =>
                 "import middleware" ++ file_id f ++ " from './"
                 ++ file_importPath f ++ "';") middleware;
     mw_body :=
       EmptyString
       :: map (fun f =>
                 "export const mware" ++ file_id f ++ " = normalize(middleware"
                 ++ file_id f ++ ");") middleware |}.

Definition show_MiddlewareModule (m : MiddlewareModule) : list string :=
  mw_header m :: mw_imports m +++ mw_body m.

(** *** Route types: the paths of [renderRouteTypeInfo]

    Of [renderRouteTypeInfo] the parts that compute are modelled: the path
    type and the href paths of a route and the sets [getPaths] and
    [postPaths].  The maps keyed by file objects and the text of the
    declarations are not. *)

(** The longest prefix without [/], and what follows it. *)
Fixpoint spanSegment (s : string) : string * string :=
  match s with
  | EmptyString => (EmptyString, EmptyString)
  | String c r =>
      if (c =? "/")%char then (EmptyString, s)
      else let '(name, rest) := spanSegment r in (String c name, rest)
  end.

(** Lines 704-707: [route.path.replace(re, (_, catchAll, name) => ...)],
    where [re] matches a slash, a dollar sign, an optional second dollar
    sign (the group [catchAll]) and the longest run of characters other
    than a slash (the group [name]), and the callback answers
    [/:NAME*], with [rest] for an empty name, when [catchAll] is not
    empty, and [/:NAME] otherwise.  The expression has no flag [g]: the
    first match only is replaced, and it starts at the first slash that a
    dollar sign follows. *)
Fixpoint replaceFirstParam (path : string) : string :=
  match path with
  | EmptyString => EmptyString
  | String c r =>
      match (c =? "/")%char, r with
      | true, String d r' =>
          if (d =? "$")%char then
            let '(catchAll, r'') :=
              match r' with
              | String e r2 => if (e =? "$")%char then (true, r2) else (false, r')
              | EmptyString => (false, r')
              end in
            let '(name, rest) := spanSegment r'' in
            (if catchAll : bool
             then "/:" ++ (if JS.truthy name then name else "rest") ++ "*"
             else "/:" ++ name)
            ++ rest
          else String c (replaceFirstParam r)
      | _, _ => String c (replaceFirstParam r)
      end
  end.

Definition routePathType (route : Route) : string :=
  "`" ++ replaceFirstParam (route_path route) ++ "`".

(** Lines 716-718: [route.path.replace(re, (_, s, name) => ...)] with the
    flag [g], where [re] matches a dollar sign, an optional second dollar
    sign (the group [s]) and the longest run, not empty, of characters
    other than a slash (the group [name]); the callback answers the name
    between a dollar sign with an opening brace and a closing brace, with
    three dots before the name when [s] is not empty.  Every match is
    replaced, from left to right.  A match starts at a dollar sign that a
    character other than a slash follows.  A second dollar sign is the
    group [s] when a character other than a slash follows it, and the
    first character of the name otherwise.  [inName] tells that the
    characters read belong to the name of a match. *)
Fixpoint hrefFrom (inName : bool) (s : string) : string :=
  match s with
  | EmptyString => if inName then "}" else EmptyString
  | String c r =>
      if inName then
        if (c =? "/")%char then "}" ++ String c (hrefFrom false r)
        else String c (hrefFrom true r)
      else if (c =? "$")%char then
        match r with
        | String d r' =>
            if (d =? "$")%char then
              match r' with
              | String e _ =>
                  if (e =? "/")%char then "${" ++ hrefFrom true r
                  else "${..." ++ hrefFrom true r'
              | EmptyString => "${" ++ hrefFrom true r
              end
            else if (d =? "/")%char then String c (hrefFrom false r)
            else "${" ++ hrefFrom true r
        | EmptyString => String c EmptyString
        end
      else String c (hrefFrom false r)
  end.

Definition hrefPath (path : string) : string := hrefFrom false path.

(** [s.indexOf(needle)] *)
Fixpoint findSub (needle s : string) : option nat :=
  if String.prefix needle s then Some O
  else
    match s with
    | EmptyString => None
    | String _ r => option_map S (findSub needle r)
    end.

Definition indexOfStr (s needle : string) : Z :=
  match findSub needle s with
  | Some j => Z.of_nat j
  | None => -1
  end.

(** [set.add(x)] on a [Set] of strings, kept in insertion order. *)
Definition setAdd (x : string) (set : list string) : list string :=
  if existsb (String.eqb x) set then set else set +++ [x].

(** [page || handler?.verbs?.includes("get")] and
    [handler?.verbs?.includes("post")] *)
Definition routeIsGet (route : Route) : bool :=
  isSome (route_page route) || handlerIncludes (route_handler route) "get".

Definition routeIsPost (route : Route) : bool :=
  handlerIncludes (route_handler route) "post".

(** The paths that a route adds: the prefix before a catch-all parameter,
    if there is one, then the path itself. *)
Definition routePaths (route : Route) : list string :=
  let path := hrefPath (route_path route) in
  let splatIndex := indexOfStr path "/${..." in
  (if 0 <=? splatIndex then
     let path2 := JS.slice path 0 splatIndex in
     [if JS.truthy path2 then path2 else "/"]
   else [])
  +++ [path].

(** Lines 711-728: one turn of the loop, on the sets [getPaths] and
    [postPaths]. *)
Definition addRoutePaths (sets : list string * list string) (route : Route)
    : list string * list string :=
  if isSome (route_page route) || isSome (route_handler route) then
    let isGet := routeIsGet route in
    let isPost := routeIsPost route in
    if isGet || isPost then
      fold_left
        (fun sets path =>
           ((if isGet then setAdd path (fst sets) else fst sets),
            (if isPost then setAdd path (snd sets) else snd sets)))
        (routePaths route) sets
    else sets
  else sets.

Definition collectPaths (routes : list Route) : list string * list string :=
  fold_left addRoutePaths routes ([], []).

(** The segments of a path, for the properties of the path conversions. *)
Inductive Segment :=
| Literal (text : string)
| Dynamic (name : string)
| CatchAll (name : string).

Definition sourceSegment (segment : Segment) : string :=
  match segment with
  | Literal text => text
  | Dynamic name => "$" ++ name
  | CatchAll name => "$$" ++ name
  end.

Definition hrefSegment (segment : Segment) : string :=
  match segment with
  | Literal text => text
  | Dynamic name => "${" ++ name ++ "}"
  | CatchAll name => "${..." ++ name ++ "}"
  end.

Definition noSlashChars (s : string) : bool :=
  allChars (fun c => negb (c =? "/")%char) s.

Definition plainChars (s : string) : bool :=
  allChars (fun c => negb (c =? "/")%char && negb (c =? "$")%char) s.

(** A literal segment has no [/] and no [$]; the name of a parameter is
    not empty and has no [/], and the name of a dynamic parameter does not
    start with [$]. *)
Definition segmentOk (segment : Segment) : bool :=
  match segment with
  | Literal text => plainChars text
  | Dynamic name =>
      noSlashChars name
      && match name with
         | EmptyString => false
         | String c _ => negb (c =? "$")%char
         end
  | CatchAll name => noSlashChars name && JS.truthy name
  end.

Fixpoint pathOfSegments (render : Segment -> string)
    (segments : list Segment) : string :=
  match segments with
  | [] => EmptyString
  | segment :: rest => "/" ++ render segment ++ pathOfSegments render rest
  end.

(** *** Readings used by the properties of these functions *)



Definition isConst (s : cstmt) : bool :=
  match s with
  | ConstPage _ | ConstCall _ _ _ => true
  | ReturnPage | ReturnCall _ _ => false
  end.

(** The names that the statements of a dispatch function declare, and the
    names they pass as [next]. *)
Definition declaredName (s : cstmt) : list string :=
  match s with
  | ConstPage w | ConstCall w _ _ => [w]
  | ReturnPage | ReturnCall _ _ => []
  end.

Definition nextName (s : cstmt) : list string :=
  match s with
  | ConstCall _ _ n | ReturnCall _ n => [n]
  | ConstPage _ | ReturnPage => []
  end.

(** Induction on a trie, with the hypothesis for the static children and
    for the dynamic child. *)
Fixpoint RouteTrie_induction (P : RouteTrie -> Prop)
    (step : forall key route static dynamic catchAll,
       match static with Some cs => Forall P cs | None => True end ->
       match dynamic with Some d => P d | None => True end ->
       P (Trie key route static dynamic catchAll))
    (t : RouteTrie) {struct t} : P t :=
  let 'Trie key route static dynamic catchAll := t in
  step key route static dynamic catchAll
    (match static
       return match static with Some cs => Forall P cs | None => True end
     with
     | Some cs =>
         (fix all (l : list RouteTrie) : Forall P l :=
            match l with
            | [] => Forall_nil P
            | c :: l' =>
                Forall_cons c (RouteTrie_induction P step c) (all l')
            end) cs
     | None => I
     end)
    (match dynamic
       return match dynamic with Some d => P d | None => True end
     with
     | Some d => RouteTrie_induction P step d
     | None => I
     end).

Definition optList {A} (o : option A) : list A :=
  match o with
  | Some a => [a]
  | None => []
  end.

(** The routes that a trie holds at its nodes, and the routes of its
    catch-all edges. *)
Fixpoint plainRoutes (t : RouteTrie) : list Route :=
  let 'Trie _ route static dynamic _ := t in
  optList route
  +++ (match static with
       | Some cs => flat_map plainRoutes cs
       | None => []
       end)
  +++ (match dynamic with
       | Some d => plainRoutes d
       | None => []
       end).

Fixpoint catchAllRoutes (t : RouteTrie) : list Route :=
  let 'Trie _ _ static dynamic catchAll := t in
  optList catchAll
  +++ (match static with
       | Some cs => flat_map catchAllRoutes cs
       | None => []
       end)
  +++ (match dynamic with
       | Some d => catchAllRoutes d
       | None => []
       end).

(** A property of completions holds of the returns that the code of a
    trie can end in. *)
Definition GoodRoutes (Good : Completion -> Prop) (verb : HttpVerb)
    (t : RouteTrie) : Prop :=
  (forall r, In r (plainRoutes t) ->
     Good (Returned (Some (plainMatch verb r))))
  /\ (forall r i, In r (catchAllRoutes t) ->
        Good (Returned (Some {| match_verb := verb; match_route := r;
                                match_pathIndex := Some i |}))).

(** A case of [match]: the matcher of the trie built from the routes
    that have the verb. *)
Definition caseOf (hasVerb : Route -> HttpVerb -> bool)
    (createRouteTrie : list Route -> result RouteTrie)
    (routes : list Route) (c : HttpVerb * list stmt) : Prop :=
  exists trie,
    createRouteTrie (filter (fun route => hasVerb route (fst c)) routes)
    = Ok trie
    /\ snd c = writeRouterVerb trie (fst c) 0 (OffNum 1).

(** A trie builder for the closed instances: the trie of a literal, a
    dynamic and a catch-all route under [/item]. *)
Definition sampleCreateRouteTrie (routes : list Route) : result RouteTrie :=
  match routes with
  | [literal; dynamic; catchAll] =>
      Ok (Trie EmptyString None
            (Some [Trie "item" None
                     (Some [Trie "edit" (Some literal) None None None])
                     (Some (Trie EmptyString (Some dynamic) None None None))
                     (Some catchAll)])
            None None)
  | _ => Err "unsupported"
  end.

(** The statements that build the page response. *)
Definition isPageStmt (s : cstmt) : bool :=
  match s with
  | ConstPage _ | ReturnPage => true
  | ConstCall _ _ _ | ReturnCall _ _ => false
  end.

(** The layer that a statement passes to [call]. *)
Definition calledName (s : cstmt) : list string :=
  match s with
  | ConstCall _ m _ | ReturnCall m _ => [m]
  | ConstPage _ | ReturnPage => []
  end.

(** The line that imports [names] from the runtime module. *)
Definition runtimeImport (virtualRuntimePrefix : string)
    (names : list string) : string :=
  "import { " ++ JS.join ", " names ++ " } from '" ++ virtualRuntimePrefix
  ++ "';".

(** The tags of a template: the layouts from the outermost one, numbered
    from [index], around the page. *)
Fixpoint nestTags (layouts : list RoutableFile) (index : Z) : list string :=
  match layouts with
  | [] => ["<page ...input />"]
  | _ :: rest =>
      ("<layout" ++ JS.showNum index ++ " ...input>")
      :: indentLines (nestTags rest (index + 1)) +++ ["</>"]
  end.

Fixpoint layoutImports (layouts : list RoutableFile) (index : Z)
    : list string :=
  match layouts with
  | [] => []
  | file :: rest =>
      ("import layout" ++ JS.showNum index ++ " from './"
       ++ file_importPath file ++ "';")
      :: layoutImports rest (index + 1)
  end.

(** * Properties *)

(** ** Strings *)

Lemma length_app (a b : string) :
  String.length (a ++ b) = (String.length a + String.length b)%nat.
Proof. induction a as [|c a IH]; simpl; [reflexivity | now rewrite IH]. Qed.

Lemma app_assoc_str (a b c : string) : (a ++ b) ++ c = a ++ (b ++ c).
Proof. induction a as [|x a IH]; simpl; [reflexivity | now rewrite IH]. Qed.

Lemma app_empty_r (a : string) : a ++ EmptyString = a.
Proof. induction a as [|x a IH]; simpl; [reflexivity | now rewrite IH]. Qed.

Lemma take_app (a b : string) : JS.take (String.length a) (a ++ b) = a.
Proof. induction a as [|x a IH]; simpl; [now destruct b | now rewrite IH]. Qed.

Lemma drop_app (a b : string) : JS.drop (String.length a) (a ++ b) = b.
Proof. induction a as [|x a IH]; simpl; [now destruct b | exact IH]. Qed.

Lemma take_all (a : string) : JS.take (String.length a) a = a.
Proof. induction a as [|x a IH]; simpl; [reflexivity | now rewrite IH]. Qed.

(** [toLowerCase] beyond ASCII.  [École], with the code unit 201 for its
    first letter, becomes [école], with the code unit 233; the
    multiplication sign (215), the sharp s (223) and the letters that are
    lower case already are left as they are. *)
Example toLowerCase_latin1 :
  JS.toLowerCase (String (ascii_of_nat 201) "COLE")
  = String (ascii_of_nat 233) "cole"
  /\ JS.toLowerCase (String (ascii_of_nat 215) (String (ascii_of_nat 223) "z"))
     = String (ascii_of_nat 215) (String (ascii_of_nat 223) "z")
  /\ JS.toLowerCase (String (ascii_of_nat 222) (String (ascii_of_nat 254) "Z"))
     = String (ascii_of_nat 254) (String (ascii_of_nat 254) "z").
Proof. repeat split. Qed.

Lemma allChars_app (p : ascii -> bool) (a b : string) :
  allChars p (a ++ b) = allChars p a && allChars p b.
Proof.
  induction a as [|x a IH]; simpl; [reflexivity |].
  now rewrite IH, andb_assoc.
Qed.

Lemma endsWithSlash_split (p : string) :
  JS.endsWithSlash p = true -> exists q, p = q ++ "/".
Proof.
  induction p as [|c p IH]; simpl; [discriminate |].
  destruct p as [|d p'].
  - intros H. apply Ascii.eqb_eq in H. subst c. now exists EmptyString.
  - intros H. destruct (IH H) as [q Hq]. exists (String c q).
    simpl. now rewrite Hq.
Qed.

Lemma clampIndex_inside (l k : Z) : 0 <= k <= l -> JS.clampIndex l k = k.
Proof.
  intros H. unfold JS.clampIndex.
  destruct (k <? 0) eqn:E; [apply Z.ltb_lt in E; lia | lia].
Qed.

Lemma clampIndex_last (l : Z) : 0 < l -> JS.clampIndex l (-1) = l - 1.
Proof. intros H. unfold JS.clampIndex. simpl. lia. Qed.

(** [s.slice(a, b)] between two positions of [s]. *)
Lemma slice_inside (s : string) (a b : Z) :
  0 <= a <= b -> b <= JS.len s ->
  JS.slice s a b = JS.take (Z.to_nat (b - a)) (JS.drop (Z.to_nat a) s).
Proof.
  intros Ha Hb. unfold JS.slice.
  rewrite !clampIndex_inside by lia. reflexivity.
Qed.

Lemma slice_to_last (s : string) (a : Z) :
  0 <= a < JS.len s ->
  JS.slice s a (-1)
  = JS.take (Z.to_nat (JS.len s - 1 - a)) (JS.drop (Z.to_nat a) s).
Proof.
  intros Ha. unfold JS.slice.
  rewrite (clampIndex_inside _ a), clampIndex_last by lia. reflexivity.
Qed.

Lemma len_app (a b : string) : JS.len (a ++ b) = JS.len a + JS.len b.
Proof. unfold JS.len. rewrite length_app. lia. Qed.

Lemma len_nonneg (a : string) : 0 <= JS.len a.
Proof. unfold JS.len. lia. Qed.

Lemma slice_drop_last (q : string) : JS.slice (q ++ "/") 0 (-1) = q.
Proof.
  rewrite slice_to_last.
  - rewrite len_app. change (JS.len "/") with 1.
    replace (Z.to_nat _) with (String.length q) by (unfold JS.len; lia).
    simpl. apply take_app.
  - rewrite len_app. change (JS.len "/") with 1.
    pose proof (len_nonneg q). lia.
Qed.

(** ** C9: the default option of [renderRouter] *)

(** C9. Called without options, [renderRouter] compiles exactly what it
    compiles under the policy [RedirectWithout]: the module it returns
    carries the [RedirectWithout] fragment, and its [fetch] answers a
    pathname other than [/] that ends in a slash with a redirect. *)
Theorem renderRouter_default_options :
  forall vfp mrp seq httpVerbs getVerbs hasVerb createRouteTrie routes,
    renderRouter vfp mrp seq httpVerbs getVerbs hasVerb createRouteTrie
      routes None
    = renderRouter vfp mrp seq httpVerbs getVerbs hasVerb createRouteTrie
        routes (Some {| trailingSlashes := RedirectWithout |})
    /\ forall m,
        renderRouter vfp mrp seq httpVerbs getVerbs hasVerb createRouteTrie
          routes None = Ok m ->
        router_trailingSlashes m = RedirectWithout
        /\ forall matchRoute dev request platform,
             url_pathname (req_url request) <> "/" ->
             JS.endsWithSlash (url_pathname (req_url request)) = true ->
             fetchOf m matchRoute dev request platform
             = Fulfilled
                 (Some (RedirectResponse
                          (withPathname (req_url request)
                             (JS.slice (url_pathname (req_url request))
                                0 (-1))))).
Proof.
  intros. split; [reflexivity |].
  unfold renderRouter. intros m H.
  destruct (routeImports _ _ _ _) as [imports|]; simpl in H; [|discriminate].
  destruct (verbCases _ _ _ _) as [cases|]; simpl in H; [|discriminate].
  inversion H. subst m. clear H. split; [reflexivity |].
  intros matchRoute dev request platform Hroot Hend.
  unfold fetchOf, fetch, applyTrailingSlashes.
  cbn [router_trailingSlashes trailingSlashes].
  apply String.eqb_neq in Hroot. unfold isRoot. now rewrite Hroot, Hend.
Qed.

Lemma renderRouter_default_options_witness :
  let routes :=
    {| routes_list := [];
       routes_special := {| special_404 := None; special_500 := None |} |} in
  let request := sampleRequest "/foo/" None in
  exists m,
    renderRouter "virtual:marko-run" "__marko-run__" "?marko-server-entry"
      ["get"; "post"] (fun _ => Some []) (fun _ _ => false)
      (fun _ => Err "no routes") routes None = Ok m
    /\ url_pathname (req_url request) <> "/"
    /\ JS.endsWithSlash (url_pathname (req_url request)) = true
    /\ fetchOf m (fun _ _ => None) false request "edge"
       = Fulfilled (Some (RedirectResponse (sampleUrl "/foo"))).
Proof.
  intros routes request.
  eexists. split; [reflexivity |].
  assert (Hroot : url_pathname (req_url request) <> "/") by discriminate.
  split; [exact Hroot |]. split; [reflexivity |].
  destruct (renderRouter_default_options "virtual:marko-run" "__marko-run__"
              "?marko-server-entry" ["get"; "post"] (fun _ => Some [])
              (fun _ _ => false) (fun _ => Err "no routes") routes)
    as [_ Hdefault].
  destruct (Hdefault _ eq_refl) as [_ Hfetch].
  exact (Hfetch (fun _ _ => None) false request "edge" Hroot eq_refl).
Defined.

(** ** C5: the trailing-slash fragment of [fetch] *)



(** ** C4: the outcomes of [invoke] *)

(** C4 as stated fails: without a 404 page no [else] branch is written,
    and for a request that matched no route the context keeps no params
    and no meta. *)
Lemma invoke_no_route_no_context :
  ~ (forall notFoundPage errorPage request platform url,
       let context :=
         fst (invokeWithContext notFoundPage errorPage None request
                platform url) in
       ctx_params context = Some [] /\ ctx_meta context = Some MetaEmpty).
Proof.
  intros H.
  destruct (H false false (sampleRequest "/none" None) "edge"
              (sampleUrl "/none")) as [Hparams _].
  discriminate Hparams.
Qed.

(** C4 (amended). For a matched route, with the context holding the
    route's params and meta: a handler that throws [NotHandled] makes
    [invoke] return no response; a handler that throws [NotMatched] or
    returns a falsy value leads to the not-found fallback; any other thrown
    value leaves the inner [try] and reaches the [catch] block of [invoke].
    When no route matched and a 404 page is bound, the context gets empty
    params and meta and the not-found fallback runs; when no 404 page is
    bound, the context is left as it was and [invoke] returns no
    response. *)
Theorem invoke_outcomes :
  forall notFoundPage errorPage (r : MatchedRoute) request platform url,
    let context0 := initialContext request platform url in
    let context := setRoute context0 (matched_params r) (matched_meta r) in
    let run := invokeWithContext notFoundPage errorPage in
    (matched_handler r context = Throws NotHandled ->
       run (Some r) request platform url = (context, Returns None))
    /\ (matched_handler r context = Throws NotMatched
        \/ matched_handler r context = Returns None ->
        run (Some r) request platform url
        = (context, notFoundFallback notFoundPage context))
    /\ (forall message stack,
          matched_handler r context = Throws (ErrorValue message stack) ->
          invokeTry notFoundPage (Some r) context0
          = (context, Throws (ErrorValue message stack))
          /\ run (Some r) request platform url
             = (context,
                invokeCatch errorPage context (ErrorValue message stack)))
    /\ invokeWithContext true errorPage None request platform url
       = (setRoute context0 [] MetaEmpty,
          notFoundFallback true (setRoute context0 [] MetaEmpty))
    /\ invokeWithContext false errorPage None request platform url
       = (context0, Returns None).
Proof.
  intros notFoundPage errorPage r request platform url context0 context run.
  unfold run, invokeWithContext, invokeTry.
  fold (initialContext request platform url). fold context0. fold context.
  repeat split.
  - intros H. now rewrite H.
  - intros [H | H]; rewrite H; unfold notFoundFallback;
      destruct (notFoundPage && acceptsHtml context); reflexivity.
  - now rewrite H.
  - now rewrite H.
  - unfold notFoundFallback.
    destruct (true && acceptsHtml _); reflexivity.
Qed.

Lemma invoke_outcomes_witness :
  let r := sampleMatched (fun _ => Throws NotHandled) in
  let request := sampleRequest "/item/7" (Some "text/html") in
  let context :=
    setRoute (initialContext request "edge" (sampleUrl "/item/7"))
      (matched_params r) (matched_meta r) in
  matched_handler r context = Throws NotHandled
  /\ invokeWithContext true true (Some r) request "edge" (sampleUrl "/item/7")
     = (context, Returns None).
Proof.
  intros r request context.
  split; [reflexivity |].
  apply (proj1 (invoke_outcomes true true r request "edge"
                  (sampleUrl "/item/7"))).
  reflexivity.
Defined.

(** ** C6: fatal errors *)

(** An error thrown by the handler, other than the two signals, is
    answered by [invoke] with the 500 page, status 500 and the error in
    the page input, when a 500 page is bound and the request accepts
    [text/html]; otherwise [invoke] throws it again. *)
Lemma invoke_fatal_error :
  forall notFoundPage errorPage (r : MatchedRoute) request platform url
         message stack,
    let error := ErrorValue message stack in
    let context :=
      setRoute (initialContext request platform url)
        (matched_params r) (matched_meta r) in
    matched_handler r context = Throws error ->
    (errorPage = true -> acceptsHtml context = true ->
       invoke notFoundPage errorPage (Some r) request platform url
       = Returns (Some (PageResponse "page500" 500
                          {| input_context := context;
                             input_error := Some error |})))
    /\ (errorPage = false \/ acceptsHtml context = false ->
        invoke notFoundPage errorPage (Some r) request platform url
        = Throws error).
Proof.
  intros notFoundPage errorPage r request platform url message stack
         error context Hthrow.
  assert (Hrun :
    invoke notFoundPage errorPage (Some r) request platform url
    = invokeCatch errorPage context error).
  { unfold invoke, invokeWithContext, invokeTry.
    fold (initialContext request platform url). fold context.
    rewrite Hthrow. reflexivity. }
  split.
  - intros Hpage Hhtml. rewrite Hrun. unfold invokeCatch.
    now rewrite Hpage, Hhtml.
  - intros Hno. rewrite Hrun. unfold invokeCatch.
    destruct Hno as [Hno | Hno]; rewrite Hno; [reflexivity |].
    now rewrite andb_false_r.
Qed.

(** The [catch] block of [fetch], for an error that leaves [invoke]: a
    JSON response of status 500 with the generic message if not in
    development mode; in development mode the same with the error's
    message and stack when the message is a reason phrase, and no response
    at all when it is not. *)
Lemma fetch_catch_block :
  forall matchRoute invokeRoute dev policy request platform url' pathname'
         message stack,
    applyTrailingSlashes policy (req_url request) = inr (url', pathname') ->
    invokeRoute (matchRoute (req_method request) pathname') request
      platform url' = Throws (ErrorValue message stack) ->
    fetch matchRoute invokeRoute dev policy request platform
    = if dev then
        if isReasonPhrase message then
          Fulfilled
            (Some (JsonResponse 500
                     ("Internal Server Error (" ++ message ++ ")")
                     ("Internal Server Error (" ++ message ++ ")")
                     ("This will only be seen in development mode"
                      ++ newline ++ newline ++ stack)))
        else Rejected
      else
        Fulfilled
          (Some (JsonResponse 500 "Internal Server Error"
                   "Internal Server Error" EmptyString)).
Proof.
  intros matchRoute invokeRoute dev policy request platform url' pathname'
         message stack Hslash Hinvoke.
  unfold fetch. rewrite Hslash, Hinvoke. unfold errorResponse.
  destruct dev; [| reflexivity].
  cbn [errorMessage errorStack].
  replace (isReasonPhrase ("Internal Server Error (" ++ message ++ ")"))
    with (isReasonPhrase message).
  - now destruct (isReasonPhrase message).
  - unfold isReasonPhrase.
    change ("Internal Server Error (" ++ message ++ ")")
      with ("Internal Server Error (" ++ (message ++ ")")).
    rewrite !allChars_app. cbn. now rewrite andb_true_r.
Qed.

(** C6. The error [new Error("Unexpected token\nin JSON")], thrown by the
    handler of the matched route, where no 500 page is bound.  [invoke]
    throws it again.  Not in development mode [fetch] answers with the
    JSON response of status 500 and the generic message.  In development
    mode the message of the response holds the line break of the error's
    message, the constructor of the response throws on the status text,
    and [fetch] is rejected: there is no response.  When the 500 page is
    bound and the request accepts [text/html], [invoke] answers with the
    page, status 500, the error in its input. *)
Theorem fetch_rejects_message_with_line_break :
  let error :=
    ErrorValue ("Unexpected token" ++ newline ++ "in JSON")
      "SyntaxError: Unexpected token" in
  let r := sampleMatched (fun _ => Throws error) in
  let url := {| url_origin := "http://localhost"; url_pathname := "/item/7" |} in
  let request accept :=
    {| req_method := "GET"; req_url := url; req_accept := accept |} in
  let json := request (Some "application/json") in
  let html := request (Some "text/html") in
  invoke false false (Some r) json "edge" url = Throws error
  /\ fetch (fun _ _ => Some r) (invoke false false) true RedirectWithout
       json "edge"
     = Rejected
  /\ fetch (fun _ _ => Some r) (invoke false false) false RedirectWithout
       json "edge"
     = Fulfilled
         (Some (JsonResponse 500 "Internal Server Error"
                  "Internal Server Error" EmptyString))
  /\ fetch (fun _ _ => Some r) (invoke false true) true RedirectWithout
       html "edge"
     = Fulfilled
         (Some (PageResponse "page500" 500
                  {| input_context :=
                       {| ctx_url := url; ctx_request := html;
                          ctx_platform := "edge";
                          ctx_params := Some [("id", "7")];
                          ctx_meta := Some MetaEmpty |};
                     input_error := Some error |})).
Proof. repeat split. Qed.

(** The same request in development mode, for an error whose message is
    one line. *)
Example fetch_answers_one_line_message :
  let error := ErrorValue "boom" "Error: boom" in
  let r := sampleMatched (fun _ => Throws error) in
  fetch (fun _ _ => Some r) (invoke false false) true RedirectWithout
    (sampleRequest "/item/7" (Some "application/json")) "edge"
  = Fulfilled
      (Some (JsonResponse 500 "Internal Server Error (boom)"
               "Internal Server Error (boom)"
               ("This will only be seen in development mode"
                ++ newline ++ newline ++ "Error: boom"))).
Proof. reflexivity. Qed.

(** ** C7: construction errors *)

Lemma writeHandlers_error (route : Route) (verbs : list HttpVerb) :
  route_handler route = None -> route_page route = None ->
  verbs <> [] ->
  exists verb,
    In verb verbs
    /\ writeHandlers route verbs
       = Err ("Route " ++ route_key route ++ " has no handler for " ++ verb
              ++ " requests").
Proof.
  intros Hh Hp Hne. destruct verbs as [|verb rest]; [congruence |].
  exists verb. split; [now left |].
  simpl. unfold writeRouteEntryHandler, chainHead. rewrite Hh, Hp.
  reflexivity.
Qed.

(** The errors of the three functions: rendering the template of a route
    without a page, rendering the entry of a route for which [getVerbs]
    answers nothing (a falsy value), and compiling a dispatch function for
    a verb that has neither the page fallback nor a handler, each end in
    an error whose message holds the route key (and the verb, for the
    third), and return no module.  A route with neither handler nor page
    gets an error from the entry renderer for every answer of [getVerbs]
    but the empty array. *)
Lemma construction_errors_raised :
  forall vfp mrp seq vrp (getVerbs : Route -> option (list HttpVerb))
         (route : Route),
    (route_page route = None ->
       renderRouteTemplate vfp mrp route
       = Err ("Route " ++ route_key route ++ " has no page to render"))
    /\ (getVerbs route = None ->
        renderRouteEntry vfp mrp seq vrp getVerbs route
        = Err ("Route " ++ route_key route
               ++ " doesn't have a handler or page for any HTTP verbs"))
    /\ (forall verb,
          pageApplies route verb = false -> route_handler route = None ->
          writeRouteEntryHandler route verb
          = Err ("Route " ++ route_key route ++ " has no handler for "
                 ++ verb ++ " requests"))
    /\ (route_handler route = None -> route_page route = None ->
        getVerbs route <> Some [] ->
        exists reason,
          renderRouteEntry vfp mrp seq vrp getVerbs route
          = Err ("Route " ++ route_key route ++ reason)).
Proof.
  intros vfp mrp seq vrp getVerbs route. repeat split.
  - intros Hp. unfold renderRouteTemplate. now rewrite Hp.
  - intros Hv. unfold renderRouteEntry. now rewrite Hv.
  - intros verb Hpage Hh.
    unfold writeRouteEntryHandler, chainHead. rewrite Hh.
    unfold pageApplies in Hpage.
    destruct (route_page route); simpl in Hpage.
    + rewrite Hpage. reflexivity.
    + reflexivity.
  - intros Hh Hp Hv. unfold renderRouteEntry.
    destruct (getVerbs route) as [verbs|] eqn:E.
    + assert (Hne : verbs <> []) by (intros ->; now apply Hv).
      destruct (writeHandlers_error route verbs Hh Hp Hne) as [verb [_ Herr]].
      rewrite Herr. simpl.
      exists (" has no handler for " ++ verb ++ " requests"). reflexivity.
    + exists " doesn't have a handler or page for any HTTP verbs".
      reflexivity.
Qed.

(** C7. The route [about] has neither a handler nor a page, and
    [getVerbs] answers the empty array for it.  Its template is refused,
    with the error that names the route key, and so is a dispatch function
    for the verb [get].  Its entry is not refused: the guard of
    [renderRouteEntry] tests the answer of [getVerbs] for being falsy,
    which an empty array is not, so the module is rendered, with its
    header, one import line and no dispatch function. *)
Theorem entry_without_verbs_is_rendered :
  let route :=
    {| route_key := "about"; route_path := "/about"; route_index := 4;
       route_params := None; route_handler := None; route_page := None;
       route_layouts := []; route_middleware := []; route_meta := None |} in
  let getVerbs := fun _ : Route => Some (@nil HttpVerb) in
  renderRouteTemplate "virtual:marko-run" "__marko-run__" route
  = Err "Route about has no page to render"
  /\ writeRouteEntryHandler route "get"
     = Err "Route about has no handler for get requests"
  /\ exists m,
       renderRouteEntry "virtual:marko-run" "__marko-run__"
         "?marko-server-entry" "virtual:marko-run/internal" getVerbs route
       = Ok m
       /\ entry_functions m = []
       /\ show_RouteEntryModule m
          = [ "// virtual:marko-run/__marko-run__route__about.js";
              "import { noContent } from 'virtual:marko-run/internal';" ].
Proof.
  intros route getVerbs.
  split; [reflexivity |]. split; [reflexivity |].
  eexists. split; [reflexivity |]. split; reflexivity.
Qed.

(** When [getVerbs] answers an empty array, which is truthy, the guard
    of [renderRouteEntry] does not fire: the module is rendered, without
    any dispatch function. *)
Remark entry_of_no_verbs :
  forall vfp mrp seq vrp (getVerbs : Route -> option (list HttpVerb)) route,
    getVerbs route = Some [] ->
    exists m,
      renderRouteEntry vfp mrp seq vrp getVerbs route = Ok m
      /\ entry_functions m = [].
Proof.
  intros vfp mrp seq vrp getVerbs route Hv.
  unfold renderRouteEntry. rewrite Hv. cbn [writeHandlers bind].
  eexists. split; reflexivity.
Qed.

(** ** C10: property names *)

Lemma regexTestFrom_rest (s : string) :
  regexTestFrom false s = negb (allChars classPart s).
Proof.
  induction s as [|c r IH]; simpl; [reflexivity |].
  rewrite IH. now destruct (classPart c).
Qed.

Lemma regexTest_valid (name : string) :
  regexTest name = negb (validIdentifier name).
Proof.
  unfold regexTest, validIdentifier.
  change (fun c : ascii =>
            isLetter c || isDigit c || (c =? "$")%char || (c =? "_")%char)
    with classPart.
  destruct name as [|c r]; [reflexivity |].
  cbn [regexTestFrom firstCharOk allChars].
  rewrite regexTestFrom_rest.
  change (isLetter c || (c =? "_")%char || (c =? "$")%char) with (classStart c).
  destruct (classStart c), (classPart c), (allChars classPart r); reflexivity.
Qed.

Lemma wrapPropertyName_key (name : string) :
  wrapPropertyName name = propertyKey name.
Proof.
  unfold wrapPropertyName, propertyKey. rewrite regexTest_valid.
  now destruct (validIdentifier name).
Qed.

Lemma renderParams_fold (pathIndex : option string) (params : list ParamInfo) :
  forall acc, acc_sep acc = "{" ->
    let acc' := fold_left (renderParamsStep pathIndex) params acc in
    acc_sep acc' = "{"
    /\ acc_result acc'
       = acc_result acc ++ concatAll (map positionalEntry params)
    /\ acc_catchAll acc' = lastCatchAll pathIndex params (acc_catchAll acc).
Proof.
  induction params as [|p rest IH]; intros acc Hsep.
  - simpl. now rewrite app_empty_r.
  - cbn [fold_left map concatAll]. unfold lastCatchAll. cbn [fold_left].
    fold (lastCatchAll pathIndex rest).
    assert (Hstep : acc_sep (renderParamsStep pathIndex acc p) = "{").
    { unfold renderParamsStep.
      destruct (0 <=? param_index p); [simpl; now rewrite Hsep |].
      destruct pathIndex as [ix|]; [destruct (JS.truthy ix) |]; exact Hsep. }
    assert (Hcatch :
      acc_catchAll (renderParamsStep pathIndex acc p)
      = if negb (0 <=? param_index p) && pathIndexGiven pathIndex
        then param_name p else acc_catchAll acc).
    { unfold renderParamsStep, pathIndexGiven.
      destruct (0 <=? param_index p); [reflexivity |].
      destruct pathIndex as [ix|]; [destruct (JS.truthy ix) |]; reflexivity. }
    assert (Hresult :
      acc_result (renderParamsStep pathIndex acc p)
      = acc_result acc ++ positionalEntry p).
    { unfold renderParamsStep, positionalEntry.
      destruct (0 <=? param_index p).
      - simpl. now rewrite Hsep, wrapPropertyName_key.
      - rewrite app_empty_r.
        destruct pathIndex as [ix|]; [destruct (JS.truthy ix) |]; reflexivity. }
    destruct (IH _ Hstep) as [H1 [H2 H3]]. cbv zeta in H1, H2, H3.
    split; [exact H1 |]. rewrite H2, H3, Hcatch, Hresult.
    split; [apply app_assoc_str | reflexivity].
Qed.

Lemma renderParamsType_fold (params : list ParamInfo) :
  forall seed,
    fold_left
      (fun result p =>
         result ++ " " ++ wrapPropertyName (param_name p) ++ ": string;")
      params seed
    = seed
      ++ concatAll
           (map (fun p => " " ++ propertyKey (param_name p) ++ ": string;")
                params).
Proof.
  induction params as [|p rest IH]; intros seed; simpl.
  - now rewrite app_empty_r.
  - rewrite IH, wrapPropertyName_key. rewrite app_assoc_str. reflexivity.
Qed.

(** C10. [wrapPropertyName] quotes exactly the names that are not valid
    identifiers; every key of a generated params object and of a generated
    params type is the parameter's name passed through it: quoted if the
    name is not a valid identifier, as it is otherwise. *)
Theorem property_names_quoted :
  (forall name,
     wrapPropertyName name
     = if validIdentifier name then name else "'" ++ name ++ "'")
  /\ (forall p rest pathIndex,
        renderParamsInfo (p :: rest) pathIndex
        = paramsObject (p :: rest) pathIndex)
  /\ (forall p rest,
        renderParamsInfoType (p :: rest) = paramsType (p :: rest)).
Proof.
  split; [exact wrapPropertyName_key |]. split.
  - intros p rest pathIndex. unfold renderParamsInfo, paramsObject.
    destruct (renderParams_fold pathIndex (p :: rest)
                {| acc_result := EmptyString; acc_catchAll := EmptyString;
                   acc_sep := "{" |} eq_refl) as [H1 [H2 H3]].
    cbv zeta in H1, H2, H3. rewrite H1, H2, H3. simpl acc_result.
    simpl acc_catchAll. cbn [append].
    rewrite wrapPropertyName_key.
    destruct (JS.truthy (lastCatchAll pathIndex (p :: rest) EmptyString));
      [| reflexivity].
    now rewrite !app_assoc_str.
  - intros p rest. unfold renderParamsInfoType, paramsType.
    rewrite renderParamsType_fold. now rewrite !app_assoc_str.
Qed.

(** In [renderParamsInfo] the separator starts as an opening brace and
    [sep ||= ","] never replaces it, as a non-empty string is truthy: the
    second entry is written after a brace, not after a comma. *)
Example renderParamsInfo_two_entries :
  renderParamsInfo
    [ {| param_name := "id"; param_index := 0 |};
      {| param_name := "my-slug"; param_index := 1 |} ] None
  = "{ id: s1{ 'my-slug': s2 }".
Proof. reflexivity. Qed.

(** [renderMatch] hands the parameters of the route to [renderParamsInfo]
    as they are: a positional parameter reads the segment variable of its
    position, a catch-all parameter the pathname from the path index. *)
Example renderMatch_parameters :
  renderMatch "get" editRoute None
  = "{ handler: get1, params: {}, meta: {} }"
  /\ renderMatch "get" itemIdRoute None
     = "{ handler: get2, params: { id: s2 }, meta: {} }"
  /\ renderMatch "get" itemRestRoute (Some "6")
     = "{ handler: get3, params: { rest: pathname.slice(6) }, meta: {} }".
Proof. repeat split. Qed.

(** ** The chain of a dispatch function *)

(** The text of the [post] function of a page route with a handler and
    three middleware. *)
Example post_function_text :
  option_map (fun f => flat_map show_cstmt (fn_body f))
    (match writeRouteEntryHandler sampleChainRoute "post" with
     | Ok f => Some f
     | Err _ => None
     end)
  = Some
      [ "const __postHandler = () => call(postHandler, noContent, context);";
        "const __mware5 = () => call(mware5, __postHandler, context);";
        "const __mware2 = () => call(mware2, __mware5, context);";
        "return call(mware1, __mware2, context);" ].
Proof. reflexivity. Qed.

Lemma chainOf_app (consts rest : list cstmt) :
  forall env env',
    chainEnv env consts = Some env' ->
    chainOf env (consts ++ rest) = chainOf env' rest.
Proof.
  induction consts as [|s consts IH]; intros env env' H; simpl in *.
  - now inversion H.
  - destruct s; try discriminate.
    + now apply IH.
    + destruct (lookupChain env next) as [[ls t]|]; [now apply IH | discriminate].
Qed.

Lemma chainEnv_app (consts more : list cstmt) :
  forall env env',
    chainEnv env consts = Some env' ->
    chainEnv env (consts ++ more) = chainEnv env' more.
Proof.
  induction consts as [|s consts IH]; intros env env' H; simpl in *.
  - now inversion H.
  - destruct s; try discriminate.
    + now apply IH.
    + destruct (lookupChain env next) as [[ls t]|]; [now apply IH | discriminate].
Qed.

Lemma lookupChain_head (env : list (string * Chain)) (w : string) (c : Chain) :
  lookupChain ((w, c) :: env) w = Some c.
Proof. unfold lookupChain. simpl. now rewrite String.eqb_refl. Qed.

Lemma firstn_snoc {A} (l : list A) :
  forall k x, nth_error l k = Some x -> firstn (S k) l = (firstn k l ++ [x])%list.
Proof.
  induction l as [|a l IH]; intros [|k] x H; simpl in *; try discriminate.
  - now inversion H.
  - f_equal. now apply IH.
Qed.

Lemma chainLoop_step (middleware : list RoutableFile) (i : nat)
    (vars : ChainVars) :
  chainLoop middleware (S i) vars
  = match nth_error middleware i with
    | Some m =>
        chainLoop middleware i
          {| continuations :=
               continuations vars
               ++ [writeMiddleware ("mware" ++ file_id m) (currentName vars)
                     (Some (if (0 <? i)%nat
                            then "__" ++ "mware" ++ file_id m
                            else EmptyString))];
             writer := writer vars;
             currentName :=
               if (0 <? i)%nat then "__" ++ "mware" ++ file_id m
               else EmptyString;
             hasBody := hasBody vars |}
    | None => vars
    end.
Proof. reflexivity. Qed.

(** The loop of [writeRouteEntryHandler] wraps the step it starts from in
    the middleware, the last one first, and returns the call of the first
    one. *)
Lemma chainLoop_chain (m0 : RoutableFile) (ms : list RoutableFile) :
  forall k vars env chain t,
    (k <= List.length ms)%nat ->
    writer vars = [] ->
    chainEnv [] (continuations vars) = Some env ->
    lookupChain env (currentName vars) = Some (chain, t) ->
    let vars' := chainLoop (m0 :: ms) (S k) vars in
    chainOf [] (continuations vars' ++ writer vars')
    = Some ((mwareName m0 :: map mwareName (firstn k ms)) ++ chain, t)%list.
Proof.
  induction k as [|k IH]; intros vars env chain t Hk Hw Henv Hcur.
  - simpl. rewrite Hw, app_nil_r.
    rewrite (chainOf_app _ _ [] env Henv). simpl.
    fold (mwareName m0). now rewrite Hcur.
  - cbn zeta. rewrite chainLoop_step.
    destruct (nth_error (m0 :: ms) (S k)) as [m|] eqn:Hm.
    2:{ apply nth_error_None in Hm. simpl in Hm. lia. }
    simpl in Hm.
    change (0 <? S k)%nat with true. cbn iota.
    change (writeMiddleware ("mware" ++ file_id m) (currentName vars)
              (Some ("__" ++ "mware" ++ file_id m)))
      with (ConstCall ("__" ++ mwareName m) (mwareName m) (currentName vars)).
    set (vars1 := {| continuations := _; writer := _; currentName := _;
                     hasBody := _ |}).
    assert (Henv1 :
      chainEnv [] (continuations vars1)
      = Some (("__" ++ mwareName m, (mwareName m :: chain, t)) :: env)).
    { unfold vars1. cbn [continuations].
      rewrite (chainEnv_app _ _ [] env Henv). simpl. now rewrite Hcur. }
    pose proof (IH vars1 _ (mwareName m :: chain) t
                  ltac:(lia) Hw Henv1 (lookupChain_head _ _ _)) as H.
    cbn zeta in H. rewrite H.
    rewrite (firstn_snoc ms k m Hm), map_app. simpl.
    now rewrite <- app_assoc.
Qed.

Lemma chainLoop_all (m0 : RoutableFile) (ms : list RoutableFile) :
  forall vars env chain t,
    writer vars = [] ->
    chainEnv [] (continuations vars) = Some env ->
    lookupChain env (currentName vars) = Some (chain, t) ->
    let vars' := chainLoop (m0 :: ms) (List.length (m0 :: ms)) vars in
    chainOf [] (continuations vars' ++ writer vars')
    = Some ((map mwareName (m0 :: ms)) ++ chain, t)%list.
Proof.
  intros vars env chain t Hw Henv Hcur.
  pose proof (chainLoop_chain m0 ms (List.length ms) vars env chain t
                (le_n _) Hw Henv Hcur) as H.
  rewrite firstn_all in H. exact H.
Qed.

(** Every dispatch function the compiler emits composes the middleware in
    declared order, then the handler step, then the page or [noContent]. *)
Lemma entry_chain (route : Route) (verb : HttpVerb) :
  supportsVerb route verb = true ->
  exists fn,
    writeRouteEntryHandler route verb = Ok fn
    /\ chainOf [] (fn_body fn)
       = Some ((middlewareNames route ++ handlerStep route verb)%list,
               expectedTerminal route verb).
Proof.
  intros Hs.
  unfold writeRouteEntryHandler, chainHead, supportsVerb, pageApplies,
    handlerStep, expectedTerminal, pageApplies, middlewareNames in *.
  destruct (route_page route) as [page|] eqn:Hp;
    destruct (verb =? "get")%string eqn:Hv;
    cbn -[chainLoop] in Hs |- *.
  - (* page and get *)
    apply String.eqb_eq in Hv. subst verb.
    destruct (handlerIncludes (route_handler route) "get") eqn:Hh;
      destruct (route_middleware route) as [|m0 ms] eqn:Hm;
      cbn -[chainLoop List.length map].
    + eexists; split; reflexivity.
    + eexists; split; [reflexivity |]. cbn [fn_body].
      apply (chainLoop_all m0 ms _
               [("__getHandler", (["getHandler"], PageStep));
                ("__page", ([], PageStep))] ["getHandler"] PageStep);
        reflexivity.
    + eexists; split; reflexivity.
    + eexists; split; [reflexivity |]. cbn [fn_body].
      apply (chainLoop_all m0 ms _ [("__page", ([], PageStep))] [] PageStep);
        reflexivity.
  - (* page, another verb *)
    destruct (route_handler route) as [h|] eqn:Hh; [| discriminate].
    destruct (route_middleware route) as [|m0 ms] eqn:Hm;
      cbn -[chainLoop List.length map].
    + eexists; split; reflexivity.
    + eexists; split; [reflexivity |]. cbn [fn_body].
      apply (chainLoop_all m0 ms _
               [("__" ++ verb ++ "Handler",
                 ([verb ++ "Handler"], NoContentStep))]
               [verb ++ "Handler"] NoContentStep);
        try reflexivity. apply lookupChain_head.
  - destruct (route_handler route) as [h|] eqn:Hh; [| discriminate].
    destruct (route_middleware route) as [|m0 ms] eqn:Hm;
      cbn -[chainLoop List.length map].
    + eexists; split; reflexivity.
    + eexists; split; [reflexivity |]. cbn [fn_body].
      apply (chainLoop_all m0 ms _
               [("__" ++ verb ++ "Handler",
                 ([verb ++ "Handler"], NoContentStep))]
               [verb ++ "Handler"] NoContentStep);
        try reflexivity. apply lookupChain_head.
  - destruct (route_handler route) as [h|] eqn:Hh; [| discriminate].
    destruct (route_middleware route) as [|m0 ms] eqn:Hm;
      cbn -[chainLoop List.length map].
    + eexists; split; reflexivity.
    + eexists; split; [reflexivity |]. cbn [fn_body].
      apply (chainLoop_all m0 ms _
               [("__" ++ verb ++ "Handler",
                 ([verb ++ "Handler"], NoContentStep))]
               [verb ++ "Handler"] NoContentStep);
        try reflexivity. apply lookupChain_head.
Qed.

Section DispatchRuns.

Variable call : Layer -> Thunk -> Context -> Outcome.
Variable noContent : Thunk.
Variable layers : string -> option Layer.
Variable context : Context.

Let chainThunk (c : Chain) : Thunk :=
  runChain call layers context (fst c) (runTerminal noContent context (snd c)).

Lemma lookupNext_agree (cenv : list (string * Chain))
    (env : list (string * Thunk)) (name : string) (c : Chain) :
  agree call noContent layers context cenv env ->
  lookupChain cenv name = Some c ->
  lookupNext noContent env name = Some (chainThunk c).
Proof.
  intros Hagree. induction Hagree as [|[w c0] [w' k] cenv env [Hw Hk] _ IH];
    unfold lookupChain, lookupNext in *; simpl in *.
  - destruct (name =? "noContent")%string; [| discriminate].
    intros H. now inversion H.
  - subst w' k. destruct (w =? name)%string.
    + intros H. now inversion H.
    + exact IH.
Qed.

Lemma evalCall_agree (cenv : list (string * Chain))
    (env : list (string * Thunk)) (m next : string) (ls : list string)
    (t : Terminal) :
  agree call noContent layers context cenv env ->
  lookupChain cenv next = Some (ls, t) ->
  evalCall call noContent layers context env m next
  = chainThunk (m :: ls, t) tt.
Proof.
  intros Hagree Hnext. unfold evalCall, chainThunk. simpl.
  rewrite (lookupNext_agree _ _ _ _ Hagree Hnext).
  reflexivity.
Qed.

(** Running a dispatch function is running the chain read off its text. *)
Lemma runBody_chain (body : list cstmt) :
  forall cenv env c,
    agree call noContent layers context cenv env ->
    chainOf cenv body = Some c ->
    runBody call noContent layers context env body = chainThunk c tt.
Proof.
  induction body as [|s body IH]; intros cenv env c Hagree Hc; simpl in *.
  - discriminate.
  - destruct s.
    + apply (IH _ _ _ (Forall2_cons (wrapFn, ([], PageStep))
                         (wrapFn, fun _ => pageRender context)
                         (conj eq_refl eq_refl) Hagree) Hc).
    + now inversion Hc.
    + destruct (lookupChain cenv next) as [[ls t]|] eqn:Hnext; [| discriminate].
      apply (IH ((wrapFn, (middleware :: ls, t)) :: cenv) _ _); [| exact Hc].
      constructor; [| exact Hagree]. split; [reflexivity |].
      cbn [fst snd].
      rewrite (evalCall_agree _ _ middleware next ls t Hagree Hnext).
      reflexivity.
    + destruct (lookupChain cenv next) as [[ls t]|] eqn:Hnext; [| discriminate].
      inversion Hc. subst c.
      apply (evalCall_agree _ _ _ _ _ _ Hagree Hnext).
Qed.

Lemma runChain_app (outer inner : list string) (terminal : Thunk) :
  runChain call layers context (outer ++ inner) terminal
  = runChain call layers context outer
      (runChain call layers context inner terminal).
Proof.
  induction outer as [|m outer IH]; simpl; [reflexivity |].
  now rewrite IH.
Qed.

Lemma entry_runs (route : Route) (verb : HttpVerb) :
  supportsVerb route verb = true ->
  exists fn,
    writeRouteEntryHandler route verb = Ok fn
    /\ chainOf [] (fn_body fn)
       = Some ((middlewareNames route ++ handlerStep route verb)%list,
               expectedTerminal route verb)
    /\ runEntryFunction call noContent layers context fn
       = runChain call layers context (middlewareNames route)
           (runChain call layers context (handlerStep route verb)
              (runTerminal noContent context (expectedTerminal route verb)))
           tt.
Proof.
  intros Hs. destruct (entry_chain route verb Hs) as [fn [Hfn Hchain]].
  exists fn. split; [exact Hfn |]. split; [exact Hchain |].
  unfold runEntryFunction.
  rewrite (runBody_chain _ [] [] _ (Forall2_nil _) Hchain).
  unfold chainThunk. cbn [fst snd]. now rewrite runChain_app.
Qed.

End DispatchRuns.

Lemma chainLoop_shape (m0 : RoutableFile) (ms : list RoutableFile) :
  forall k vars,
    (k <= List.length ms)%nat ->
    let vars' := chainLoop (m0 :: ms) (S k) vars in
    writer vars' = writer vars
    /\ exists wraps next,
         continuations vars'
         = (continuations vars ++ wraps
            ++ [ReturnCall (mwareName m0) next])%list.
Proof.
  induction k as [|k IH]; intros vars Hk; cbn zeta.
  - split; [reflexivity |]. exists [], (currentName vars). reflexivity.
  - rewrite chainLoop_step.
    destruct (nth_error (m0 :: ms) (S k)) as [m|] eqn:Hm.
    2:{ apply nth_error_None in Hm. simpl in Hm. lia. }
    match goal with
    | |- context [chainLoop _ (S k) ?v] =>
        destruct (IH v ltac:(lia)) as [Hw [wraps [next Hc]]]
    end.
    cbn zeta in Hw, Hc. rewrite Hw, Hc. cbn [writer continuations].
    split; [reflexivity |].
    eexists (_ :: wraps), next. rewrite <- app_assoc. reflexivity.
Qed.

Lemma last_snoc {A} (l : list A) (x d : A) : last (l ++ [x]) d = x.
Proof.
  induction l as [|a l IH]; [reflexivity |].
  simpl. destruct (l ++ [x])%list eqn:E; [| exact IH].
  now destruct l.
Qed.

(** With middleware, the body ends in the returned call of the first
    middleware, and what the handler step wrote comes first. *)
Lemma entry_shape (route : Route) (verb : HttpVerb)
    (first : RoutableFile) (rest : list RoutableFile) :
  route_middleware route = first :: rest ->
  forall vars,
    chainHead route verb = Ok vars ->
    hasBody vars = false /\ writer vars = []
    /\ exists fn wraps next,
         writeRouteEntryHandler route verb = Ok fn
         /\ fn_body fn
            = (continuations vars ++ wraps
               ++ [ReturnCall (mwareName first) next])%list.
Proof.
  intros Hm vars Hhead.
  assert (Hflags : hasBody vars = false /\ writer vars = []).
  { unfold chainHead in Hhead. rewrite Hm in Hhead.
    cbn [List.length Nat.ltb Nat.leb] in Hhead.
    destruct (route_page route); destruct (verb =? "get")%string;
      try destruct (handlerIncludes (route_handler route) verb);
      try destruct (route_handler route);
      inversion Hhead; split; reflexivity. }
  destruct Hflags as [Hb Hw]. split; [exact Hb |]. split; [exact Hw |].
  unfold writeRouteEntryHandler. rewrite Hhead. cbn [bind]. rewrite Hb, Hm.
  destruct (chainLoop_shape first rest (List.length rest) vars (le_n _))
    as [Hw' [wraps [next Hc]]].
  cbn zeta in Hw', Hc.
  eexists _, wraps, next. split; [reflexivity |].
  cbn [fn_body List.length]. rewrite Hw', Hc, Hw, app_nil_r. reflexivity.
Qed.

(** ** C2: the order of the middleware *)

(** C2. For a route with middleware and a verb it supports, the generated
    dispatch function ends in the returned call of the first declared
    middleware; from that call inwards the chain holds the middleware in
    declared order, then the handler step, then the page or [noContent], so
    the last declared middleware is the one next to the handler or page;
    and running the function is running that nest of calls. *)
Theorem middleware_declared_order :
  forall call noContent layers context route verb first rest,
    route_middleware route = first :: rest ->
    supportsVerb route verb = true ->
    exists fn next,
      writeRouteEntryHandler route verb = Ok fn
      /\ last (fn_body fn) ReturnPage = ReturnCall (mwareName first) next
      /\ chainOf [] (fn_body fn)
         = Some ((mwareName first :: map mwareName rest
                  ++ handlerStep route verb)%list,
                 expectedTerminal route verb)
      /\ runEntryFunction call noContent layers context fn
         = runChain call layers context
             (mwareName first :: map mwareName rest)
             (runChain call layers context (handlerStep route verb)
                (runTerminal noContent context (expectedTerminal route verb)))
             tt.
Proof.
  intros call noContent layers context route verb first rest Hm Hs.
  destruct (entry_runs call noContent layers context route verb Hs)
    as [fn [Hfn [Hchain Hrun]]].
  unfold middlewareNames in Hchain, Hrun. rewrite Hm in Hchain, Hrun.
  destruct (chainHead route verb) as [vars|msg] eqn:Hhead.
  2:{ unfold writeRouteEntryHandler in Hfn. rewrite Hhead in Hfn.
      discriminate. }
  destruct (entry_shape route verb first rest Hm vars Hhead)
    as [_ [_ [fn' [wraps [next [Hfn' Hbody]]]]]].
  rewrite Hfn in Hfn'. inversion Hfn'. subst fn'.
  exists fn, next. split; [exact Hfn |]. split.
  - rewrite Hbody, !app_assoc. apply last_snoc.
  - split; [exact Hchain | exact Hrun].
Qed.

Lemma middleware_declared_order_witness :
  route_middleware sampleChainRoute
  = sampleFile "1" None :: [sampleFile "2" None; sampleFile "5" None]
  /\ supportsVerb sampleChainRoute "get" = true
  /\ exists fn next,
       writeRouteEntryHandler sampleChainRoute "get" = Ok fn
       /\ last (fn_body fn) ReturnPage = ReturnCall "mware1" next
       /\ chainOf [] (fn_body fn)
          = Some (["mware1"; "mware2"; "mware5"; "getHandler"], PageStep).
Proof.
  split; [reflexivity |]. split; [reflexivity |].
  destruct (middleware_declared_order specCall sampleNoContent
              (sampleLayers (fun _ _ => Throws NotMatched)) sampleContext
              sampleChainRoute "get" (sampleFile "1" None)
              [sampleFile "2" None; sampleFile "5" None]
              eq_refl eq_refl) as [fn [next [Hfn [Hlast [Hchain _]]]]].
  exists fn, next. split; [exact Hfn |]. split; [exact Hlast | exact Hchain].
Defined.

(** ** C8: [noContent] under the handler *)

(** C8. When the route has a handler and the page fallback does not apply
    to the verb, the call of the verb's handler is written with
    [noContent] as its next step, with or without middleware: the chain of
    the function is the middleware, then the handler, then [noContent]. *)
Theorem handler_next_is_noContent :
  forall call noContent layers context route verb handler,
    route_handler route = Some handler ->
    pageApplies route verb = false ->
    exists fn,
      writeRouteEntryHandler route verb = Ok fn
      /\ (In (ConstCall ("__" ++ verb ++ "Handler") (verb ++ "Handler")
                "noContent") (fn_body fn)
          \/ In (ReturnCall (verb ++ "Handler") "noContent") (fn_body fn))
      /\ chainOf [] (fn_body fn)
         = Some (middlewareNames route +++ [verb ++ "Handler"], NoContentStep)
      /\ runEntryFunction call noContent layers context fn
         = runChain call layers context
             (middlewareNames route +++ [verb ++ "Handler"]) noContent tt.
Proof.
  intros call noContent layers context route verb handler Hh Hpage.
  assert (Hs : supportsVerb route verb = true).
  { unfold supportsVerb. rewrite Hh. apply orb_true_r. }
  destruct (entry_runs call noContent layers context route verb Hs)
    as [fn [Hfn [Hchain Hrun]]].
  unfold handlerStep, expectedTerminal in Hchain, Hrun.
  rewrite Hpage, Hh in Hchain, Hrun. cbn [isSome] in Hchain, Hrun.
  exists fn. split; [exact Hfn |]. split.
  - assert (Hhead :
      chainHead route verb
      = if (0 <? List.length (route_middleware route))%nat then
          Ok {| continuations :=
                  [ConstCall ("__" ++ verb ++ "Handler") (verb ++ "Handler")
                     "noContent"];
                writer := []; currentName := "__" ++ verb ++ "Handler";
                hasBody := false |}
        else
          Ok {| continuations := [];
                writer := [ReturnCall (verb ++ "Handler") "noContent"];
                currentName := "__" ++ verb ++ "Handler";
                hasBody := true |}).
    { unfold chainHead, pageApplies in *. rewrite Hh.
      destruct (route_page route); [| reflexivity].
      cbn [isSome andb] in Hpage. rewrite Hpage. reflexivity. }
    destruct (route_middleware route) as [|first rest] eqn:Hm.
    + right. unfold writeRouteEntryHandler in Hfn.
      rewrite Hhead, Hm in Hfn. cbn in Hfn. inversion Hfn. now left.
    + left. cbn [List.length Nat.ltb Nat.leb] in Hhead.
      destruct (entry_shape route verb first rest Hm _ Hhead)
        as [_ [_ [fn' [wraps [next [Hfn' Hbody]]]]]].
      rewrite Hfn in Hfn'. inversion Hfn'. subst fn'.
      rewrite Hbody. now left.
  - split; [exact Hchain |]. rewrite Hrun. now rewrite runChain_app.
Qed.

Lemma handler_next_is_noContent_witness :
  route_handler sampleChainRoute
  = Some (sampleFile "handler" (Some ["get"; "post"]))
  /\ pageApplies sampleChainRoute "post" = false
  /\ exists fn,
       writeRouteEntryHandler sampleChainRoute "post" = Ok fn
       /\ chainOf [] (fn_body fn)
          = Some (["mware1"; "mware2"; "mware5"; "postHandler"],
                  NoContentStep).
Proof.
  split; [reflexivity |]. split; [reflexivity |].
  destruct (handler_next_is_noContent specCall sampleNoContent
              (sampleLayers (fun _ _ => Throws NotMatched)) sampleContext
              sampleChainRoute "post" _ eq_refl eq_refl)
    as [fn [Hfn [_ [Hchain _]]]].
  exists fn. split; [exact Hfn | exact Hchain].
Defined.

(** ** C3: the page under the [get] handler *)

Lemma specCall_contract (context : Context) :
  callShortCircuits specCall context /\ callFallsBack specCall context.
Proof.
  split.
  - intros layer next response H. unfold specCall. now rewrite H.
  - intros layer next H. unfold specCall. now rewrite H.
Qed.

(** A response passes through middleware that hands it on. *)
Lemma runChain_handsOn call layers context (names : list string)
    (terminal : Thunk) (response : Response) :
  handsOn call layers context names ->
  terminal tt = Returns (Some response) ->
  runChain call layers context names terminal tt = Returns (Some response).
Proof.
  induction names as [|name names IH]; intros Hon Hend; [exact Hend |].
  destruct (Hon name (or_introl eq_refl)) as [layer [Hlayer Hpass]].
  cbn [runChain]. rewrite Hlayer. apply Hpass. apply IH; [| exact Hend].
  intros other Hin. apply Hon. now right.
Qed.

(** C3. For a page route compiled for [get], where [rendered] is the
    response built from the page with status 200 and the input of the
    request's context.  With a [get] handler: the handler is the innermost
    layer of the dispatch function, called with the page render as its
    next step, below the middleware in declared order; for a [call] that
    short-circuits on a response and falls back on [NotMatched], and
    middleware that hands a response on (none, for a route without
    middleware), the function answers with the handler's response when the
    handler gives one, and with [rendered] when the handler declines.
    Without a [get] handler, the function is the middleware around the
    page render, and answers [rendered]. *)
Theorem get_handler_falls_back_to_page :
  forall call noContent layers context route page,
    route_page route = Some page ->
    callShortCircuits call context ->
    callFallsBack call context ->
    let rendered :=
      Returns (Some (PageResponse "page" 200
                       {| input_context := context;
                          input_error := None |})) in
    let run := runEntryFunction call noContent layers context in
    (handlerIncludes (route_handler route) "get" = true ->
       exists fn,
         writeRouteEntryHandler route "get" = Ok fn
         /\ chainOf [] (fn_body fn)
            = Some ((middlewareNames route ++ ["getHandler"])%list, PageStep)
         /\ forall handler,
              layers "getHandler" = Some handler ->
              run fn
              = runChain call layers context (middlewareNames route)
                  (fun _ => call handler (fun _ => rendered) context) tt
              /\ (handsOn call layers context (middlewareNames route) ->
                  (forall response,
                     handler context (fun _ => rendered)
                     = Returns (Some response) ->
                     run fn = Returns (Some response))
                  /\ (handler context (fun _ => rendered)
                      = Throws NotMatched ->
                      run fn = rendered)))
    /\ (handlerIncludes (route_handler route) "get" = false ->
        exists fn,
          writeRouteEntryHandler route "get" = Ok fn
          /\ chainOf [] (fn_body fn) = Some (middlewareNames route, PageStep)
          /\ run fn
             = runChain call layers context (middlewareNames route)
                 (fun _ => rendered) tt
          /\ (handsOn call layers context (middlewareNames route) ->
              run fn = rendered)).
Proof.
  intros call noContent layers context route page Hp Hshort Hfall
         rendered run.
  assert (Hpage : pageApplies route "get" = true).
  { unfold pageApplies. now rewrite Hp. }
  assert (Hs : supportsVerb route "get" = true).
  { unfold supportsVerb. now rewrite Hpage. }
  destruct (entry_runs call noContent layers context route "get" Hs)
    as [fn [Hfn [Hchain Hrun]]].
  unfold handlerStep, expectedTerminal in Hchain, Hrun.
  rewrite Hpage in Hchain, Hrun.
  change ("get" ++ "Handler") with "getHandler" in Hchain, Hrun.
  change (runTerminal noContent context PageStep)
    with (fun _ : unit => rendered) in Hrun.
  fold run in Hrun.
  split; intros Hh; rewrite Hh in Hchain, Hrun; exists fn;
    (split; [exact Hfn |]).
  - split; [exact Hchain |].
    intros handler Hl.
    assert (Hrun' :
      run fn
      = runChain call layers context (middlewareNames route)
          (fun _ => call handler (fun _ => rendered) context) tt).
    { rewrite Hrun. cbn [runChain]. rewrite Hl. reflexivity. }
    split; [exact Hrun' |]. intros Hon. split.
    + intros response Hr. rewrite Hrun'.
      apply (runChain_handsOn _ _ _ _ _ _ Hon).
      apply Hshort. exact Hr.
    + intros Hd. rewrite Hrun'.
      apply (runChain_handsOn _ _ _ _ _ _ Hon).
      rewrite (Hfall _ _ Hd). reflexivity.
  - rewrite app_nil_r in Hchain. split; [exact Hchain |].
    cbn [runChain] in Hrun. split; [exact Hrun |].
    intros Hon. rewrite Hrun.
    apply (runChain_handsOn _ _ _ _ _ _ Hon). reflexivity.
Qed.

(** The page route [/item] with a [get] handler and three middleware that
    call their next step, under the [call] of the specification: when the
    handler declines the function answers with the page, status 200; when
    the handler answers, with the handler's response. *)
Lemma get_handler_falls_back_to_page_witness :
  let context :=
    {| ctx_url := sampleUrl "/item";
       ctx_request := sampleRequest "/item" None;
       ctx_platform := "edge"; ctx_params := None; ctx_meta := None |} in
  let declines : Layer := fun _ _ => Throws NotMatched in
  let answers : Layer := fun _ _ => Returns (Some (UserResponse "handled")) in
  route_page sampleChainRoute = Some (sampleFile "page" None)
  /\ callShortCircuits specCall context
  /\ callFallsBack specCall context
  /\ handlerIncludes (route_handler sampleChainRoute) "get" = true
  /\ handsOn specCall (sampleLayers declines) context
       ["mware1"; "mware2"; "mware5"]
  /\ exists fn,
       writeRouteEntryHandler sampleChainRoute "get" = Ok fn
       /\ flat_map show_cstmt (fn_body fn)
          = [ "const __page = () => new Response(page.stream(buildInput()), {";
              "  status: 200,";
              "  headers: { " ++ JS.dq ++ "content-type" ++ JS.dq ++ ": "
              ++ JS.dq ++ "text/html;charset=UTF-8" ++ JS.dq ++ " }";
              "});";
              "const __getHandler = () => call(getHandler, __page, context);";
              "const __mware5 = () => call(mware5, __getHandler, context);";
              "const __mware2 = () => call(mware2, __mware5, context);";
              "return call(mware1, __mware2, context);" ]
       /\ runEntryFunction specCall sampleNoContent (sampleLayers declines)
            context fn
          = Returns (Some (PageResponse "page" 200
                             {| input_context := context;
                                input_error := None |}))
       /\ runEntryFunction specCall sampleNoContent (sampleLayers answers)
            context fn
          = Returns (Some (UserResponse "handled")).
Proof.
  intros context declines answers.
  destruct (specCall_contract context) as [Hshort Hfall].
  assert (Hon : forall handler,
            handsOn specCall (sampleLayers handler) context
              ["mware1"; "mware2"; "mware5"]).
  { intros handler name Hin. exists (fun _ next => next tt).
    split.
    - destruct Hin as [<- | [<- | [<- | []]]]; reflexivity.
    - intros next response Hnext. unfold specCall. now rewrite Hnext. }
  split; [reflexivity |]. split; [exact Hshort |]. split; [exact Hfall |].
  split; [reflexivity |]. split; [exact (Hon declines) |].
  destruct (proj1 (get_handler_falls_back_to_page specCall sampleNoContent
                     (sampleLayers declines) context sampleChainRoute _
                     eq_refl Hshort Hfall) eq_refl)
    as [fn [Hfn [_ Hdeclines]]].
  destruct (proj1 (get_handler_falls_back_to_page specCall sampleNoContent
                     (sampleLayers answers) context sampleChainRoute _
                     eq_refl Hshort Hfall) eq_refl)
    as [fn' [Hfn' [_ Hanswers]]].
  rewrite Hfn in Hfn'. injection Hfn' as <-.
  exists fn. split; [exact Hfn |]. split.
  - injection Hfn as <-. reflexivity.
  - split.
    + exact (proj2 (proj2 (Hdeclines declines eq_refl) (Hon declines))
               eq_refl).
    + exact (proj1 (proj2 (Hanswers answers eq_refl) (Hon answers))
               (UserResponse "handled") eq_refl).
Defined.

(** ** Pathnames and segments *)

Lemma findChar_hit (segment rest : string) :
  noSlash segment ->
  JS.findChar "/" (segment ++ "/" ++ rest) = Some (String.length segment).
Proof.
  unfold noSlash. change ("/" ++ rest) with (String "/" rest).
  induction segment as [|c r IH]; simpl; [reflexivity |].
  destruct (c =? "/")%char; [discriminate |].
  intros H. destruct (JS.findChar "/" r); [discriminate |].
  now rewrite IH.
Qed.

Lemma to_nat_len (a : string) : Z.to_nat (Z.max (JS.len a) 0) = String.length a.
Proof. unfold JS.len. lia. Qed.

Lemma indexOf_slash (before segment rest : string) :
  noSlash segment ->
  JS.indexOf (before ++ segment ++ "/" ++ rest) "/" (JS.len before)
  = JS.len before + JS.len segment.
Proof.
  intros H. unfold JS.indexOf. rewrite to_nat_len, drop_app, findChar_hit by exact H.
  unfold JS.len. lia.
Qed.

Lemma indexOf_none (before segment : string) :
  noSlash segment ->
  JS.indexOf (before ++ segment) "/" (JS.len before) = -1.
Proof.
  intros H. unfold JS.indexOf. rewrite to_nat_len, drop_app.
  unfold noSlash in H. now rewrite H.
Qed.

Lemma slice_segment (before segment rest : string) :
  JS.slice (before ++ segment ++ rest) (JS.len before)
    (JS.len before + JS.len segment) = segment.
Proof.
  pose proof (len_nonneg before). pose proof (len_nonneg segment).
  pose proof (len_nonneg rest).
  rewrite slice_inside by (rewrite ?len_app; lia).
  replace (Z.to_nat (JS.len before)) with (String.length before)
    by (unfold JS.len; lia).
  replace (Z.to_nat _) with (String.length segment) by (unfold JS.len; lia).
  rewrite drop_app. apply take_app.
Qed.

Lemma slice_to_end (before segment : string) :
  JS.slice (before ++ segment) (JS.len before) (JS.len (before ++ segment))
  = segment.
Proof.
  pose proof (len_nonneg before). pose proof (len_nonneg segment).
  rewrite slice_inside by (rewrite ?len_app; lia).
  rewrite len_app.
  replace (Z.to_nat (JS.len before)) with (String.length before)
    by (unfold JS.len; lia).
  replace (Z.to_nat _) with (String.length segment) by (unfold JS.len; lia).
  rewrite drop_app. apply take_all.
Qed.

Lemma slice_before_slash (before segment : string) :
  JS.slice (before ++ segment ++ "/") (JS.len before) (-1) = segment.
Proof.
  pose proof (len_nonneg before). pose proof (len_nonneg segment).
  rewrite slice_to_last
    by (rewrite !len_app; change (JS.len "/") with 1; lia).
  rewrite !len_app. change (JS.len "/") with 1.
  replace (Z.to_nat (JS.len before)) with (String.length before)
    by (unfold JS.len; lia).
  replace (Z.to_nat _) with (String.length segment) by (unfold JS.len; lia).
  rewrite drop_app. apply take_app.
Qed.

Lemma length_toLowerCase (s : string) :
  String.length (JS.toLowerCase s) = String.length s.
Proof. induction s as [|c r IH]; simpl; [reflexivity | now rewrite IH]. Qed.

Lemma truthy_nonempty (s : string) :
  s <> EmptyString -> JS.truthy s = true.
Proof. intros H. unfold JS.truthy. now destruct s. Qed.

(** ** Steps of a matcher *)

Lemma exec_const (env : Env) (x : var) (e : expr) (v : value)
    (rest : list stmt) :
  eval env e = Some v ->
  exec env (Const x e :: rest) = exec (bindVar x v env) rest.
Proof. intros H. unfold exec. simpl. now rewrite H. Qed.

Lemma exec_if_true (env : Env) (c : expr) (v : value)
    (body : list stmt) (orElse : option (list stmt)) (rest : list stmt) :
  eval env c = Some v -> truthyValue v = true ->
  exec env (If c body orElse :: rest)
  = match exec env body with
    | Normal => exec env rest
    | done => done
    end.
Proof.
  intros H Ht. unfold exec. simpl. rewrite H, Ht.
  now destruct (runBlockWith execStmt env body).
Qed.

Lemma exec_if_false (env : Env) (c : expr) (v : value)
    (body rest : list stmt) :
  eval env c = Some v -> truthyValue v = false ->
  exec env (If c body None :: rest) = exec env rest.
Proof. intros H Ht. unfold exec. simpl. now rewrite H, Ht. Qed.

Lemma exec_if_else (env : Env) (c : expr) (v : value)
    (body orElse rest : list stmt) :
  eval env c = Some v -> truthyValue v = false ->
  exec env (If c body (Some orElse) :: rest)
  = match exec env orElse with
    | Normal => exec env rest
    | done => done
    end.
Proof.
  intros H Ht. unfold exec. simpl. rewrite H, Ht.
  now destruct (runBlockWith execStmt env orElse).
Qed.

Lemma exec_switch (env : Env) (e : expr) (v : value)
    (cases : list (string * list stmt)) (rest : list stmt) :
  eval env e = Some v ->
  exec env (Switch e cases :: rest)
  = match runCasesWith exec env v false cases with
    | Normal => exec env rest
    | done => done
    end.
Proof.
  intros H. unfold exec. simpl. rewrite H.
  now destruct (runCasesWith (runBlockWith execStmt) env v false cases).
Qed.

Lemma exec_return (env : Env) (m : option Match) (rest : list stmt) :
  exec env (Return m :: rest) = Returned m.
Proof. reflexivity. Qed.

Lemma exec_nil (env : Env) : exec env [] = Normal.
Proof. reflexivity. Qed.

Lemma eval_lower (env : Env) (value : expr) (s : string) :
  eval env value = Some (VStr s) ->
  eval env (Lower value) = Some (VStr (JS.toLowerCase s)).
Proof. intros H. simpl. now rewrite H. Qed.

Lemma eval_equals (env : Env) (value : expr) (s key : string) :
  eval env value = Some (VStr s) ->
  eval env (StrictEq (Lower value) (Str key))
  = Some (VBool (JS.toLowerCase s =? key)%string).
Proof. intros H. simpl. now rewrite H. Qed.

Lemma exec_app_returned (a b : list stmt) :
  forall env m, exec env a = Returned m -> exec env (a ++ b) = Returned m.
Proof.
  induction a as [|s a IH]; intros env m H; [discriminate |].
  unfold exec in *. simpl in *.
  destruct (execStmt env s) as [env' [| |]]; try exact H.
  now apply IH.
Qed.

Lemma exec_app_closed (a b : list stmt) :
  (forall env env', exec env b = exec env' b) ->
  forall env,
    exec env (a ++ b)
    = match exec env a with
      | Normal => exec env b
      | done => done
      end.
Proof.
  intros Hb. induction a as [|s a IH]; intros env; [reflexivity |].
  unfold exec in *. simpl.
  destruct (execStmt env s) as [env' [| |]]; try reflexivity.
  rewrite IH. destruct (runBlockWith execStmt env' a); try reflexivity.
  apply Hb.
Qed.

Lemma tailCode_closed (verb : HttpVerb) (level : nat) (offset : Offset)
    (catchAll : option Route) :
  forall env env',
    exec env (tailCode verb level offset catchAll)
    = exec env' (tailCode verb level offset catchAll).
Proof.
  intros env env'. unfold tailCode.
  destruct catchAll; [reflexivity |]. now destruct (level =? 0)%nat.
Qed.

(** Both forms of the dispatch on the static children that end a route
    return the route of the first child whose key is the segment in lower
    case, and go on when there is none. *)
Lemma runCases_terminal (verb : HttpVerb) (env : Env) (v : string)
    (terminal : list (string * Route)) :
  runCasesWith exec env (VStr v) false
    (map (fun kr => (fst kr, [Return (Some (plainMatch verb (snd kr)))]))
         terminal)
  = match find (fun kr => (fst kr =? v)%string) terminal with
    | Some kr => Returned (Some (plainMatch verb (snd kr)))
    | None => Normal
    end.
Proof.
  induction terminal as [|[k r] terminal IH]; [reflexivity |].
  simpl. rewrite (String.eqb_sym k v).
  destruct (v =? k)%string; [reflexivity | exact IH].
Qed.

Lemma exec_terminal_ifs (verb : HttpVerb) (env : Env) (value : expr)
    (s : string) (terminal : list (string * Route)) (rest : list stmt) :
  eval env value = Some (VStr s) ->
  exec env
    (map (fun kr => If (StrictEq (Lower value) (Str (fst kr)))
                       [Return (Some (plainMatch verb (snd kr)))] None)
         terminal ++ rest)
  = match find (fun kr => (fst kr =? JS.toLowerCase s)%string) terminal with
    | Some kr => Returned (Some (plainMatch verb (snd kr)))
    | None => exec env rest
    end.
Proof.
  intros Hv. induction terminal as [|[k r] terminal IH]; [reflexivity |].
  cbn [map app find fst snd]. rewrite (String.eqb_sym k).
  destruct (JS.toLowerCase s =? k)%string eqn:E.
  - rewrite (exec_if_true env _ (VBool true)); [reflexivity | | reflexivity].
    rewrite (eval_equals env value s k Hv). now rewrite E.
  - rewrite (exec_if_false env _ (VBool false)); [exact IH | | reflexivity].
    rewrite (eval_equals env value s k Hv). now rewrite E.
Qed.

Lemma exec_terminalDispatch (verb : HttpVerb) (env : Env) (value : expr)
    (s : string) (terminal : list (string * Route)) (rest : list stmt) :
  eval env value = Some (VStr s) ->
  exec env (terminalDispatch verb value terminal ++ rest)
  = match find (fun kr => (fst kr =? JS.toLowerCase s)%string) terminal with
    | Some kr => Returned (Some (plainMatch verb (snd kr)))
    | None => exec env rest
    end.
Proof.
  intros Hv. unfold terminalDispatch.
  destruct terminal as [|kr terminal]; [reflexivity |].
  destruct (1 <? List.length (kr :: terminal))%nat.
  - cbn [app]. rewrite (exec_switch env _ _ _ _ (eval_lower env value s Hv)).
    change (fun kr0 : string * Route =>
              (fst kr0,
               [Return (Some {| match_verb := verb; match_route := snd kr0;
                                match_pathIndex := None |})]))
      with (fun kr0 : string * Route =>
              (fst kr0, [Return (Some (plainMatch verb (snd kr0)))])).
    rewrite runCases_terminal.
    now destruct (find _ (kr :: terminal)).
  - now apply exec_terminal_ifs.
Qed.

(** Both forms of the dispatch on the static children with a subtree run
    the code of the first child whose key is the segment in lower case. *)
Lemma runCases_hit (env : Env) (v : string)
    (children : list (string * list stmt)) (k : string) (body : list stmt)
    (m : option Match) :
  find (fun kb => (fst kb =? v)%string) children = Some (k, body) ->
  exec env body = Returned m ->
  runCasesWith exec env (VStr v) false children = Returned m.
Proof.
  intros Hfind Hbody. induction children as [|[k0 b0] children IH];
    [discriminate |].
  simpl in *. rewrite (String.eqb_sym k0 v) in Hfind.
  destruct (v =? k0)%string.
  - inversion Hfind. subst. now rewrite Hbody.
  - now apply IH.
Qed.

Lemma exec_children_ifs (env : Env) (value : expr) (s : string)
    (children : list (string * list stmt)) (rest : list stmt)
    (k : string) (body : list stmt) (m : option Match) :
  eval env value = Some (VStr s) ->
  find (fun kb => (fst kb =? JS.toLowerCase s)%string) children
  = Some (k, body) ->
  exec env body = Returned m ->
  exec env
    (map (fun kb => If (StrictEq (Lower value) (Str (fst kb))) (snd kb) None)
         children ++ rest)
  = Returned m.
Proof.
  intros Hv Hfind Hbody. induction children as [|[k0 b0] children IH];
    [discriminate |].
  cbn [map app find fst snd] in *. rewrite (String.eqb_sym k0) in Hfind.
  destruct (JS.toLowerCase s =? k0)%string eqn:E.
  - inversion Hfind. subst.
    rewrite (exec_if_true env _ (VBool true)); [now rewrite Hbody | | reflexivity].
    rewrite (eval_equals env value s k Hv). now rewrite E.
  - rewrite (exec_if_false env _ (VBool false)); [now apply IH | | reflexivity].
    rewrite (eval_equals env value s k0 Hv). now rewrite E.
Qed.

Lemma exec_childrenDispatch (env : Env) (value : expr) (s : string)
    (children : list (string * list stmt)) (rest : list stmt)
    (k : string) (body : list stmt) (m : option Match) :
  eval env value = Some (VStr s) ->
  find (fun kb => (fst kb =? JS.toLowerCase s)%string) children
  = Some (k, body) ->
  exec env body = Returned m ->
  exec env (childrenDispatch value children ++ rest) = Returned m.
Proof.
  intros Hv Hfind Hbody. unfold childrenDispatch.
  destruct children as [|kb children]; [discriminate |].
  destruct (1 <? List.length (kb :: children))%nat.
  - cbn [app]. rewrite (exec_switch env _ _ _ _ (eval_lower env value s Hv)).
    now rewrite (runCases_hit env _ _ k body m Hfind Hbody).
  - now apply (exec_children_ifs env value s _ rest k body m).
Qed.

Lemma exec_childrenDispatch_order (env : Env) (value : expr) (s : string)
    (children : list (string * list stmt)) (rest : list stmt) :
  eval env value = Some (VStr s) ->
  exec env (childrenDispatch value children ++ rest)
  = orElse (runCasesWith exec env (VStr (JS.toLowerCase s)) false children)
      (exec env rest).
Proof.
  intros Hv. unfold childrenDispatch.
  destruct children as [|[k body] children]; [reflexivity |].
  destruct (1 <? List.length ((k, body) :: children))%nat eqn:Hmany.
  - cbn [app]. rewrite (exec_switch env _ _ _ _ (eval_lower env value s Hv)).
    unfold orElse. now destruct (runCasesWith _ _ _ _ _).
  - destruct children; [| discriminate]. cbn [map app fst snd].
    cbn [runCasesWith orb strictEq].
    destruct (JS.toLowerCase s =? k)%string eqn:E.
    + rewrite (exec_if_true env _ (VBool true)); [| | reflexivity].
      * now destruct (exec env body).
      * rewrite (eval_equals env value s k Hv). now rewrite E.
    + rewrite (exec_if_false env _ (VBool false)); [reflexivity | | reflexivity].
      rewrite (eval_equals env value s k Hv). now rewrite E.
Qed.

(** ** The variables of a node *)

Lemma eval_offset (env : Env) (level : nat) (offset : Offset) (o : Z) :
  offsetIs env level offset o -> eval env (offsetExpr offset) = Some (VNum o).
Proof.
  destruct offset as [n|j]; simpl.
  - now intros ->.
  - now intros [_ H].
Qed.

Lemma offsetIs_bind_index (env : Env) (level : nat) (offset : Offset) (o : Z)
    (v : value) :
  offsetIs env level offset o ->
  offsetIs (bindVar (VIndex (S level)) v env) level offset o.
Proof.
  destruct offset as [n|j]; [tauto |].
  intros [Hj H]. split; [exact Hj |].
  cbn [bindVar env_vars lookupVar var_eqb].
  destruct (Nat.eqb_spec (S level) j); [lia | exact H].
Qed.

Lemma offsetIs_bind_segment (env : Env) (level n : nat) (offset : Offset)
    (o : Z) (v : value) :
  offsetIs env level offset o ->
  offsetIs (bindVar (VSegment n) v env) level offset o.
Proof. destruct offset as [m|j]; simpl; tauto. Qed.

Lemma lenBound_bind_index (env : Env) (n : nat) (v : value) :
  lenBound env -> lenBound (bindVar (VIndex n) v env).
Proof. unfold lenBound. simpl. tauto. Qed.

Lemma lenBound_bind_segment (env : Env) (n : nat) (v : value) :
  lenBound env -> lenBound (bindVar (VSegment n) v env).
Proof. unfold lenBound. simpl. tauto. Qed.

Lemma eval_index (env : Env) (level : nat) (offset : Offset) (o : Z) :
  offsetIs env level offset o ->
  eval env (Plus (IndexOfSlash (offsetExpr offset)) (Num 1))
  = Some (VNum (indexValue env o)).
Proof.
  intros H. cbn [eval]. now rewrite (eval_offset env level offset o H).
Qed.

(** At the last segment the index is [0] (no slash ahead) or [len] (the
    slash ends the pathname), and the value sliced is the segment. *)
Lemma index_at_last (env : Env) (o : Z) (segment : string) :
  atLastSegment env o segment ->
  (indexValue env o = 0
   /\ JS.slice (env_pathname env) o (JS.len (env_pathname env)) = segment)
  \/ (indexValue env o = JS.len (env_pathname env)
      /\ indexValue env o <> 0
      /\ JS.slice (env_pathname env) o (-1) = segment).
Proof.
  intros [before [trailing [Hp [Ho Hs]]]]. unfold indexValue. subst o.
  rewrite Hp. destruct trailing.
  - right.
    assert (Hi : JS.indexOf (before ++ segment ++ "/") "/" (JS.len before)
                 = JS.len before + JS.len segment)
      by exact (indexOf_slash before segment EmptyString Hs).
    rewrite !Hi, !len_app. change (JS.len "/") with 1.
    pose proof (len_nonneg before). pose proof (len_nonneg segment).
    repeat split; [lia | lia | apply slice_before_slash].
  - left. rewrite app_empty_r, (indexOf_none before segment Hs).
    split; [reflexivity | apply slice_to_end].
Qed.

Lemma index_at_inner (env : Env) (o : Z) (segment : string) :
  atInnerSegment env o segment ->
  indexValue env o = o + JS.len segment + 1
  /\ indexValue env o <> 0
  /\ indexValue env o <> JS.len (env_pathname env)
  /\ JS.slice (env_pathname env) o (indexValue env o - 1) = segment.
Proof.
  intros [before [rest [Hp [Hr [Ho Hs]]]]]. unfold indexValue. subst o.
  rewrite Hp, (indexOf_slash before segment rest Hs).
  pose proof (len_nonneg before). pose proof (len_nonneg segment).
  assert (0 < JS.len rest).
  { unfold JS.len. destruct rest; [congruence | simpl; lia]. }
  rewrite !len_app. change (JS.len "/") with 1.
  repeat split; try lia.
  replace (JS.len before + JS.len segment + 1 - 1)
    with (JS.len before + JS.len segment) by lia.
  apply slice_segment.
Qed.

Section NodeSteps.

Variable verb : HttpVerb.
Variable env : Env.
Variable level : nat.
Variable offset : Offset.
Variable o : Z.

Hypothesis Hlen : lenBound env.
Hypothesis Hoffset : offsetIs env level offset o.

Let env1 : Env := bindVar (VIndex (S level)) (VNum (indexValue env o)) env.

Lemma eval_last_condition (segment : string) :
  atLastSegment env o segment ->
  exists v,
    eval env1 (Or (Not (Ref (VIndex (S level))))
                  (StrictEq (Ref (VIndex (S level))) (Ref VLen))) = Some v
    /\ truthyValue v = true.
Proof.
  intros Hat. cbn [eval env1 bindVar env_vars lookupVar var_eqb].
  rewrite Nat.eqb_refl. cbn [truthyValue]. rewrite Hlen.
  destruct (index_at_last env o segment Hat) as [[Hi _] | [Hi [Hne _]]].
  - rewrite Hi. simpl. now eexists.
  - destruct (indexValue env o =? 0) eqn:E; [apply Z.eqb_eq in E; lia |].
    simpl. rewrite Hi, Z.eqb_refl. now eexists.
Qed.

Lemma eval_more_condition_false (segment : string) :
  atLastSegment env o segment ->
  exists v,
    eval env1 (And (Ref (VIndex (S level)))
                   (StrictNe (Ref (VIndex (S level))) (Ref VLen))) = Some v
    /\ truthyValue v = false.
Proof.
  intros Hat. cbn [eval env1 bindVar env_vars lookupVar var_eqb].
  rewrite Nat.eqb_refl. cbn [truthyValue]. rewrite Hlen.
  destruct (index_at_last env o segment Hat) as [[Hi _] | [Hi [Hne _]]].
  - rewrite Hi. simpl. now eexists.
  - destruct (indexValue env o =? 0) eqn:E; [apply Z.eqb_eq in E; lia |].
    simpl. rewrite Hi, Z.eqb_refl. now eexists.
Qed.

Lemma eval_last_value (segment : string) :
  atLastSegment env o segment ->
  eval env1 (Slice (offsetExpr offset)
               (Cond (Ref (VIndex (S level))) (Num (-1)) (Ref VLen)))
  = Some (VStr segment).
Proof.
  intros Hat.
  pose proof (eval_offset env1 level offset o
                (offsetIs_bind_index env level offset o _ Hoffset)) as Ho.
  cbn [eval]. rewrite Ho.
  cbn [env1 bindVar env_vars lookupVar var_eqb env_pathname].
  rewrite Nat.eqb_refl. cbn [truthyValue]. rewrite Hlen.
  destruct (index_at_last env o segment Hat) as [[Hi Hs] | [Hi [Hne Hs]]].
  - rewrite Hi. simpl. now rewrite Hs.
  - destruct (indexValue env o =? 0) eqn:E; [apply Z.eqb_eq in E; lia |].
    simpl. now rewrite Hs.
Qed.

Lemma eval_inner_conditions (segment : string) :
  atInnerSegment env o segment ->
  (exists v,
     eval env1 (Or (Not (Ref (VIndex (S level))))
                   (StrictEq (Ref (VIndex (S level))) (Ref VLen))) = Some v
     /\ truthyValue v = false)
  /\ (exists v,
        eval env1 (And (Ref (VIndex (S level)))
                       (StrictNe (Ref (VIndex (S level))) (Ref VLen))) = Some v
        /\ truthyValue v = true)
  /\ eval env1 (Slice (offsetExpr offset)
                  (Minus (Ref (VIndex (S level))) (Num 1)))
     = Some (VStr segment).
Proof.
  intros Hat.
  destruct (index_at_inner env o segment Hat) as [_ [Hne [Hnl Hs]]].
  pose proof (eval_offset env1 level offset o
                (offsetIs_bind_index env level offset o _ Hoffset)) as Ho.
  cbn [eval]. rewrite Ho.
  cbn [env1 bindVar env_vars lookupVar var_eqb env_pathname].
  rewrite Nat.eqb_refl. cbn [truthyValue]. rewrite Hlen.
  destruct (indexValue env o =? 0) eqn:E; [apply Z.eqb_eq in E; lia |].
  cbn [negb strictEq].
  destruct (indexValue env o =? JS.len (env_pathname env)) eqn:E2;
    [apply Z.eqb_eq in E2; lia |].
  repeat split; try (eexists; split; reflexivity).
  now rewrite Hs.
Qed.

End NodeSteps.

(** ** The code of a node, run at a segment *)

Section SegmentCode.

Variable verb : HttpVerb.
Variable env : Env.
Variable level : nat.
Variable offset : Offset.
Variable o : Z.
Variable segment : string.

Hypothesis Hlen : lenBound env.
Hypothesis Hoffset : offsetIs env level offset o.

(** The outcome the priority gives at the last segment, before the
    catch-all. *)
Let lastOutcome (terminal : list (string * Route)) (dynRoute : option Route)
    : Completion :=
  match find (fun kr => (fst kr =? JS.toLowerCase segment)%string) terminal with
  | Some kr => Returned (Some (plainMatch verb (snd kr)))
  | None =>
      match dynRoute with
      | Some r =>
          if JS.truthy segment then Returned (Some (plainMatch verb r))
          else Normal
      | None => Normal
      end
  end.

Lemma exec_lastSegmentBlock (terminal : list (string * Route))
    (dynRoute : option Route) :
  atLastSegment env o segment ->
  exec (bindVar (VIndex (S level)) (VNum (indexValue env o)) env)
    (lastSegmentBlock verb (S level) offset terminal dynRoute)
  = lastOutcome terminal dynRoute.
Proof.
  intros Hat. unfold lastSegmentBlock, lastOutcome.
  pose proof (eval_last_value env level offset o Hlen Hoffset segment Hat)
    as Hvalue. cbv zeta in Hvalue.
  destruct dynRoute as [r|].
  - rewrite (exec_const _ _ _ _ _ Hvalue).
    rewrite (exec_terminalDispatch verb _ (Ref (VSegment (S level))) segment).
    2:{ cbn [eval bindVar env_vars lookupVar var_eqb].
        now rewrite Nat.eqb_refl. }
    destruct (find _ terminal); [reflexivity |].
    destruct (JS.truthy segment) eqn:Ht.
    + rewrite (exec_if_true _ _ (VStr segment)); [reflexivity | | exact Ht].
      cbn [eval bindVar env_vars lookupVar var_eqb]. now rewrite Nat.eqb_refl.
    + rewrite (exec_if_false _ _ (VStr segment)); [reflexivity | | exact Ht].
      cbn [eval bindVar env_vars lookupVar var_eqb]. now rewrite Nat.eqb_refl.
  - rewrite <- (app_nil_r (terminalDispatch _ _ _)).
    rewrite (exec_terminalDispatch verb _ _ segment _ _ Hvalue).
    now destruct (find _ terminal).
Qed.

Lemma exec_segmentCode_last (terminal : list (string * Route))
    (dynRoute : option Route) (bindsSegment : bool)
    (children : list (string * list stmt))
    (dynamicBody : option (list stmt)) :
  atLastSegment env o segment ->
  exec env
    (segmentCode verb (S level) offset terminal dynRoute bindsSegment
       children dynamicBody)
  = lastOutcome terminal dynRoute.
Proof.
  intros Hat. unfold segmentCode.
  rewrite (exec_const _ _ _ _ _ (eval_index env level offset o Hoffset)).
  pose proof (exec_lastSegmentBlock terminal dynRoute Hat) as Hblock.
  destruct (eval_last_condition env level o Hlen segment Hat) as [v [Hv Ht]].
  destruct (eval_more_condition_false env level o Hlen segment Hat)
    as [w [Hw Hf]].
  cbv zeta in Hv, Hw.
  assert (Hlast :
    forall orElse,
      exec (bindVar (VIndex (S level)) (VNum (indexValue env o)) env)
        [If (Or (Not (Ref (VIndex (S level))))
                (StrictEq (Ref (VIndex (S level))) (Ref VLen)))
            (lastSegmentBlock verb (S level) offset terminal dynRoute)
            orElse]
      = lastOutcome terminal dynRoute).
  { intros orElse. rewrite (exec_if_true _ _ v _ _ _ Hv Ht), Hblock.
    now destruct (lastOutcome terminal dynRoute). }
  destruct terminal as [|kr terminal]; [destruct dynRoute as [r|] |];
    try apply Hlast.
  cbn [isSome].
  destruct (match children with [] => isSome dynamicBody | _ => true end).
  - now rewrite (exec_if_false _ _ w _ _ Hw Hf).
  - reflexivity.
Qed.

Lemma exec_segmentCode_inner (terminal : list (string * Route))
    (dynRoute : option Route) (bindsSegment : bool)
    (children : list (string * list stmt))
    (dynamicBody : option (list stmt))
    (k : string) (body : list stmt) (m : option Match) :
  atInnerSegment env o segment ->
  find (fun kb => (fst kb =? JS.toLowerCase segment)%string) children
  = Some (k, body) ->
  (forall env',
     env_pathname env' = env_pathname env -> lenBound env' ->
     exec env' body = Returned m) ->
  exec env
    (segmentCode verb (S level) offset terminal dynRoute bindsSegment
       children dynamicBody)
  = Returned m.
Proof.
  intros Hat Hfind Hbody. unfold segmentCode.
  rewrite (exec_const _ _ _ _ _ (eval_index env level offset o Hoffset)).
  set (env1 := bindVar (VIndex (S level)) (VNum (indexValue env o)) env).
  destruct (eval_inner_conditions env level offset o Hlen Hoffset segment Hat)
    as [[v [Hv Hf]] [[w [Hw Ht]] Hvalue]].
  cbv zeta in Hv, Hw, Hvalue. fold env1 in Hv, Hw, Hvalue.
  assert (Hmore :
    exec env1
      (moreSegmentsBlock (S level) offset bindsSegment children dynamicBody)
    = Returned m).
  { unfold moreSegmentsBlock. destruct bindsSegment.
    - rewrite (exec_const _ _ _ _ _ Hvalue).
      apply (exec_childrenDispatch _ _ segment _ _ k body m);
        [| exact Hfind |].
      + cbn [eval bindVar env_vars lookupVar var_eqb].
        now rewrite Nat.eqb_refl.
      + apply Hbody; [reflexivity |].
        apply lenBound_bind_segment, lenBound_bind_index, Hlen.
    - apply (exec_childrenDispatch _ _ segment _ _ k body m);
        [exact Hvalue | exact Hfind |].
      apply Hbody; [reflexivity |]. apply lenBound_bind_index, Hlen. }
  assert (Hhas : match children with [] => isSome dynamicBody | _ => true end
                 = true)
    by (destruct children; [discriminate | reflexivity]).
  rewrite Hhas.
  destruct (match terminal with [] => isSome dynRoute | _ => true end).
  - rewrite (exec_if_else _ _ v _ _ _ Hv Hf). now rewrite Hmore.
  - rewrite (exec_if_true _ _ w _ _ _ Hw Ht). now rewrite Hmore.
Qed.

Lemma exec_segmentCode_order (t : RouteTrie)
    (terminal : list (string * Route)) (dynRoute : option Route)
    (children : list (string * list stmt))
    (dynamicBody : option (list stmt)) :
  atInnerSegment env o segment ->
  exec env
    (segmentCode verb (S level) offset terminal dynRoute
       (dynamicHasEdges (trie_dynamic t)) children dynamicBody)
  = orElse
      (runCasesWith exec (innerEnv t level env o segment)
         (VStr (JS.toLowerCase segment)) false children)
      (match dynamicBody with
       | Some body =>
           if JS.truthy segment
           then exec (innerEnv t level env o segment) body
           else Normal
       | None => Normal
       end).
Proof.
  intros Hat. unfold segmentCode, innerEnv.
  rewrite (exec_const _ _ _ _ _ (eval_index env level offset o Hoffset)).
  set (env1 := bindVar (VIndex (S level)) (VNum (indexValue env o)) env).
  destruct (eval_inner_conditions env level offset o Hlen Hoffset segment Hat)
    as [[v [Hv Hf]] [[w [Hw Ht]] Hvalue]].
  cbv zeta in Hv, Hw, Hvalue. fold env1 in Hv, Hw, Hvalue.
  set (binds := dynamicHasEdges (trie_dynamic t)).
  set (inner := if binds then bindVar (VSegment (S level)) (VStr segment) env1
                else env1).
  set (outcome :=
    orElse (runCasesWith exec inner (VStr (JS.toLowerCase segment)) false children)
      (match dynamicBody with
       | Some body => if JS.truthy segment then exec inner body else Normal
       | None => Normal
       end)).
  assert (Hinner : forall value,
    eval inner value = Some (VStr segment) ->
    exec inner
      (childrenDispatch value children
       +++ match dynamicBody with
           | Some body => [If value body None]
           | None => []
           end)
    = outcome).
  { intros value Hval. rewrite (exec_childrenDispatch_order inner value segment _ _ Hval).
    unfold outcome. f_equal.
    destruct dynamicBody as [body|]; [| reflexivity].
    destruct (JS.truthy segment) eqn:Htruthy.
    - rewrite (exec_if_true inner _ (VStr segment) _ _ _ Hval Htruthy).
      now destruct (exec inner body).
    - now rewrite (exec_if_false inner _ (VStr segment) _ _ Hval Htruthy). }
  assert (Hmore :
    exec env1
      (moreSegmentsBlock (S level) offset binds children dynamicBody)
    = outcome).
  { unfold moreSegmentsBlock. unfold inner in Hinner. destruct binds.
    - rewrite (exec_const _ _ _ _ _ Hvalue). apply Hinner.
      cbn [eval bindVar env_vars lookupVar var_eqb]. now rewrite Nat.eqb_refl.
    - apply Hinner. exact Hvalue. }
  destruct (match children with [] => isSome dynamicBody | _ => true end)
    eqn:Hhas.
  - destruct (match terminal with [] => isSome dynRoute | _ => true end).
    + rewrite (exec_if_else _ _ v _ _ _ Hv Hf), Hmore.
      now destruct outcome.
    + rewrite (exec_if_true _ _ w _ _ _ Hw Ht), Hmore.
      now destruct outcome.
  - assert (Hnone : outcome = Normal).
    { unfold outcome. destruct children; [| discriminate].
      destruct dynamicBody; [discriminate | reflexivity]. }
    rewrite Hnone.
    destruct (match terminal with [] => isSome dynRoute | _ => true end).
    + now rewrite (exec_if_false _ _ v _ _ Hv Hf).
    + reflexivity.
Qed.

End SegmentCode.

(** ** The code of a node *)

Lemma flat_map_filter {A B} (p : A -> bool) (f : A -> B) (l : list A) :
  flat_map (fun a => if p a then [f a] else []) l = map f (filter p l).
Proof.
  induction l as [|a l IH]; [reflexivity |].
  simpl. destruct (p a); simpl; now rewrite IH.
Qed.

Lemma writeRouterVerb_inner (t : RouteTrie) (verb : HttpVerb) (level : nat)
    (offset : Offset) :
  writeRouterVerb t verb (S level) offset
  = segmentsCode t verb (S level) offset
    +++ tailCode verb (S level) offset (trie_catchAll t).
Proof.
  destruct t as [key route static dynamic catchAll].
  unfold segmentsCode, childrenCode, dynamicCode.
  cbn [writeRouterVerb trie_static trie_dynamic trie_catchAll].
  destruct static as [cs|]; [rewrite flat_map_filter |]; reflexivity.
Qed.

Lemma writeRouterVerb_root (t : RouteTrie) (verb : HttpVerb)
    (offset : Offset) :
  writeRouterVerb t verb 0 offset
  = Const VLen PathLength
    :: match trie_route t with
       | Some r =>
           If (StrictEq (Ref VLen) (Num 1))
              [Return (Some (plainMatch verb r))] None
           :: segmentsCode t verb 0 offset
       | None =>
           if isSome (trie_static t) || isSome (trie_dynamic t)
           then [If (Greater (Ref VLen) (Num 1))
                    (segmentsCode t verb 0 offset) None]
           else segmentsCode t verb 0 offset
       end
    +++ tailCode verb 0 offset (trie_catchAll t).
Proof.
  destruct t as [key route static dynamic catchAll].
  unfold segmentsCode, childrenCode, dynamicCode.
  cbn [writeRouterVerb trie_static trie_dynamic trie_catchAll trie_route].
  destruct static as [cs|]; [rewrite flat_map_filter |]; reflexivity.
Qed.

(** The edges of a node at the last segment: the literal child first, the
    dynamic child second; nothing else returns. *)
Lemma exec_segmentsCode_last (t : RouteTrie) (verb : HttpVerb) (level : nat)
    (offset : Offset) (o : Z) (env : Env) (segment : string) :
  lenBound env -> offsetIs env level offset o ->
  atLastSegment env o segment ->
  exec env (segmentsCode t verb level offset)
  = match terminalRoute t (JS.toLowerCase segment) with
    | Some r => Returned (Some (plainMatch verb r))
    | None =>
        match dynamicRoute (trie_dynamic t) with
        | Some r =>
            if JS.truthy segment then Returned (Some (plainMatch verb r))
            else Normal
        | None => Normal
        end
    end.
Proof.
  intros Hlen Hoffset Hat. unfold segmentsCode, terminalRoute.
  destruct (isSome (trie_static t) || isSome (trie_dynamic t)) eqn:Hedges.
  - rewrite (exec_segmentCode_last verb env level offset o segment Hlen
               Hoffset _ _ _ _ _ Hat).
    now destruct (find _ (terminalChildren (trie_static t))).
  - apply orb_false_elim in Hedges. destruct Hedges as [Hs Hd].
    destruct (trie_static t); [discriminate |].
    destruct (trie_dynamic t); [discriminate | reflexivity].
Qed.

Lemma completion_with_tail (verb : HttpVerb) (level : nat) (offset : Offset)
    (catchAll : option Route) (segments : list stmt) (env : Env)
    (found : option Route) :
  exec env segments
  = match found with
    | Some r => Returned (Some (plainMatch verb r))
    | None => Normal
    end ->
  completionRoute
    (exec env (segments +++ tailCode verb level offset catchAll))
  = Some match found with
         | Some r => Some r
         | None => catchAll
         end.
Proof.
  intros H.
  rewrite (exec_app_closed _ _ (tailCode_closed verb level offset catchAll)).
  rewrite H. destruct found as [r|]; [reflexivity |].
  unfold tailCode. destruct catchAll; [reflexivity |].
  now destruct (level =? 0)%nat.
Qed.

Lemma lastSegmentRoute_cases (t : RouteTrie) (segment : string) :
  lastSegmentRoute t segment
  = match
      match terminalRoute t (JS.toLowerCase segment) with
      | Some r => Some r
      | None =>
          match dynamicRoute (trie_dynamic t) with
          | Some r => if JS.truthy segment then Some r else None
          | None => None
          end
      end
    with
    | Some r => Some r
    | None => trie_catchAll t
    end.
Proof.
  unfold lastSegmentRoute.
  destruct (terminalRoute t _); [reflexivity |].
  destruct (dynamicRoute _); [| reflexivity].
  now destruct (JS.truthy segment).
Qed.

(** At a node below the root that is reached with one segment left, the
    code returns by the priority: literal child, dynamic child,
    catch-all. *)
Lemma node_priority (t : RouteTrie) (verb : HttpVerb) (level : nat)
    (offset : Offset) (o : Z) (env : Env) (segment : string) :
  lenBound env -> offsetIs env (S level) offset o ->
  atLastSegment env o segment ->
  completionRoute (exec env (writeRouterVerb t verb (S level) offset))
  = Some (lastSegmentRoute t segment).
Proof.
  intros Hlen Hoffset Hat.
  rewrite writeRouterVerb_inner, lastSegmentRoute_cases.
  apply completion_with_tail.
  rewrite (exec_segmentsCode_last t verb (S level) offset o env segment
             Hlen Hoffset Hat).
  destruct (terminalRoute t _); [reflexivity |].
  destruct (dynamicRoute _); [| reflexivity].
  now destruct (JS.truthy segment).
Qed.

Lemma segments_inner_order (t : RouteTrie) (verb : HttpVerb) (level : nat)
    (offset : Offset) (o : Z) (env : Env) (segment : string) :
  lenBound env -> offsetIs env level offset o ->
  atInnerSegment env o segment ->
  exec env
    (segmentsCode t verb level offset
     +++ tailCode verb level offset (trie_catchAll t))
  = innerOrder t verb level offset env o segment.
Proof.
  intros Hlen Hoffset Hat.
  rewrite (exec_app_closed _ _
             (tailCode_closed verb level offset (trie_catchAll t))).
  unfold innerOrder, segmentsCode.
  destruct (isSome (trie_static t) || isSome (trie_dynamic t)) eqn:Hedges.
  - rewrite (exec_segmentCode_order verb env level offset o segment Hlen
               Hoffset t _ _ _ _ Hat).
    unfold orElse.
    destruct (runCasesWith _ _ _ _ _); try reflexivity.
    destruct (dynamicCode t verb level); [| reflexivity].
    destruct (JS.truthy segment); [| reflexivity].
    now destruct (exec _ _).
  - apply orb_false_elim in Hedges. destruct Hedges as [Hs Hd].
    unfold childrenCode, dynamicCode.
    destruct (trie_static t); [discriminate |].
    destruct (trie_dynamic t); [discriminate | reflexivity].
Qed.

(** At a node below the root that is reached with more than one segment
    left, the static children come first, the dynamic child second, the
    catch-all last. *)
Lemma node_inner_order (t : RouteTrie) (verb : HttpVerb) (level : nat)
    (offset : Offset) (o : Z) (env : Env) (segment : string) :
  lenBound env -> offsetIs env (S level) offset o ->
  atInnerSegment env o segment ->
  exec env (writeRouterVerb t verb (S level) offset)
  = innerOrder t verb (S level) offset env o segment.
Proof.
  intros Hlen Hoffset Hat. rewrite writeRouterVerb_inner.
  now apply segments_inner_order.
Qed.

(** ** The matcher of a verb, from the root *)

(** For a pathname longer than [/], the matcher of a verb runs the code
    of the edges of the root, then what follows the closed blocks. *)
Lemma root_exec (t : RouteTrie) (verb : HttpVerb) (pathname : string) :
  1 < JS.len pathname ->
  exec {| env_pathname := pathname; env_vars := [] |}
    (writeRouterVerb t verb 0 (OffNum 1))
  = exec (rootEnv pathname)
      (segmentsCode t verb 0 (OffNum 1)
       +++ tailCode verb 0 (OffNum 1) (trie_catchAll t)).
Proof.
  intros Hlong. rewrite writeRouterVerb_root.
  cbn [app]. rewrite (exec_const _ _ _ (VNum (JS.len pathname))) by reflexivity.
  fold (rootEnv pathname). set (env := rootEnv pathname).
  destruct (trie_route t) as [r0|].
  - cbn [app].
    rewrite (exec_if_false env _ (VBool false)); [reflexivity | | reflexivity].
    cbn [eval env rootEnv bindVar env_vars lookupVar var_eqb strictEq].
    destruct (JS.len pathname =? 1) eqn:E; [apply Z.eqb_eq in E; lia |].
    reflexivity.
  - destruct (isSome (trie_static t) || isSome (trie_dynamic t));
      [| reflexivity].
    cbn [app].
    rewrite (exec_if_true env _ (VBool true)); [ | | reflexivity].
    + now rewrite <- (exec_app_closed _ _
                        (tailCode_closed verb 0 (OffNum 1) (trie_catchAll t))).
    + cbn [eval env rootEnv bindVar env_vars lookupVar var_eqb].
      destruct (1 <? JS.len pathname) eqn:E; [reflexivity |].
      apply Z.ltb_ge in E. lia.
Qed.

Lemma root_completion (t : RouteTrie) (verb : HttpVerb) (pathname : string)
    (found : option Route) :
  1 < JS.len pathname ->
  exec (rootEnv pathname) (segmentsCode t verb 0 (OffNum 1))
  = match found with
    | Some r => Returned (Some (plainMatch verb r))
    | None => Normal
    end ->
  runMatcher (writeRouterVerb t verb 0 (OffNum 1)) pathname
  = Some match found with
         | Some r => Some r
         | None => trie_catchAll t
         end.
Proof.
  intros Hlong Hsegments. unfold runMatcher.
  rewrite (root_exec t verb pathname Hlong).
  now apply completion_with_tail.
Qed.

Lemma len_cons (c : ascii) (s : string) : JS.len (String c s) = 1 + JS.len s.
Proof.
  unfold JS.len. change (String.length (String c s)) with (S (String.length s)).
  lia.
Qed.

Lemma len_positive (s : string) : s <> EmptyString -> 0 < JS.len s.
Proof.
  intros H. destruct s; [congruence | rewrite len_cons].
  pose proof (len_nonneg s). lia.
Qed.

(** At the root, for a pathname of one segment, the matcher returns by
    the same priority. *)
Lemma root_priority (t : RouteTrie) (verb : HttpVerb) (segment : string)
    (trailing : bool) :
  segment <> EmptyString -> noSlash segment ->
  runMatcher (writeRouterVerb t verb 0 (OffNum 1))
    ("/" ++ segment ++ (if trailing then "/" else EmptyString))
  = Some (lastSegmentRoute t segment).
Proof.
  intros Hne Hs. rewrite lastSegmentRoute_cases.
  apply root_completion.
  - rewrite len_app, len_app. change (JS.len "/") with 1.
    pose proof (len_positive segment Hne).
    pose proof (len_nonneg (if trailing then "/" else EmptyString)). lia.
  - rewrite (exec_segmentsCode_last t verb 0 (OffNum 1) 1 _ segment).
    + destruct (terminalRoute t _); [reflexivity |].
      destruct (dynamicRoute _); [| reflexivity].
      now destruct (JS.truthy segment).
    + reflexivity.
    + reflexivity.
    + exists "/", trailing. repeat split. exact Hs.
Qed.

Lemma root_inner_order (t : RouteTrie) (verb : HttpVerb)
    (segment rest : string) :
  noSlash segment -> rest <> EmptyString ->
  let pathname := "/" ++ segment ++ "/" ++ rest in
  exec {| env_pathname := pathname; env_vars := [] |}
    (writeRouterVerb t verb 0 (OffNum 1))
  = innerOrder t verb 0 (OffNum 1) (rootEnv pathname) 1 segment.
Proof.
  intros Hs Hrest pathname.
  rewrite root_exec.
  - apply segments_inner_order; [reflexivity | reflexivity |].
    exists "/", rest. repeat split; assumption.
  - unfold pathname. rewrite !len_app. change (JS.len "/") with 1.
    pose proof (len_nonneg segment). pose proof (len_positive rest Hrest).
    lia.
Qed.

Lemma find_map_key {A B} (key : A -> string) (f : A -> B) (k : string)
    (l : list A) (a : A) :
  find (fun x => (key x =? k)%string) l = Some a ->
  find (fun kb => (fst kb =? k)%string) (map (fun x => (key x, f x)) l)
  = Some (key a, f a).
Proof.
  induction l as [|x l IH]; [discriminate |].
  simpl. destruct (key x =? k)%string.
  - intros H. now inversion H.
  - exact IH.
Qed.

Lemma len_toLowerCase (s : string) : JS.len (JS.toLowerCase s) = JS.len s.
Proof. unfold JS.len. now rewrite length_toLowerCase. Qed.

(** Down a path of literal segments: every node on the way hands the
    pathname to the child whose key is the segment, and the last one
    returns the route that ends there. *)
Lemma literal_descend (keys segments : list string) :
  Forall2 segmentMatches segments keys ->
  forall t r verb level o env before trailing,
    literalRoute t keys = Some r ->
    env_pathname env = before ++ innerPath segments trailing ->
    JS.len before = o ->
    lenBound env ->
    exec env (segmentsCode t verb level (OffNum o))
    = Returned (Some (plainMatch verb r)).
Proof.
  induction 1 as [|segment key segments keys [Hne [Hs Hkey]] Hrest IH];
    intros t r verb level o env before trailing Hroute Hpath Ho Hlen;
    [discriminate |].
  destruct Hrest as [|segment2 key2 segments2 keys2 Hm2 Hrest2].
  - (* the last segment *)
    cbn [literalRoute] in Hroute. cbn [innerPath pathOf] in Hpath.
    rewrite (exec_segmentsCode_last t verb level (OffNum o) o env segment
               Hlen eq_refl).
    + now rewrite Hkey, Hroute.
    + exists before, trailing. repeat split; assumption.
  - (* a segment on the way *)
    cbn [literalRoute] in Hroute.
    destruct (subtreeChild t key) as [child|] eqn:Hchild; [| discriminate].
    unfold subtreeChild in Hchild.
    destruct (trie_static t) as [cs|] eqn:Hstatic; [| discriminate].
    assert (Hck : trie_key child = key).
    { apply find_some in Hchild. now apply String.eqb_eq. }
    unfold segmentsCode, childrenCode. rewrite Hstatic. cbn [isSome orb].
    destruct Hm2 as [Hne2 [Hs2 Hkey2]].
    apply (exec_segmentCode_inner verb env level (OffNum o) o segment Hlen
             eq_refl _ _ _ _ _ key
             (writeRouterVerb child verb (S level)
                (nextOffset (OffNum o) (S level) child))).
    + exists before, (segment2 ++ pathOf segments2 trailing).
      repeat split; try assumption.
      destruct segment2; [congruence | discriminate].
    + rewrite Hkey, <- Hck.
      apply (find_map_key trie_key
               (fun c => writeRouterVerb c verb (S level)
                           (nextOffset (OffNum o) (S level) c))).
      now rewrite Hck.
    + intros env' Hp' Hlen'.
      rewrite writeRouterVerb_inner. apply exec_app_returned.
      cbn [nextOffset].
      apply (IH child r verb (S level) _ env' (before ++ segment ++ "/")
               trailing Hroute).
      * rewrite Hp', Hpath. cbn [innerPath pathOf].
        now rewrite !app_assoc_str.
      * rewrite Hck, <- Hkey, len_toLowerCase, !len_app, Ho.
        change (JS.len "/") with 1. lia.
      * exact Hlen'.
Qed.

(** A route registered under literal segments is returned for every
    pathname made of segments whose lower-case forms are these keys, with
    or without a trailing slash. *)
Lemma literal_route_returned (t : RouteTrie) (verb : HttpVerb)
    (keys segments : list string) (trailing : bool) (r : Route) :
  literalRoute t keys = Some r ->
  Forall2 segmentMatches segments keys ->
  runMatcher (writeRouterVerb t verb 0 (OffNum 1)) (pathOf segments trailing)
  = Some (Some r).
Proof.
  intros Hroute Hmatch.
  destruct Hmatch as [|segment key segments keys Hm Hrest]; [discriminate |].
  assert (Hall : Forall2 segmentMatches (segment :: segments) (key :: keys))
    by now constructor.
  apply (root_completion t verb _ (Some r)).
  - cbn [pathOf]. rewrite len_app, len_app. change (JS.len "/") with 1.
    destruct Hm as [Hne _]. pose proof (len_positive segment Hne).
    pose proof (len_nonneg (pathOf segments trailing)). lia.
  - apply (literal_descend _ _ Hall t r verb 0 1 _ "/" trailing Hroute);
      reflexivity.
Qed.

(** The matcher of a verb always returns: the [switch] of [match], written
    without [break], never runs from one verb into the next. *)
Lemma exec_ends_in_return (code : list stmt) (m : option Match) :
  forall env, exec env (code +++ [Return m]) <> Normal.
Proof.
  induction code as [|s code IH]; intros env; [discriminate |].
  unfold exec in *. simpl.
  destruct (execStmt env s) as [env' [| |]]; try discriminate.
  apply IH.
Qed.

Lemma matcher_returns (t : RouteTrie) (verb : HttpVerb) (offset : Offset)
    (env : Env) :
  exec env (writeRouterVerb t verb 0 offset) <> Normal.
Proof.
  rewrite writeRouterVerb_root. unfold tailCode.
  destruct (trie_catchAll t) as [r|]; cbn [Nat.eqb];
    rewrite app_comm_cons; apply exec_ends_in_return.
Qed.

(** The generated [match] answers with the matcher of the first case whose
    verb is the method in lower case. *)
Lemma runMatch_case (matchers : list (HttpVerb * list stmt))
    (method pathname : string) (t : RouteTrie) (verb : HttpVerb) :
  find (fun c => (fst c =? JS.toLowerCase method)%string) matchers
  = Some (verb, writeRouterVerb t verb 0 (OffNum 1)) ->
  option_map (option_map match_route) (runMatch matchers method pathname)
  = runMatcher (writeRouterVerb t verb 0 (OffNum 1))
      (normalizePathname pathname).
Proof.
  intros Hfind. unfold runMatch, runMatcher.
  set (env := {| env_pathname := _; env_vars := _ |}).
  induction matchers as [|[v code] matchers IH]; [discriminate |].
  cbn [find fst] in Hfind. cbn [runCasesWith orb strictEq].
  rewrite (String.eqb_sym v) in Hfind.
  destruct (JS.toLowerCase method =? v)%string.
  - inversion Hfind. subst v code.
    pose proof (matcher_returns t verb (OffNum 1) env) as Hret.
    destruct (exec env (writeRouterVerb t verb 0 (OffNum 1))) as [|[m|]|];
      [congruence | reflexivity | reflexivity | reflexivity].
  - apply IH. exact Hfind.
Qed.

(** ** C1: literal children before the dynamic child *)

(** C1. The routes [/a/x], [/b/y] and [/$p/y], for [get].  The pathname
    [/c/y] is answered with the dynamic route [/$p/y], and [/b/y] with the
    static route [/b/y].  The pathname [/a/y] matches the dynamic route
    [/$p/y] and no static route.  With the literal children of the root
    inserted in the order [a], [b], the matcher answers it with the static
    route [/b/y]: the cases of the [switch] over the literal children are
    written without [break], so when the code of [a] has run to its end
    without a match, the code of [b] runs on the same pathname, before the
    dynamic child is tried.  With the children inserted in the order [b],
    [a], the answer is the dynamic route [/$p/y].  The objects returned
    are the ones written for these routes; the one of [/b/y] reads no
    variable. *)
Theorem sibling_literal_runs_before_dynamic :
  let matcher children pathname :=
    exec {| env_pathname := pathname; env_vars := [] |}
      (writeRouterVerb (siblingsOf children) "get" 0 (OffNum 1)) in
  let found route :=
    Returned (Some {| match_verb := "get"; match_route := route;
                      match_pathIndex := None |}) in
  matcher [aNode; bNode] "/c/y" = found pyRoute
  /\ matcher [aNode; bNode] "/b/y" = found byRoute
  /\ matcher [aNode; bNode] "/a/y" = found byRoute
  /\ matcher [bNode; aNode] "/a/y" = found pyRoute
  /\ route_path byRoute = "/b/y"
  /\ route_path pyRoute = "/$p/y"
  /\ show_Match {| match_verb := "get"; match_route := byRoute;
                   match_pathIndex := None |}
     = "{ handler: get2, params: {}, meta: {} }"
  /\ show_Match {| match_verb := "get"; match_route := pyRoute;
                   match_pathIndex := None |}
     = "{ handler: get3, params: { p: s1 }, meta: {} }".
Proof. vm_compute. repeat split. Qed.

(** The same through [runMatcher]. *)
Remark children_switch_falls_through :
  option_map (option_map route_path)
    (runMatcher (writeRouterVerb siblingsTrie "get" 0 (OffNum 1)) "/a/y")
  = Some (Some "/b/y").
Proof. vm_compute. reflexivity. Qed.

(** The object of a [return] can read a segment variable that the
    matcher does not declare.  A node declares [sN] in the block of a
    pathname that goes on only if its dynamic child has literal or
    dynamic children; for the route [/$a/$$], whose dynamic child has a
    catch-all only, the matcher holds no declaration of [s1], and the
    object written for the route reads it. *)
Remark object_reads_undeclared_segment :
  let route :=
    {| route_key := "$a.$$"; route_path := "/$a/$$"; route_index := 1;
       route_params := Some [{| param_name := "a"; param_index := 0 |}];
       route_handler := Some (sampleFile "rest" (Some ["get"]));
       route_page := None; route_layouts := []; route_middleware := [];
       route_meta := None |} in
  let trie :=
    Trie EmptyString None None
      (Some (Trie EmptyString None None None (Some route))) None in
  let found :=
    {| match_verb := "get"; match_route := route;
       match_pathIndex := Some "i1" |} in
  writeRouterVerb trie "get" 0 (OffNum 1)
  = [ Const VLen PathLength;
      If (Greater (Ref VLen) (Num 1))
        [ Const (VIndex 1) (Plus (IndexOfSlash (Num 1)) (Num 1));
          If (And (Ref (VIndex 1)) (StrictNe (Ref (VIndex 1)) (Ref VLen)))
            [ If (Slice (Num 1) (Minus (Ref (VIndex 1)) (Num 1)))
                [Return (Some found)] None ]
            None ]
        None;
      Return None ]
  /\ exec {| env_pathname := "/x/y"; env_vars := [] |}
       (writeRouterVerb trie "get" 0 (OffNum 1))
     = Returned (Some found)
  /\ show_Match found = "{ handler: get1, params: { a: s1 }, meta: {} }".
Proof. repeat split. Qed.

(** * Further properties of the file *)

(** ** [stripTsExtension] *)

Lemma lastChar_app (c : ascii) (a b : string) :
  lastChar c (a ++ b)
  = match lastChar c b with
    | Some j => Some (String.length a + j)%nat
    | None => lastChar c a
    end.
Proof.
  induction a as [|x a IH]; simpl.
  - now destruct (lastChar c b).
  - rewrite IH. destruct (lastChar c b); [reflexivity |].
    now destruct (lastChar c a).
Qed.

Lemma lastChar_split (c : ascii) (s : string) :
  forall j, lastChar c s = Some j ->
    exists a b, s = a ++ String c b /\ String.length a = j
                /\ lastChar c b = None.
Proof.
  induction s as [|x s IH]; intros j H; simpl in H; [discriminate |].
  destruct (lastChar c s) as [k|] eqn:E.
  - inversion H. subst j. destruct (IH k eq_refl) as [a [b [Hs [Hl Hb]]]].
    exists (String x a), b. simpl. now rewrite Hs at 1; rewrite Hl.
  - destruct (Ascii.eqb_spec x c); [| discriminate].
    inversion H. subst. exists EmptyString, s. repeat split. exact E.
Qed.

Lemma ts_has_no_dot (ext : string) :
  JS.toLowerCase ext = "ts" -> lastChar "." ext = None.
Proof.
  destruct ext as [|c1 [|c2 [|c3 r]]]; try discriminate.
  simpl. intros H. inversion H as [[H1 H2]].
  destruct (Ascii.eqb_spec c2 "."); [subst; discriminate |].
  destruct (Ascii.eqb_spec c1 "."); [subst; discriminate | reflexivity].
Qed.

Lemma stripTs_of_split (a b : string) :
  lastChar "." b = None ->
  stripTsExtension (a ++ String "." b)
  = if (JS.toLowerCase b =? "ts")%string then a else a ++ String "." b.
Proof.
  intros Hb. unfold stripTsExtension, lastIndexOf.
  rewrite lastChar_app. simpl lastChar. rewrite Hb.
  destruct (Ascii.eqb_spec "." "."); [| congruence].
  rewrite Nat.add_0_r.
  destruct (Z.of_nat (String.length a) =? -1) eqn:Hneg;
    [apply Z.eqb_eq in Hneg; lia |].
  cbn [negb].
  assert (Hext : JS.sliceFrom (a ++ String "." b) (Z.of_nat (String.length a) + 1) = b).
  { unfold JS.sliceFrom.
    change (a ++ String "." b) with (a ++ "." ++ b).
    rewrite <- app_assoc_str.
    replace (Z.of_nat (String.length a) + 1) with (JS.len (a ++ "."))
      by (rewrite len_app; reflexivity).
    apply slice_to_end. }
  rewrite Hext. destruct (JS.toLowerCase b =? "ts")%string; [| reflexivity].
  pose proof (slice_segment EmptyString a (String "." b)) as H.
  cbn [append] in H. change (JS.len EmptyString) with 0 in H.
  rewrite Z.add_0_l in H. exact H.
Qed.

(** X1. Adding a [.ts] extension, in any case of letters, and stripping it
    again gives the path back. *)
Theorem stripTsExtension_round_trip :
  forall path ext,
    JS.toLowerCase ext = "ts" ->
    stripTsExtension (path ++ "." ++ ext) = path.
Proof.
  intros path ext Hext.
  change (path ++ "." ++ ext) with (path ++ String "." ext).
  rewrite (stripTs_of_split path ext (ts_has_no_dot ext Hext)).
  now rewrite Hext.
Qed.

Lemma stripTsExtension_round_trip_witness :
  JS.toLowerCase "Ts" = "ts"
  /\ stripTsExtension ("src/routes/+handler" ++ "." ++ "Ts")
     = "src/routes/+handler".
Proof.
  split; [reflexivity |].
  exact (stripTsExtension_round_trip "src/routes/+handler" "Ts" eq_refl).
Defined.

(** X2. [stripTsExtension] returns the path as it is, or the path without
    its last extension when that extension is [ts] up to case; a path
    without a dot is never changed. *)
Theorem stripTsExtension_only_strips_ts :
  forall path,
    (stripTsExtension path = path
     \/ exists ext,
          path = stripTsExtension path ++ "." ++ ext
          /\ JS.toLowerCase ext = "ts")
    /\ (lastIndexOf path "." = -1 -> stripTsExtension path = path).
Proof.
  intros path. split.
  - destruct (lastChar "." path) as [j|] eqn:E.
    + destruct (lastChar_split "." path j E) as [a [b [Hs [_ Hb]]]].
      rewrite Hs, (stripTs_of_split a b Hb).
      destruct (JS.toLowerCase b =? "ts")%string eqn:Hts; [| now left].
      right. exists b. split; [reflexivity | now apply String.eqb_eq].
    + left. unfold stripTsExtension, lastIndexOf. now rewrite E.
  - intros H. unfold stripTsExtension. now rewrite H.
Qed.

(** ** [renderRouteTemplate] *)

Lemma writeRouteTemplateTag_nest (layouts : list RoutableFile)
    (page : RoutableFile) :
  forall index,
    writeRouteTemplateTag (layouts ++ [page]) index
    = (layoutImports layouts index
       +++ ["import page from './" ++ file_importPath page ++ "';"],
       nestTags layouts index).
Proof.
  induction layouts as [|file rest IH]; intros index; [reflexivity |].
  cbn [app writeRouteTemplateTag layoutImports nestTags].
  rewrite IH. now destruct rest.
Qed.

Lemma length_indentLines (ls : list string) :
  List.length (indentLines ls) = List.length ls.
Proof. apply length_map. Qed.

Lemma length_nestTags (layouts : list RoutableFile) :
  forall index,
    List.length (nestTags layouts index) = (2 * List.length layouts + 1)%nat.
Proof.
  induction layouts as [|file rest IH]; intros index; [reflexivity |].
  cbn [nestTags List.length]. rewrite List.length_app, length_indentLines, IH.
  simpl. lia.
Qed.

Lemma length_layoutImports (layouts : list RoutableFile) :
  forall index, List.length (layoutImports layouts index) = List.length layouts.
Proof.
  induction layouts as [|file rest IH]; intros index; [reflexivity |].
  simpl. now rewrite IH.
Qed.

(** X3. For a route with a page the template is rendered: it imports the
    layouts as [layout1], [layout2], ... in declared order and the page
    last, as [page]; its tags nest the layouts from the outermost one
    around the page, each opened tag closed again, on [2n + 1] lines for
    [n] layouts. *)
Theorem renderRouteTemplate_nests_layouts :
  forall vfp mrp route page,
    route_page route = Some page ->
    exists m,
      renderRouteTemplate vfp mrp route = Ok m
      /\ tpl_imports m
         = layoutImports (route_layouts route) 1
           +++ ["import page from './" ++ file_importPath page ++ "';"]
      /\ tpl_body m = EmptyString :: nestTags (route_layouts route) 1
      /\ List.length (tpl_imports m) = S (List.length (route_layouts route))
      /\ List.length (tpl_body m)
         = (2 * List.length (route_layouts route) + 2)%nat.
Proof.
  intros vfp mrp route page Hp. unfold renderRouteTemplate. rewrite Hp.
  rewrite writeRouteTemplateTag_nest. eexists. split; [reflexivity |].
  cbn [tpl_imports tpl_body List.length].
  rewrite List.length_app, length_layoutImports, length_nestTags. cbn [List.length].
  repeat split; lia.
Qed.

Lemma renderRouteTemplate_nests_layouts_witness :
  let route :=
    {| route_key := "item"; route_path := "/item"; route_index := 1;
       route_params := None; route_handler := None;
       route_page := Some (sampleFile "page" None);
       route_layouts := [sampleFile "outer" None; sampleFile "inner" None];
       route_middleware := []; route_meta := None |} in
  route_page route = Some (sampleFile "page" None)
  /\ exists m,
       renderRouteTemplate "virtual:marko-run" "__marko-run__" route = Ok m
       /\ tpl_body m
          = [ EmptyString; "<layout1 ...input>"; "  <layout2 ...input>";
              "    <page ...input />"; "  </>"; "</>" ].
Proof.
  intros route. split; [reflexivity |].
  destruct (renderRouteTemplate_nests_layouts "virtual:marko-run"
              "__marko-run__" route _ eq_refl) as [m [Hm [_ [Hbody _]]]].
  exists m. split; [exact Hm | exact Hbody].
Defined.

(** ** [renderRouteEntry] and [writeRouteEntryHandler] *)

Lemma writeRouteEntryHandler_result (route : Route) (verb : HttpVerb) :
  if supportsVerb route verb then
    exists f,
      writeRouteEntryHandler route verb = Ok f
      /\ fn_name f = verb ++ JS.showNum (route_index route)
      /\ fn_params f
         = (if isSome (route_page route) then ["context"; "buildInput"]
            else ["context"])
  else
    writeRouteEntryHandler route verb
    = Err ("Route " ++ route_key route ++ " has no handler for " ++ verb
           ++ " requests").
Proof.
  unfold supportsVerb, pageApplies, writeRouteEntryHandler, chainHead.
  destruct (route_page route) as [page|];
    destruct (verb =? "get")%string;
    try destruct (handlerIncludes (route_handler route) verb);
    destruct (route_handler route) as [h|];
    destruct (0 <? List.length (route_middleware route))%nat;
    cbn [isSome andb orb bind hasBody];
    try reflexivity; eexists; repeat split.
Qed.

Lemma writeHandlers_result (route : Route) (verbs : list HttpVerb) :
  if forallb (supportsVerb route) verbs then
    exists fs,
      writeHandlers route verbs = Ok fs
      /\ map fn_name fs
         = map (fun verb => verb ++ JS.showNum (route_index route)) verbs
      /\ Forall2 (fun verb f => writeRouteEntryHandler route verb = Ok f)
           verbs fs
  else exists message, writeHandlers route verbs = Err message.
Proof.
  induction verbs as [|verb verbs IH]; cbn [forallb writeHandlers map].
  - exists []. repeat split. constructor.
  - pose proof (writeRouteEntryHandler_result route verb) as Hverb.
    destruct (supportsVerb route verb); cbn [andb].
    + destruct Hverb as [f [Hf [Hname _]]]. rewrite Hf. cbn [bind].
      destruct (forallb (supportsVerb route) verbs).
      * destruct IH as [fs [Hfs [Hnames Hall]]]. rewrite Hfs. cbn [bind].
        exists (f :: fs). cbn [map]. rewrite Hname, Hnames.
        repeat split. now constructor.
      * destruct IH as [message Hfs]. rewrite Hfs. now exists message.
    + rewrite Hverb. cbn [bind]. now eexists.
Qed.

(** X4. A route entry is rendered exactly when [getVerbs] answers a list
    of verbs and the route has, for each of them, the page fallback or a
    handler; the module then holds one dispatch function per verb, in the
    order of the verbs, named by the verb and the route's index. *)
Theorem renderRouteEntry_succeeds_iff :
  forall vfp mrp seq vrp (getVerbs : Route -> option (list HttpVerb)) route,
    ((exists m, renderRouteEntry vfp mrp seq vrp getVerbs route = Ok m)
     <-> exists verbs,
           getVerbs route = Some verbs
           /\ forallb (supportsVerb route) verbs = true)
    /\ forall m verbs,
         renderRouteEntry vfp mrp seq vrp getVerbs route = Ok m ->
         getVerbs route = Some verbs ->
         map fn_name (entry_functions m)
         = map (fun verb => verb ++ JS.showNum (route_index route)) verbs.
Proof.
  intros vfp mrp seq vrp getVerbs route.
  unfold renderRouteEntry.
  destruct (getVerbs route) as [verbs|].
  - pose proof (writeHandlers_result route verbs) as H.
    destruct (forallb (supportsVerb route) verbs) eqn:Hall.
    + destruct H as [fs [Hfs [Hnames _]]]. rewrite Hfs. cbn [bind].
      split.
      * split; [intros _; now exists verbs | intros _; now eexists].
      * intros m verbs' Hm Hv. inversion Hm. inversion Hv. subst.
        exact Hnames.
    + destruct H as [message Hfs]. rewrite Hfs. cbn [bind]. split.
      * split; [intros [m Hm]; discriminate |].
        intros [verbs' [Hv Hall']]. inversion Hv. subst. congruence.
      * intros m verbs' Hm. discriminate.
  - split.
    + split; [intros [m Hm]; discriminate | intros [verbs [Hv _]]; discriminate].
    + intros m verbs Hm. discriminate.
Qed.

Lemma renderRouteEntry_succeeds_iff_witness :
  let getVerbs := fun _ : Route => Some ["get"; "post"] in
  exists m,
    renderRouteEntry "virtual:marko-run" "__marko-run__" "?marko-server-entry"
      "virtual:marko-run/internal" getVerbs sampleChainRoute = Ok m
    /\ map fn_name (entry_functions m) = ["get3"; "post3"].
Proof.
  intros getVerbs. eexists. split; [reflexivity |].
  exact (proj2 (renderRouteEntry_succeeds_iff "virtual:marko-run"
                  "__marko-run__" "?marko-server-entry"
                  "virtual:marko-run/internal" getVerbs sampleChainRoute)
           _ ["get"; "post"] eq_refl eq_refl).
Defined.

(** ** The body of a dispatch function *)

Lemma chainLoop_added (m0 : RoutableFile) (ms : list RoutableFile) :
  forall k vars,
    (k <= List.length ms)%nat ->
    let vars' := chainLoop (m0 :: ms) (S k) vars in
    writer vars' = writer vars
    /\ exists wraps next,
         continuations vars'
         = continuations vars +++ wraps +++ [ReturnCall (mwareName m0) next]
         /\ forallb isConst wraps = true
         /\ List.length wraps = k
         /\ flat_map calledName wraps = rev (map mwareName (firstn k ms))
         /\ flat_map nextName (wraps +++ [ReturnCall (mwareName m0) next])
            = currentName vars
              :: map (fun m => "__" ++ mwareName m) (rev (firstn k ms)).
Proof.
  induction k as [|k IH]; intros vars Hk; cbn zeta.
  - split; [reflexivity |]. exists [], (currentName vars).
    repeat split; reflexivity.
  - rewrite chainLoop_step.
    destruct (nth_error (m0 :: ms) (S k)) as [m|] eqn:Hm.
    2:{ apply nth_error_None in Hm. simpl in Hm. lia. }
    simpl in Hm.
    change (0 <? S k)%nat with true. cbn iota.
    change (writeMiddleware ("mware" ++ file_id m) (currentName vars)
              (Some ("__" ++ "mware" ++ file_id m)))
      with (ConstCall ("__" ++ mwareName m) (mwareName m) (currentName vars)).
    match goal with
    | |- context [chainLoop _ (S k) ?v] =>
        destruct (IH v ltac:(lia))
          as [Hw [wraps [next [Hc [Hconst [Hlen [Hcalled Hnext]]]]]]]
    end.
    cbn zeta in Hw, Hc. cbn [currentName] in Hnext.
    rewrite Hw, Hc. cbn [writer continuations].
    split; [reflexivity |].
    exists (ConstCall ("__" ++ mwareName m) (mwareName m) (currentName vars)
            :: wraps), next.
    rewrite (firstn_snoc ms k m Hm), map_app, !rev_app_distr.
    cbn [map rev app flat_map calledName nextName forallb isConst andb
         List.length].
    rewrite Hconst, Hlen, Hcalled, Hnext, <- app_assoc.
    repeat split; reflexivity.
Qed.

Lemma not_noContent_wrapped (ms : list RoutableFile) :
  ~ In "noContent" (map (fun m => "__" ++ mwareName m) ms).
Proof.
  intros H. apply in_map_iff in H. destruct H as [m [H _]]. discriminate.
Qed.

Lemma Ok_inj {A} (a b : A) : Ok a = Ok b -> a = b.
Proof. intros H. now inversion H. Qed.

(** What [writeRouteEntryHandler] writes: declarations, then one return;
    one call for each layer, the innermost first; and [noContent] is
    passed on only where the page does not answer. *)
Lemma writeRouteEntryHandler_body (route : Route) (verb : HttpVerb)
    (f : EntryFunction) :
  writeRouteEntryHandler route verb = Ok f ->
  exists consts ret,
    fn_body f = consts +++ [ret]
    /\ forallb isConst consts = true
    /\ isConst ret = false
    /\ S (List.length consts)
       = (List.length (route_middleware route)
          + List.length (handlerStep route verb)
          + (if pageApplies route verb then 1 else 0))%nat
    /\ flat_map calledName (fn_body f)
       = rev (middlewareNames route +++ handlerStep route verb)
    /\ (In "noContent" (flat_map nextName (fn_body f)) ->
        pageApplies route verb = false).
Proof.
  intros Hf.
  unfold writeRouteEntryHandler, chainHead in Hf.
  unfold handlerStep, pageApplies, middlewareNames.
  destruct (route_middleware route) as [|m0 ms] eqn:Hm.
  - destruct (route_page route) as [page|];
      destruct (verb =? "get")%string;
      try destruct (handlerIncludes (route_handler route) verb);
      destruct (route_handler route) as [h|];
      cbn -[chainLoop] in Hf; try discriminate Hf;
      apply Ok_inj in Hf; subst f;
      cbn [fn_body isSome andb];
      first [ eexists [_], _; split; [reflexivity |]
            | eexists [], _; split; [reflexivity |] ];
      cbn; repeat split; try reflexivity;
      intros H; repeat (destruct H as [H | H]; try discriminate H);
      try contradiction; try reflexivity.
  - pose proof (fun vars =>
                  chainLoop_added m0 ms (List.length ms) vars (le_n _)) as Hl.
    cbn zeta in Hl. rewrite firstn_all in Hl.
    change (0 <? List.length (m0 :: ms))%nat with true in Hf.
    destruct (route_page route) as [page|];
      destruct (verb =? "get")%string;
      try destruct (handlerIncludes (route_handler route) verb);
      destruct (route_handler route) as [h|];
      cbn -[chainLoop List.length] in Hf; try discriminate Hf;
      apply Ok_inj in Hf; subst f;
      cbn [fn_body isSome andb];
      change (List.length (m0 :: ms)) with (S (List.length ms)).
    all: match goal with
      | |- context [chainLoop _ _ ?v] =>
          destruct (Hl v) as [Hw [wraps [next [Hc [Hconst [Hlen [Hcalled Hnext]]]]]]]
      end.
    all: rewrite Hw, Hc;
      cbn [writer continuations currentName] in Hnext |- *;
      rewrite app_nil_r.
    all: match goal with
      | |- context [(?head +++ ?w +++ [?r])] => exists (head +++ w), r
      end.
    all:  (split; [now rewrite <- app_assoc |]).
    all:  rewrite forallb_app, Hconst, List.length_app, Hlen;
      rewrite (flat_map_app nextName), Hnext, !(flat_map_app calledName),
        Hcalled.
    all:  cbn [forallb isConst andb writePageResponse writeMiddleware wrapName
           JS.truthy flat_map calledName nextName app List.length map rev].
    all: rewrite ?rev_app_distr, ?app_nil_r; cbn [rev app].
    all: repeat split; try reflexivity; try lia.
    all: intros H; try reflexivity.
    all: repeat (destruct H as [H | H]; try discriminate H).
    all: now apply not_noContent_wrapped in H.
Qed.

(** X5. A dispatch function that the compiler emits is a run of [const]
    declarations closed by one [return], with nothing after it; it calls
    each layer once, the handler step first and the first declared
    middleware last; and it has one statement for each middleware, one for
    the handler step and one for the page where the page answers. *)
Theorem dispatch_function_single_return :
  forall route verb f,
    writeRouteEntryHandler route verb = Ok f ->
    exists consts ret,
      fn_body f = consts +++ [ret]
      /\ forallb isConst consts = true
      /\ isConst ret = false
      /\ flat_map calledName (fn_body f)
         = rev (middlewareNames route +++ handlerStep route verb)
      /\ List.length (fn_body f)
         = (List.length (route_middleware route)
            + List.length (handlerStep route verb)
            + (if pageApplies route verb then 1 else 0))%nat.
Proof.
  intros route verb f Hf.
  destruct (writeRouteEntryHandler_body route verb f Hf)
    as [consts [ret [Hbody [Hconsts [Hret [Hlen [Hcalled _]]]]]]].
  exists consts, ret. repeat split; try assumption.
  rewrite Hbody, List.length_app. cbn [List.length]. lia.
Qed.

Lemma dispatch_function_single_return_witness :
  exists f,
    writeRouteEntryHandler sampleChainRoute "get" = Ok f
    /\ exists consts ret,
         fn_body f = consts +++ [ret]
         /\ forallb isConst consts = true
         /\ isConst ret = false
         /\ flat_map calledName (fn_body f)
            = ["getHandler"; "mware5"; "mware2"; "mware1"]
         /\ List.length (fn_body f) = 5%nat.
Proof.
  eexists. split; [reflexivity |].
  exact (dispatch_function_single_return sampleChainRoute "get" _ eq_refl).
Defined.

(** ** The names a route entry refers to *)

Lemma Forall2_In_r {A B} (P : A -> B -> Prop) (l : list A) (l' : list B) :
  Forall2 P l l' ->
  forall b, In b l' -> exists a, In a l /\ P a b.
Proof.
  induction 1 as [|a b l l' Hab _ IH]; intros b0 Hb; [contradiction |].
  destruct Hb as [<- | Hb].
  - exists a. split; [now left | exact Hab].
  - destruct (IH b0 Hb) as [a0 [Ha0 HP]]. exists a0. split; [now right | exact HP].
Qed.

Lemma two_members (verbs : list HttpVerb) (a b : HttpVerb) :
  In a verbs -> In b verbs -> a <> b -> (1 <? List.length verbs)%nat = true.
Proof.
  intros Ha Hb Hab. apply Nat.ltb_lt.
  destruct verbs as [|x [|y rest]]; cbn [List.length]; try lia.
  - contradiction.
  - destruct Ha as [<- | []], Hb as [<- | []]. congruence.
Qed.

Section EntryNames.

Variables virtualFilePrefix markoRunFilePrefix : string.
Variables serverEntryQuery virtualRuntimePrefix : string.
Variable getVerbs : Route -> option (list HttpVerb).

(** The functions of an entry are those of its verbs. *)
Lemma entry_functions_verbs (route : Route) (verbs : list HttpVerb)
    (m : RouteEntryModule) :
  renderRouteEntry virtualFilePrefix markoRunFilePrefix serverEntryQuery
    virtualRuntimePrefix getVerbs route = Ok m ->
  getVerbs route = Some verbs ->
  forall f, In f (entry_functions m) ->
    exists verb, In verb verbs /\ writeRouteEntryHandler route verb = Ok f.
Proof.
  unfold renderRouteEntry. intros Hm Hv f Hin. rewrite Hv in Hm.
  pose proof (writeHandlers_result route verbs) as H.
  destruct (forallb (supportsVerb route) verbs).
  - destruct H as [fs [Hfs [_ Hall]]]. rewrite Hfs in Hm. cbn [bind] in Hm.
    apply Ok_inj in Hm. subst m. cbn [entry_functions] in Hin.
    exact (Forall2_In_r _ _ _ Hall f Hin).
  - destruct H as [message Hfs]. rewrite Hfs in Hm. discriminate.
Qed.

(** The line that imports from the runtime module lists [normalize] for a
    route with a handler, [call] for one with a handler or middleware, and
    [noContent] for one without a page or with more than one verb. *)
Lemma entry_runtime_import (route : Route) (verbs : list HttpVerb)
    (m : RouteEntryModule) :
  renderRouteEntry virtualFilePrefix markoRunFilePrefix serverEntryQuery
    virtualRuntimePrefix getVerbs route = Ok m ->
  getVerbs route = Some verbs ->
  exists names,
    (forall name, In name names ->
       In (runtimeImport virtualRuntimePrefix names) (entry_imports m))
    /\ (isSome (route_handler route) = true -> In "normalize" names)
    /\ (isSome (route_handler route)
        || (0 <? List.length (route_middleware route))%nat = true ->
        In "call" names)
    /\ (negb (isSome (route_page route)) || (1 <? List.length verbs)%nat
        = true -> In "noContent" names).
Proof.
  unfold renderRouteEntry. intros Hm Hv. rewrite Hv in Hm.
  destruct (writeHandlers route verbs) as [fs|message]; [| discriminate].
  cbn [bind] in Hm. apply Ok_inj in Hm. subst m.
  cbn [entry_imports]. cbv zeta.
  set (names :=
         (if isSome (route_handler route) then ["normalize"] else [])
         +++ (if isSome (route_handler route)
                 || (0 <? List.length (route_middleware route))%nat
              then ["call"] else [])
         +++ (if negb (isSome (route_page route))
                 || (1 <? List.length verbs)%nat
              then ["noContent"] else [])).
  exists names. split.
  - generalize names. intros [|n ns] name Hin; [contradiction |].
    apply in_or_app. left. left. reflexivity.
  - unfold names.
    repeat split; intros H; rewrite ?H; rewrite ?in_app_iff; cbn; auto.
Qed.

(** X6. The names of the runtime module that a route entry uses are the
    ones it imports: [normalize] where it declares handlers, [call]
    where a dispatch function calls a layer, and, if [get] is among the
    verbs of a route with a page, [noContent] where a dispatch function
    passes it on. *)
Theorem runtime_names_are_imported :
  forall route verbs m,
    renderRouteEntry virtualFilePrefix markoRunFilePrefix serverEntryQuery
    virtualRuntimePrefix getVerbs route = Ok m ->
    getVerbs route = Some verbs ->
    (isSome (route_page route) = true -> In "get" verbs) ->
    exists names,
      (forall name, In name names ->
         In (runtimeImport virtualRuntimePrefix names) (entry_imports m))
      /\ (entry_handlers m <> [] -> In "normalize" names)
      /\ (forall f s, In f (entry_functions m) -> In s (fn_body f) ->
            calledName s <> [] -> In "call" names)
      /\ (forall f s, In f (entry_functions m) -> In s (fn_body f) ->
            In "noContent" (nextName s) -> In "noContent" names).
Proof.
  intros route verbs m Hm Hv Hget.
  destruct (entry_runtime_import route verbs m Hm Hv)
    as [names [Hline [Hnormalize [Hcall HnoContent]]]].
  exists names. split; [exact Hline |]. split; [| split].
  - intros Hne. apply Hnormalize.
    unfold renderRouteEntry in Hm. rewrite Hv in Hm.
    destruct (writeHandlers route verbs) as [fs|message]; [| discriminate].
    cbn [bind] in Hm. apply Ok_inj in Hm. subst m.
    cbn [entry_handlers] in Hne.
    destruct (route_handler route); [reflexivity | now contradiction Hne].
  - intros f s Hf Hs Hcalled. apply Hcall.
    destruct (entry_functions_verbs route verbs m Hm Hv f Hf)
      as [verb [_ Hfn]].
    destruct (writeRouteEntryHandler_body route verb f Hfn)
      as [_ [_ [_ [_ [_ [_ [Hnames _]]]]]]].
    assert (Hin : exists name, In name (flat_map calledName (fn_body f))).
    { destruct (calledName s) as [|name rest] eqn:E; [congruence |].
      exists name. apply in_flat_map. exists s. split; [exact Hs |].
      rewrite E. now left. }
    destruct Hin as [name Hin]. rewrite Hnames in Hin.
    apply in_rev, in_app_or in Hin. destruct Hin as [Hin | Hin].
    + unfold middlewareNames in Hin.
      destruct (route_middleware route); [contradiction |].
      apply orb_true_r.
    + unfold handlerStep, handlerIncludes in Hin.
      destruct (route_handler route); [reflexivity |].
      destruct (pageApplies route verb); contradiction.
  - intros f s Hf Hs Hnext. apply HnoContent.
    destruct (entry_functions_verbs route verbs m Hm Hv f Hf)
      as [verb [Hverb Hfn]].
    destruct (writeRouteEntryHandler_body route verb f Hfn)
      as [_ [_ [_ [_ [_ [_ [_ Hpage]]]]]]].
    assert (Hno : pageApplies route verb = false).
    { apply Hpage, in_flat_map. now exists s. }
    unfold pageApplies in Hno.
    destruct (isSome (route_page route)) eqn:Hp; [| reflexivity].
    cbn [negb orb andb] in Hno |- *.
    apply (two_members verbs "get" verb (Hget eq_refl) Hverb).
    intros <-. discriminate.
Qed.

(** X7. A layer that a dispatch function calls is the handler of one of
    the entry's verbs or a middleware of the route; the entry imports the
    route's middleware from the middleware module in one line, and the
    middleware module, rendered for a list that holds them, exports each
    under the name the entry calls. *)
Theorem called_middleware_is_exported :
  forall route verbs m all,
    renderRouteEntry virtualFilePrefix markoRunFilePrefix serverEntryQuery
    virtualRuntimePrefix getVerbs route = Ok m ->
    getVerbs route = Some verbs ->
    incl (route_middleware route) all ->
    forall f s name,
      In f (entry_functions m) -> In s (fn_body f) ->
      In name (calledName s) ->
      (exists verb, In verb verbs /\ name = verb ++ "Handler")
      \/ (exists file,
            In file (route_middleware route)
            /\ name = mwareName file
            /\ In ("import { " ++ JS.join ", " (middlewareNames route)
                   ++ " } from '" ++ virtualFilePrefix ++ "/"
                   ++ markoRunFilePrefix ++ "middleware.js';")
                 (entry_imports m)
            /\ In ("export const " ++ name ++ " = normalize(middleware"
                   ++ file_id file ++ ");")
                 (mw_body (renderMiddleware virtualFilePrefix
                             markoRunFilePrefix all))
            /\ mw_header (renderMiddleware virtualFilePrefix
                            markoRunFilePrefix all)
               = "// " ++ virtualFilePrefix ++ "/" ++ markoRunFilePrefix
                 ++ "middleware.js").
Proof.
  intros route verbs m all Hm Hv Hincl f s name Hf Hs Hname.
  destruct (entry_functions_verbs route verbs m Hm Hv f Hf)
    as [verb [Hverb Hfn]].
  destruct (writeRouteEntryHandler_body route verb f Hfn)
    as [_ [_ [_ [_ [_ [_ [Hnames _]]]]]]].
  assert (Hin : In name (flat_map calledName (fn_body f))).
  { apply in_flat_map. now exists s. }
  rewrite Hnames in Hin. apply in_rev, in_app_or in Hin.
  destruct Hin as [Hin | Hin].
  - right. unfold middlewareNames in Hin. apply in_map_iff in Hin.
    destruct Hin as [file [<- Hfile]]. exists file.
    split; [exact Hfile |]. split; [reflexivity |]. split; [| split].
    + unfold renderRouteEntry in Hm. rewrite Hv in Hm.
      destruct (writeHandlers route verbs) as [fs|message]; [| discriminate].
      cbn [bind] in Hm. apply Ok_inj in Hm. subst m.
      cbn [entry_imports]. cbv zeta.
      apply in_or_app. right. apply in_or_app. left.
      unfold middlewareNames.
      destruct (route_middleware route) as [|m0 ms] eqn:E; [contradiction |].
      left. reflexivity.
    + right. apply in_map_iff. exists file. split; [reflexivity |].
      now apply Hincl.
    + reflexivity.
  - left. exists verb. split; [exact Hverb |].
    unfold handlerStep in Hin.
    destruct (pageApplies route verb);
      [destruct (handlerIncludes (route_handler route) verb)
      | destruct (isSome (route_handler route))];
      try contradiction; destruct Hin as [<- | []]; reflexivity.
Qed.

(** X8. If every verb of the entry that the page does not answer is one
    of the handler file's verbs, then a handler that a dispatch function
    calls is declared in the entry, as [normalize] of the export that the
    entry imports from the handler file under the verb's upper-case
    name. *)
Theorem called_handlers_are_declared :
  forall route verbs m,
    renderRouteEntry virtualFilePrefix markoRunFilePrefix serverEntryQuery
    virtualRuntimePrefix getVerbs route = Ok m ->
    getVerbs route = Some verbs ->
    (forall verb, In verb verbs -> pageApplies route verb = false ->
       handlerIncludes (route_handler route) verb = true) ->
    forall verb,
      In verb verbs ->
      handlerStep route verb = [verb ++ "Handler"] ->
      In ("const " ++ verb ++ "Handler = normalize(" ++ JS.toUpperCase verb
          ++ ");") (entry_handlers m)
      /\ exists h hverbs,
           route_handler route = Some h
           /\ file_verbs h = Some hverbs
           /\ In verb hverbs
           /\ In ("import { " ++ JS.join ", " (map JS.toUpperCase hverbs)
                  ++ " } from './" ++ file_importPath h ++ "';")
                (entry_imports m).
Proof.
  intros route verbs m Hm Hv Hcovered verb Hverb Hstep.
  assert (Hinc : handlerIncludes (route_handler route) verb = true).
  { unfold handlerStep in Hstep.
    destruct (pageApplies route verb) eqn:Hp; [| now apply Hcovered].
    destruct (handlerIncludes (route_handler route) verb);
      [reflexivity | discriminate]. }
  unfold handlerIncludes in Hinc.
  destruct (route_handler route) as [h|] eqn:Hh; [| discriminate].
  destruct (file_verbs h) as [hverbs|] eqn:Hfv; [| discriminate].
  apply existsb_exists in Hinc. destruct Hinc as [v [Hin Heq]].
  apply String.eqb_eq in Heq. subst v.
  unfold renderRouteEntry in Hm. rewrite Hv in Hm.
  destruct (writeHandlers route verbs) as [fs|message]; [| discriminate].
  cbn [bind] in Hm. apply Ok_inj in Hm. subst m.
  cbn [entry_imports entry_handlers]. cbv zeta. rewrite Hh, Hfv.
  destruct hverbs as [|v0 vs] eqn:E; [contradiction |]. rewrite <- E in *.
  split.
  - right. apply in_map_iff. exists verb. split; [reflexivity | exact Hin].
  - exists h, hverbs. repeat split; try assumption.
    apply in_or_app. right. apply in_or_app. right. apply in_or_app. left.
    left. reflexivity.
Qed.

End EntryNames.

Lemma runtime_names_are_imported_witness :
  let getVerbs := fun _ : Route => Some ["get"; "post"] in
  exists m,
    renderRouteEntry "virtual:marko-run" "__marko-run__" "?marko-server-entry"
      "virtual:marko-run/internal" getVerbs sampleChainRoute = Ok m
    /\ exists names,
         (forall name, In name names ->
            In (runtimeImport "virtual:marko-run/internal" names)
              (entry_imports m))
         /\ (entry_handlers m <> [] -> In "normalize" names)
         /\ (forall f s, In f (entry_functions m) -> In s (fn_body f) ->
               calledName s <> [] -> In "call" names)
         /\ (forall f s, In f (entry_functions m) -> In s (fn_body f) ->
               In "noContent" (nextName s) -> In "noContent" names).
Proof.
  intros getVerbs. eexists. split; [reflexivity |].
  exact (runtime_names_are_imported "virtual:marko-run" "__marko-run__"
           "?marko-server-entry" "virtual:marko-run/internal" getVerbs
           sampleChainRoute ["get"; "post"] _ eq_refl eq_refl
           (fun _ => or_introl eq_refl)).
Defined.

Lemma called_middleware_is_exported_witness :
  let getVerbs := fun _ : Route => Some ["get"; "post"] in
  exists m,
    renderRouteEntry "virtual:marko-run" "__marko-run__" "?marko-server-entry"
      "virtual:marko-run/internal" getVerbs sampleChainRoute = Ok m
    /\ In "export const mware2 = normalize(middleware2);"
         (mw_body (renderMiddleware "virtual:marko-run" "__marko-run__"
                     (route_middleware sampleChainRoute)))
    /\ In ("import { mware1, mware2, mware5 } from "
           ++ "'virtual:marko-run/__marko-run__middleware.js';")
         (entry_imports m).
Proof.
  intros getVerbs. eexists. split; [reflexivity |].
  destruct (called_middleware_is_exported "virtual:marko-run" "__marko-run__"
              "?marko-server-entry" "virtual:marko-run/internal" getVerbs
              sampleChainRoute ["get"; "post"] _
              (route_middleware sampleChainRoute) eq_refl eq_refl
              (fun file H => H)
              _ (ConstCall "__mware2" "mware2" "__mware5") "mware2"
              (or_introl eq_refl)
              (or_intror (or_intror (or_intror (or_introl eq_refl))))
              (or_introl eq_refl))
    as [[verb [_ Hverb]] | [file [_ [Hfile [Himport [Hexport _]]]]]].
  - exfalso. destruct verb as [|c0 [|c1 [|c2 [|c3 [|c4 [|c5 [|c6 rest]]]]]]];
      discriminate Hverb.
  - injection Hfile as Hid. rewrite <- Hid in Hexport.
    split; [exact Hexport | exact Himport].
Defined.

Lemma called_handlers_are_declared_witness :
  let getVerbs := fun _ : Route => Some ["get"; "post"] in
  exists m,
    renderRouteEntry "virtual:marko-run" "__marko-run__" "?marko-server-entry"
      "virtual:marko-run/internal" getVerbs sampleChainRoute = Ok m
    /\ In "const postHandler = normalize(POST);" (entry_handlers m).
Proof.
  intros getVerbs. eexists. split; [reflexivity |].
  refine (proj1 (called_handlers_are_declared "virtual:marko-run"
                   "__marko-run__" "?marko-server-entry"
                   "virtual:marko-run/internal" getVerbs
                   sampleChainRoute ["get"; "post"] _ eq_refl eq_refl _
                   "post" (or_intror (or_introl eq_refl)) eq_refl)).
  intros verb [<- | [<- | []]] _; reflexivity.
Defined.

(** ** What a matcher can end in

    The lemmas of this section follow a property [Good] of completions
    through the code of a matcher: the conditions, [switch] values and
    declarations are evaluated, and the completion of the code is [Normal]
    or the completion of one of its [return] statements. *)

Section Completions.

Variable Good : Completion -> Prop.
Hypothesis Good_normal : Good Normal.

Lemma exec_app_good (a b : list stmt) :
  forall env,
    Good (exec env a) -> (forall env', Good (exec env' b)) ->
    Good (exec env (a +++ b)).
Proof.
  induction a as [|s a IH]; intros env Ha Hb; [apply Hb |].
  unfold exec in *. simpl in *.
  destruct (execStmt env s) as [env' [| |]]; try exact Ha.
  now apply IH.
Qed.

Lemma exec_const_good (env : Env) (x : var) (e : expr) (v : value)
    (rest : list stmt) :
  eval env e = Some v ->
  Good (exec (bindVar x v env) rest) ->
  Good (exec env (Const x e :: rest)).
Proof. intros H Hr. now rewrite (exec_const _ _ _ v _ H). Qed.

Lemma exec_if_good (env : Env) (c : expr) (v : value) (body : list stmt)
    (orElse : option (list stmt)) (rest : list stmt) :
  eval env c = Some v ->
  Good (exec env body) ->
  (forall alt, orElse = Some alt -> Good (exec env alt)) ->
  Good (exec env rest) ->
  Good (exec env (If c body orElse :: rest)).
Proof.
  intros Hc Hb Ha Hr. destruct (truthyValue v) eqn:Ht.
  - rewrite (exec_if_true env c v body orElse rest Hc Ht).
    destruct (exec env body); assumption.
  - destruct orElse as [alt|].
    + rewrite (exec_if_else env c v body alt rest Hc Ht).
      specialize (Ha alt eq_refl). destruct (exec env alt); assumption.
    + now rewrite (exec_if_false env c v body rest Hc Ht).
Qed.

Lemma runCases_good (env : Env) (v : value)
    (cases : list (string * list stmt)) :
  (forall k body, In (k, body) cases -> Good (exec env body)) ->
  forall entered, Good (runCasesWith exec env v entered cases).
Proof.
  induction cases as [|[k body] cases IH]; intros H entered;
    [exact Good_normal |].
  cbn [runCasesWith].
  assert (Hrest : forall e, Good (runCasesWith exec env v e cases)).
  { apply IH. intros k' body' Hin. apply (H k' body'). now right. }
  pose proof (H k body (or_introl eq_refl)) as Hbody.
  destruct (entered || strictEq v (VStr k)); [| apply Hrest].
  destruct (exec env body); [apply Hrest | exact Hbody | exact Hbody].
Qed.

Lemma exec_switch_good (env : Env) (e : expr) (v : value)
    (cases : list (string * list stmt)) (rest : list stmt) :
  eval env e = Some v ->
  (forall k body, In (k, body) cases -> Good (exec env body)) ->
  Good (exec env rest) ->
  Good (exec env (Switch e cases :: rest)).
Proof.
  intros He Hc Hr. rewrite (exec_switch env e v cases rest He).
  pose proof (runCases_good env v cases Hc false) as H.
  destruct (runCasesWith exec env v false cases); assumption.
Qed.

Lemma exec_ifs_good {A} (env : Env) (cond : A -> expr)
    (body : A -> list stmt) (l : list A) (rest : list stmt) :
  (forall a, In a l -> exists v, eval env (cond a) = Some v) ->
  (forall a, In a l -> Good (exec env (body a))) ->
  Good (exec env rest) ->
  Good (exec env (map (fun a => If (cond a) (body a) None) l +++ rest)).
Proof.
  intros Hc Hb Hr. induction l as [|a l IH]; [exact Hr |].
  cbn [map app]. destruct (Hc a (or_introl eq_refl)) as [v Hv].
  apply (exec_if_good env _ v); [exact Hv | | discriminate |].
  - apply Hb. now left.
  - apply IH; intros a' Hin; [apply Hc | apply Hb]; now right.
Qed.

Variable verb : HttpVerb.

Lemma terminalDispatch_good (env : Env) (value : expr)
    (s : string) (terminal : list (string * Route)) (rest : list stmt) :
  eval env value = Some (VStr s) ->
  (forall kr, In kr terminal ->
     Good (Returned (Some (plainMatch verb (snd kr))))) ->
  Good (exec env rest) ->
  Good (exec env (terminalDispatch verb value terminal +++ rest)).
Proof.
  intros Hv Ht Hr. unfold terminalDispatch.
  destruct terminal as [|kr0 terminal0] eqn:E; [exact Hr |].
  rewrite <- E in Ht |- *.
  destruct (1 <? List.length terminal)%nat.
  - cbn [app].
    apply (exec_switch_good env _ (VStr (JS.toLowerCase s)));
      [now apply eval_lower | | exact Hr].
    intros k body Hin. apply in_map_iff in Hin.
    destruct Hin as [kr [Heq Hkr]]. inversion Heq. now apply Ht.
  - apply (exec_ifs_good env
             (fun kr => StrictEq (Lower value) (Str (fst kr)))
             (fun kr =>
                [Return (Some {| match_verb := verb; match_route := snd kr;
                                 match_pathIndex := None |})]));
      [| | exact Hr].
    + intros kr _. eexists. exact (eval_equals env value s _ Hv).
    + intros kr Hkr. now apply Ht.
Qed.

Lemma childrenDispatch_good (env : Env) (value : expr) (s : string)
    (children : list (string * list stmt)) (rest : list stmt) :
  eval env value = Some (VStr s) ->
  (forall k body, In (k, body) children -> Good (exec env body)) ->
  Good (exec env rest) ->
  Good (exec env (childrenDispatch value children +++ rest)).
Proof.
  intros Hv Hc Hr. unfold childrenDispatch.
  destruct children as [|kb0 children0] eqn:E; [exact Hr |].
  rewrite <- E in Hc |- *.
  destruct (1 <? List.length children)%nat.
  - cbn [app].
    apply (exec_switch_good env _ (VStr (JS.toLowerCase s)));
      [now apply eval_lower | exact Hc | exact Hr].
  - apply (exec_ifs_good env
             (fun kb => StrictEq (Lower value) (Str (fst kb)))
             (fun kb => snd kb)); [| | exact Hr].
    + intros kb _. eexists. exact (eval_equals env value s _ Hv).
    + intros [k body] Hin. now apply (Hc k body).
Qed.

Lemma tailCode_good (level : nat) (offset : Offset)
    (catchAll : option Route) (env : Env) :
  (forall r, catchAll = Some r ->
     Good (Returned (Some {| match_verb := verb; match_route := r;
                             match_pathIndex := Some (show_Offset offset) |}))) ->
  (level = O -> Good (Returned None)) ->
  Good (exec env (tailCode verb level offset catchAll)).
Proof.
  intros Hc Hnull. unfold tailCode. destruct catchAll as [r|].
  - now apply Hc.
  - destruct level; [now apply Hnull | exact Good_normal].
Qed.

Lemma lastSegmentBlock_good (level : nat) (offset : Offset)
    (terminal : list (string * Route)) (dynRoute : option Route)
    (env : Env) (o i : Z) :
  lenBound env ->
  eval env (offsetExpr offset) = Some (VNum o) ->
  lookupVar (env_vars env) (VIndex (S level)) = Some (VNum i) ->
  (forall kr, In kr terminal ->
     Good (Returned (Some (plainMatch verb (snd kr))))) ->
  (forall r, dynRoute = Some r ->
     Good (Returned (Some (plainMatch verb r)))) ->
  Good (exec env (lastSegmentBlock verb (S level) offset terminal dynRoute)).
Proof.
  intros Hlen Hoff Hidx Ht Hd. unfold lastSegmentBlock. cbv zeta.
  assert (Hvalue :
    exists s,
      eval env (Slice (offsetExpr offset)
                  (Cond (Ref (VIndex (S level))) (Num (-1)) (Ref VLen)))
      = Some (VStr s)).
  { unfold lenBound in Hlen. cbn [eval]. rewrite Hoff, Hidx.
    destruct (truthyValue (VNum i)); cbn [eval]; rewrite ?Hlen;
      eexists; reflexivity. }
  destruct Hvalue as [s Hs]. destruct dynRoute as [r|].
  - apply (exec_const_good env _ _ (VStr s)); [exact Hs |].
    apply (terminalDispatch_good _ _ s); [| exact Ht |].
    + cbn [eval bindVar env_vars lookupVar var_eqb]. now rewrite Nat.eqb_refl.
    + apply (exec_if_good _ _ (VStr s));
        [| now apply Hd | discriminate | exact Good_normal].
      cbn [eval bindVar env_vars lookupVar var_eqb]. now rewrite Nat.eqb_refl.
  - rewrite <- (app_nil_r (terminalDispatch _ _ _)).
    apply (terminalDispatch_good _ _ s);
      [exact Hs | exact Ht | exact Good_normal].
Qed.

Lemma moreSegmentsBlock_good (level : nat) (offset : Offset)
    (bindsSegment : bool) (children : list (string * list stmt))
    (dynamicBody : option (list stmt)) (env : Env) (o i : Z) :
  eval env (offsetExpr offset) = Some (VNum o) ->
  lookupVar (env_vars env) (VIndex (S level)) = Some (VNum i) ->
  (forall v k body,
     In (k, body) children ->
     Good (exec env body)
     /\ Good (exec (bindVar (VSegment (S level)) v env) body)) ->
  (forall v body,
     dynamicBody = Some body ->
     Good (exec env body)
     /\ Good (exec (bindVar (VSegment (S level)) v env) body)) ->
  Good (exec env (moreSegmentsBlock (S level) offset bindsSegment children
                    dynamicBody)).
Proof.
  intros Hoff Hidx Hchildren Hdynamic. unfold moreSegmentsBlock. cbv zeta.
  assert (Hvalue :
    exists s,
      eval env (Slice (offsetExpr offset)
                  (Minus (Ref (VIndex (S level))) (Num 1)))
      = Some (VStr s)).
  { cbn [eval]. rewrite Hoff, Hidx. eexists; reflexivity. }
  destruct Hvalue as [s Hs].
  assert (Hseg :
    eval (bindVar (VSegment (S level)) (VStr s) env) (Ref (VSegment (S level)))
    = Some (VStr s)).
  { cbn [eval bindVar env_vars lookupVar var_eqb]. now rewrite Nat.eqb_refl. }
  destruct bindsSegment.
  - apply (exec_const_good env _ _ (VStr s)); [exact Hs |].
    apply (childrenDispatch_good _ _ s); [exact Hseg | |].
    + intros k body Hin. now apply (Hchildren (VStr s) k body).
    + destruct dynamicBody as [body|]; [| exact Good_normal].
      apply (exec_if_good _ _ (VStr s));
        [exact Hseg | | discriminate | exact Good_normal].
      now apply (Hdynamic (VStr s) body).
  - apply (childrenDispatch_good _ _ s); [exact Hs | |].
    + intros k body Hin. now apply (Hchildren (VStr s) k body).
    + destruct dynamicBody as [body|]; [| exact Good_normal].
      apply (exec_if_good _ _ (VStr s));
        [exact Hs | | discriminate | exact Good_normal].
      now apply (Hdynamic (VStr s) body).
Qed.

(** The code of the edges of a node reads [len], its offset and its own
    index and segment only; it ends as the block of the last segment, or
    as the code of a child. *)
Lemma segmentCode_good (level : nat) (offset : Offset)
    (terminal : list (string * Route)) (dynRoute : option Route)
    (bindsSegment : bool) (children : list (string * list stmt))
    (dynamicBody : option (list stmt)) (env : Env) (o : Z) :
  lenBound env -> offsetIs env level offset o ->
  (forall kr, In kr terminal ->
     Good (Returned (Some (plainMatch verb (snd kr))))) ->
  (forall r, dynRoute = Some r ->
     Good (Returned (Some (plainMatch verb r)))) ->
  (forall env' i k body,
     lenBound env' ->
     lookupVar (env_vars env') (VIndex (S level)) = Some (VNum i) ->
     In (k, body) children -> Good (exec env' body)) ->
  (forall env' i body,
     lenBound env' ->
     lookupVar (env_vars env') (VIndex (S level)) = Some (VNum i) ->
     dynamicBody = Some body -> Good (exec env' body)) ->
  Good (exec env (segmentCode verb (S level) offset terminal dynRoute
                    bindsSegment children dynamicBody)).
Proof.
  intros Hlen Hoff Hterminal Hdyn Hchildren Hdynamic.
  unfold segmentCode. cbv zeta.
  apply (exec_const_good env _ _ (VNum (indexValue env o)));
    [now apply (eval_index env level) |].
  set (env1 := bindVar (VIndex (S level)) (VNum (indexValue env o)) env).
  assert (Hlen1 : lenBound env1) by now apply lenBound_bind_index.
  assert (Hoff1 : eval env1 (offsetExpr offset) = Some (VNum o)).
  { apply (eval_offset env1 level). now apply offsetIs_bind_index. }
  assert (Hidx1 : lookupVar (env_vars env1) (VIndex (S level))
                  = Some (VNum (indexValue env o))).
  { unfold env1. cbn [bindVar env_vars lookupVar var_eqb].
    now rewrite Nat.eqb_refl. }
  assert (Hlast :
    Good (exec env1 (lastSegmentBlock verb (S level) offset terminal
                       dynRoute)))
    by exact (lastSegmentBlock_good level offset terminal dynRoute env1
                o _ Hlen1 Hoff1 Hidx1 Hterminal Hdyn).
  assert (Hmore :
    Good (exec env1 (moreSegmentsBlock (S level) offset bindsSegment children
                       dynamicBody))).
  { apply (moreSegmentsBlock_good level offset bindsSegment children
             dynamicBody env1 o _ Hoff1 Hidx1).
    - intros v k body Hin. split.
      + exact (Hchildren env1 _ k body Hlen1 Hidx1 Hin).
      + apply (Hchildren _ (indexValue env o) k body); [| | exact Hin].
        * now apply lenBound_bind_segment.
        * exact Hidx1.
    - intros v body Hbody. split.
      + exact (Hdynamic env1 _ body Hlen1 Hidx1 Hbody).
      + apply (Hdynamic _ (indexValue env o) body); [| | exact Hbody].
        * now apply lenBound_bind_segment.
        * exact Hidx1. }
  assert (Hcond1 :
    exists v, eval env1 (Or (Not (Ref (VIndex (S level))))
                           (StrictEq (Ref (VIndex (S level))) (Ref VLen)))
              = Some v).
  { unfold lenBound in Hlen1. cbn [eval]. rewrite Hidx1, Hlen1.
    destruct (truthyValue (VBool (negb (truthyValue (VNum (indexValue env o))))));
      eexists; reflexivity. }
  assert (Hcond2 :
    exists v, eval env1 (And (Ref (VIndex (S level)))
                           (StrictNe (Ref (VIndex (S level))) (Ref VLen)))
              = Some v).
  { unfold lenBound in Hlen1. cbn [eval]. rewrite Hidx1, Hlen1.
    destruct (truthyValue (VNum (indexValue env o))); eexists; reflexivity. }
  destruct Hcond1 as [v1 Hv1], Hcond2 as [v2 Hv2].
  destruct (match terminal with [] => isSome dynRoute | _ => true end).
  - apply (exec_if_good env1 _ v1);
      [exact Hv1 | exact Hlast | | exact Good_normal].
    intros alt Halt.
    destruct (match children with [] => isSome dynamicBody | _ => true end);
      [| discriminate].
    inversion Halt. exact Hmore.
  - destruct (match children with [] => isSome dynamicBody | _ => true end);
      [| exact Good_normal].
    apply (exec_if_good env1 _ v2);
      [exact Hv2 | exact Hmore | discriminate | exact Good_normal].
Qed.

Lemma plainRoutes_route (t : RouteTrie) (r : Route) :
  trie_route t = Some r -> In r (plainRoutes t).
Proof. destruct t. cbn. intros ->. now left. Qed.

Lemma catchAllRoutes_catchAll (t : RouteTrie) (r : Route) :
  trie_catchAll t = Some r -> In r (catchAllRoutes t).
Proof. destruct t. cbn. intros ->. now left. Qed.

Lemma plainRoutes_static (t child : RouteTrie) (cs : list RouteTrie)
    (r : Route) :
  trie_static t = Some cs -> In child cs -> In r (plainRoutes child) ->
  In r (plainRoutes t).
Proof.
  destruct t as [key route static dynamic catchAll]. cbn [trie_static].
  intros -> Hchild Hr. cbn [plainRoutes].
  apply in_or_app. right. apply in_or_app. left.
  apply in_flat_map. now exists child.
Qed.

Lemma catchAllRoutes_static (t child : RouteTrie) (cs : list RouteTrie)
    (r : Route) :
  trie_static t = Some cs -> In child cs -> In r (catchAllRoutes child) ->
  In r (catchAllRoutes t).
Proof.
  destruct t as [key route static dynamic catchAll]. cbn [trie_static].
  intros -> Hchild Hr. cbn [catchAllRoutes].
  apply in_or_app. right. apply in_or_app. left.
  apply in_flat_map. now exists child.
Qed.

Lemma plainRoutes_dynamic (t d : RouteTrie) (r : Route) :
  trie_dynamic t = Some d -> In r (plainRoutes d) -> In r (plainRoutes t).
Proof.
  destruct t as [key route static dynamic catchAll]. cbn [trie_dynamic].
  intros -> Hr. cbn [plainRoutes].
  apply in_or_app. right. apply in_or_app. now right.
Qed.

Lemma catchAllRoutes_dynamic (t d : RouteTrie) (r : Route) :
  trie_dynamic t = Some d -> In r (catchAllRoutes d) ->
  In r (catchAllRoutes t).
Proof.
  destruct t as [key route static dynamic catchAll]. cbn [trie_dynamic].
  intros -> Hr. cbn [catchAllRoutes].
  apply in_or_app. right. apply in_or_app. now right.
Qed.

Lemma GoodRoutes_static (t child : RouteTrie) (cs : list RouteTrie) :
  trie_static t = Some cs -> In child cs ->
  GoodRoutes Good verb t -> GoodRoutes Good verb child.
Proof.
  intros Hs Hchild [Hplain Hcatch]. split.
  - intros r Hr. apply Hplain. exact (plainRoutes_static t child cs r Hs Hchild Hr).
  - intros r i Hr. apply Hcatch.
    exact (catchAllRoutes_static t child cs r Hs Hchild Hr).
Qed.

Lemma GoodRoutes_dynamic (t d : RouteTrie) :
  trie_dynamic t = Some d -> GoodRoutes Good verb t -> GoodRoutes Good verb d.
Proof.
  intros Hd [Hplain Hcatch]. split.
  - intros r Hr. apply Hplain. exact (plainRoutes_dynamic t d r Hd Hr).
  - intros r i Hr. apply Hcatch. exact (catchAllRoutes_dynamic t d r Hd Hr).
Qed.

Lemma inner_good (t : RouteTrie) (level : nat) (offset : Offset) (env : Env) :
  GoodRoutes Good verb t ->
  Good (exec env (segmentsCode t verb (S level) offset)) ->
  Good (exec env (writeRouterVerb t verb (S level) offset)).
Proof.
  intros [_ Hcatch] Hsegments. rewrite writeRouterVerb_inner.
  apply exec_app_good; [exact Hsegments |].
  intros env'. apply tailCode_good; [| discriminate].
  intros r Hr. apply Hcatch. now apply catchAllRoutes_catchAll.
Qed.

Lemma segmentsCode_good (t : RouteTrie) :
  forall level offset env o,
    lenBound env -> offsetIs env level offset o ->
    GoodRoutes Good verb t ->
    Good (exec env (segmentsCode t verb level offset)).
Proof.
  induction t as [key route static dynamic catchAll Hstatic Hdynamic]
    using RouteTrie_induction.
  intros level offset env o Hlen Hoff Hgood.
  set (t := Trie key route static dynamic catchAll) in *.
  unfold segmentsCode. cbn [t trie_static trie_dynamic].
  destruct (isSome static || isSome dynamic); [| exact Good_normal].
  apply (segmentCode_good level offset _ _ _ _ _ env o Hlen Hoff).
  - intros [k r] Hin. cbn [snd]. apply (proj1 Hgood).
    unfold terminalChildren in Hin.
    destruct static as [cs|]; [| contradiction].
    apply in_flat_map in Hin. destruct Hin as [child [Hchild Hin]].
    apply (plainRoutes_static t child cs r eq_refl Hchild).
    apply plainRoutes_route.
    destruct (trie_route child) as [r'|]; [| contradiction].
    destruct Hin as [Heq | []]. now inversion Heq.
  - intros r Hr. apply (proj1 Hgood).
    destruct dynamic as [d|]; [| discriminate].
    apply (plainRoutes_dynamic t d r eq_refl). now apply plainRoutes_route.
  - intros env' i k body Hlen' Hidx Hin.
    unfold childrenCode in Hin. cbn [t trie_static] in Hin.
    destruct static as [cs|]; [| contradiction].
    apply in_map_iff in Hin. destruct Hin as [child [Heq Hchild]].
    inversion Heq. subst k body. apply filter_In in Hchild.
    destruct Hchild as [Hchild _].
    rewrite Forall_forall in Hstatic.
    pose proof (GoodRoutes_static t child cs eq_refl Hchild Hgood) as Hgc.
    apply inner_good; [exact Hgc |].
    destruct offset as [n|j].
    + now apply (Hstatic child Hchild (S level) _ env'
                   (n + JS.len (trie_key child) + 1)).
    + apply (Hstatic child Hchild (S level) _ env' i);
        [exact Hlen' | | exact Hgc].
      split; [apply le_n | exact Hidx].
  - intros env' i body Hlen' Hidx Hbody.
    unfold dynamicCode in Hbody. cbn [t trie_dynamic] in Hbody.
    destruct dynamic as [d|]; [| discriminate].
    destruct (hasSubtree d); [| discriminate].
    inversion Hbody.
    pose proof (GoodRoutes_dynamic t d eq_refl Hgood) as Hgd.
    apply inner_good; [exact Hgd |].
    apply (Hdynamic (S level) _ env' i); [exact Hlen' | | exact Hgd].
    split; [apply le_n | exact Hidx].
Qed.

Lemma root_good (t : RouteTrie) (pathname : string) :
  GoodRoutes Good verb t -> Good (Returned None) ->
  Good (exec {| env_pathname := pathname; env_vars := [] |}
          (writeRouterVerb t verb 0 (OffNum 1))).
Proof.
  intros Hgood Hnull. rewrite writeRouterVerb_root.
  apply (exec_const_good _ _ _ (VNum (JS.len pathname))); [reflexivity |].
  fold (rootEnv pathname).
  assert (Hsegments :
    Good (exec (rootEnv pathname) (segmentsCode t verb 0 (OffNum 1))))
    by now apply (segmentsCode_good t 0 (OffNum 1) _ 1).
  assert (Htail :
    forall env, Good (exec env (tailCode verb 0 (OffNum 1) (trie_catchAll t)))).
  { intros env. apply tailCode_good; [| intros _; exact Hnull].
    intros r Hr. apply (proj2 Hgood). now apply catchAllRoutes_catchAll. }
  destruct (trie_route t) as [r|] eqn:Hroute.
  - cbn [app]. apply (exec_if_good _ _ (VBool (JS.len pathname =? 1)));
      [reflexivity | | discriminate |].
    + apply (proj1 Hgood). now apply plainRoutes_route.
    + apply exec_app_good; [exact Hsegments | exact Htail].
  - destruct (isSome (trie_static t) || isSome (trie_dynamic t)).
    + cbn [app]. apply (exec_if_good _ _ (VBool (1 <? JS.len pathname)));
        [reflexivity | exact Hsegments | discriminate | apply Htail].
    + apply exec_app_good; [exact Hsegments | exact Htail].
Qed.

End Completions.

(** X9. The matcher written for a trie and a verb, run on any pathname,
    ends in one of its [return] statements: every variable that a
    condition, a [switch] or a declaration reads ([len], the indices [iN],
    the segments [sN]) is declared before in an enclosing block and holds
    a value of the type the operation needs, and the code never runs off
    its end.  (The object that a [return] builds is not evaluated
    here.) *)
Theorem matcher_always_returns :
  forall (t : RouteTrie) (verb : HttpVerb) (pathname : string),
    exists m,
      exec {| env_pathname := pathname; env_vars := [] |}
        (writeRouterVerb t verb 0 (OffNum 1))
      = Returned m.
Proof.
  intros t verb pathname.
  assert (Hsafe :
    exec {| env_pathname := pathname; env_vars := [] |}
      (writeRouterVerb t verb 0 (OffNum 1)) <> Failed).
  { apply (root_good (fun c => c <> Failed)); try discriminate.
    split; discriminate. }
  pose proof (matcher_returns t verb (OffNum 1)
                {| env_pathname := pathname; env_vars := [] |}) as Hret.
  destruct (exec _ (writeRouterVerb t verb 0 (OffNum 1))) as [|m|];
    [congruence | now exists m | congruence].
Qed.

(** X10. What the matcher of a trie and a verb returns, apart from
    [null], is a match of that verb whose route is held by the trie: a
    route of one of its nodes, without a path index, or the route of one
    of its catch-all edges, with one. *)
Theorem matcher_returns_a_route_of_the_trie :
  forall (t : RouteTrie) (verb : HttpVerb) (pathname : string) (m : Match),
    exec {| env_pathname := pathname; env_vars := [] |}
      (writeRouterVerb t verb 0 (OffNum 1))
    = Returned (Some m) ->
    match_verb m = verb
    /\ (match_pathIndex m = None /\ In (match_route m) (plainRoutes t)
        \/ (exists i, match_pathIndex m = Some i)
           /\ In (match_route m) (catchAllRoutes t)).
Proof.
  intros t verb pathname.
  apply (root_good
           (fun c =>
              forall m, c = Returned (Some m) ->
                match_verb m = verb
                /\ (match_pathIndex m = None
                    /\ In (match_route m) (plainRoutes t)
                    \/ (exists i, match_pathIndex m = Some i)
                       /\ In (match_route m) (catchAllRoutes t)))).
  - discriminate.
  - split.
    + intros r Hr m Hm. inversion Hm. cbn. auto.
    + intros r i Hr m Hm. inversion Hm. cbn. split; [reflexivity |].
      right. split; [now exists i | exact Hr].
  - discriminate.
Qed.

Lemma matcher_returns_a_route_of_the_trie_witness :
  exists m,
    exec {| env_pathname := "/item/7"; env_vars := [] |}
      (writeRouterVerb sampleTrie "get" 0 (OffNum 1))
    = Returned (Some m)
    /\ match_verb m = "get"
    /\ (match_pathIndex m = None
        /\ In (match_route m) (plainRoutes sampleTrie)
        \/ (exists i, match_pathIndex m = Some i)
           /\ In (match_route m) (catchAllRoutes sampleTrie)).
Proof.
  eexists. split; [reflexivity |].
  exact (matcher_returns_a_route_of_the_trie sampleTrie "get" "/item/7" _
           eq_refl).
Defined.

(** ** The generated [match] *)

Lemma matcher_ends (t : RouteTrie) (verb : HttpVerb) (pathname : string) :
  exists m,
    exec {| env_pathname := pathname; env_vars := [] |}
      (writeRouterVerb t verb 0 (OffNum 1))
    = Returned m
    /\ forall mt,
         m = Some mt ->
         match_verb mt = verb
         /\ In (match_route mt) (plainRoutes t +++ catchAllRoutes t).
Proof.
  assert (Hgood :
    exec {| env_pathname := pathname; env_vars := [] |}
      (writeRouterVerb t verb 0 (OffNum 1)) <> Failed
    /\ forall mt,
         exec {| env_pathname := pathname; env_vars := [] |}
           (writeRouterVerb t verb 0 (OffNum 1))
         = Returned (Some mt) ->
         match_verb mt = verb
         /\ In (match_route mt) (plainRoutes t +++ catchAllRoutes t)).
  { apply (root_good
             (fun c =>
                c <> Failed
                /\ forall mt,
                     c = Returned (Some mt) ->
                     match_verb mt = verb
                     /\ In (match_route mt)
                          (plainRoutes t +++ catchAllRoutes t))).
    - split; discriminate.
    - split.
      + intros r Hr. split; [discriminate |]. intros mt H. inversion H.
        split; [reflexivity |]. apply in_or_app. now left.
      + intros r i Hr. split; [discriminate |]. intros mt H. inversion H.
        split; [reflexivity |]. apply in_or_app. now right.
    - split; discriminate. }
  destruct Hgood as [Hsafe Hverb].
  pose proof (matcher_returns t verb (OffNum 1)
                {| env_pathname := pathname; env_vars := [] |}) as Hret.
  destruct (exec _ (writeRouterVerb t verb 0 (OffNum 1))) as [|m|];
    [congruence | | congruence].
  exists m. split; [reflexivity |]. intros mt ->. now apply Hverb.
Qed.

Lemma filter_nil_existsb {A} (p : A -> bool) (l : list A) :
  match filter p l with
  | [] => existsb p l = false
  | _ :: _ => existsb p l = true
  end.
Proof.
  induction l as [|a l IH]; [reflexivity |].
  cbn [filter existsb]. destruct (p a); [reflexivity |].
  cbn [orb]. exact IH.
Qed.

(** The cases of [match]: one for each verb that some route has, in the
    order of [httpVerbs], each holding the matcher of the trie built from
    the routes that have the verb. *)
Lemma verbCases_cases (hasVerb : Route -> HttpVerb -> bool)
    (createRouteTrie : list Route -> result RouteTrie)
    (routes : list Route) (verbs : list HttpVerb) :
  forall cases,
    verbCases hasVerb createRouteTrie routes verbs = Ok cases ->
    map fst cases
    = filter (fun verb => existsb (fun route => hasVerb route verb) routes)
        verbs
    /\ Forall (caseOf hasVerb createRouteTrie routes) cases.
Proof.
  induction verbs as [|verb verbs IH]; intros cases H.
  - inversion H. split; [reflexivity | constructor].
  - cbn [verbCases filter] in H |- *.
    pose proof (filter_nil_existsb (fun route => hasVerb route verb) routes)
      as Hsome.
    destruct (filter (fun route => hasVerb route verb) routes)
      as [|r0 rs] eqn:Hf.
    + rewrite Hsome. now apply IH.
    + rewrite Hsome.
      destruct (createRouteTrie (r0 :: rs)) as [trie|] eqn:Htrie;
        [| discriminate].
      cbn [bind] in H.
      destruct (verbCases hasVerb createRouteTrie routes verbs)
        as [cases'|]; [| discriminate].
      cbn [bind] in H. apply Ok_inj in H. subst cases.
      destruct (IH cases' eq_refl) as [Hkeys Hall].
      cbn [map fst]. rewrite Hkeys. split; [reflexivity |].
      constructor; [| exact Hall].
      exists trie. cbn [fst snd]. rewrite Hf. now split.
Qed.

Lemma runCases_matchers (hasVerb : Route -> HttpVerb -> bool)
    (createRouteTrie : list Route -> result RouteTrie)
    (routes : list Route) (cases : list (HttpVerb * list stmt))
    (pathname v : string) :
  Forall (caseOf hasVerb createRouteTrie routes) cases ->
  forall entered,
    exists c,
      runCasesWith exec {| env_pathname := pathname; env_vars := [] |}
        (VStr v) entered cases = c
      /\ c <> Failed
      /\ (forall mt, c = Returned (Some mt) ->
            In (match_verb mt) (map fst cases)
            /\ (entered = false -> match_verb mt = v)
            /\ exists trie,
                 createRouteTrie
                   (filter (fun route => hasVerb route (match_verb mt))
                      routes)
                 = Ok trie
                 /\ In (match_route mt)
                      (plainRoutes trie +++ catchAllRoutes trie))
      /\ (entered = false -> ~ In v (map fst cases) -> c = Normal).
Proof.
  induction 1 as [|[k body] cases [trie [Htrie Hbody]] _ IH]; intros entered.
  - exists Normal. repeat split; try discriminate.
  - cbn [fst snd] in Htrie, Hbody. subst body.
    cbn [runCasesWith strictEq map fst].
    destruct (matcher_ends trie k pathname) as [m [Hm Hverb]].
    destruct (entered || (v =? k)%string) eqn:Hcond.
    + rewrite Hm. exists (Returned m). split; [reflexivity |].
      split; [discriminate |]. split.
      * intros mt Hmt. inversion Hmt. subst m.
        destruct (Hverb mt eq_refl) as [Hk Hroute]. rewrite Hk.
        split; [now left |]. split.
        -- intros ->. cbn [orb] in Hcond. apply String.eqb_eq in Hcond.
           now symmetry.
        -- now exists trie.
      * intros -> Hnot. cbn [orb] in Hcond. apply String.eqb_eq in Hcond.
        exfalso. apply Hnot. left. now symmetry.
    + apply orb_false_elim in Hcond. destruct Hcond as [-> Hneq].
      destruct (IH false) as [c [Hc [Hsafe [Hret Hnone]]]].
      exists c. split; [exact Hc |]. split; [exact Hsafe |]. split.
      * intros mt Hmt. destruct (Hret mt Hmt) as [Hin [Hv Htrie']].
        split; [now right | now split].
      * intros _ Hnot. apply Hnone; [reflexivity |].
        intros Hin. apply Hnot. now right.
Qed.

(** X11. The [match] of a rendered router has one case for each verb of
    [httpVerbs] that some route has, in that order.  For every method and
    pathname its statements run, without throwing, to a [return]: of the
    object written for a match whose verb is the method in lower case,
    which is then one of the cases, or of [null]; and of [null] whenever
    the method in lower case is not one of the cases.  (The object that a
    [return] builds is not evaluated here: [runMatch] answers with the
    object as it is written.) *)
Theorem match_answers_by_method :
  forall vfp mrp seq httpVerbs getVerbs hasVerb createRouteTrie routes
         options m,
    renderRouter vfp mrp seq httpVerbs getVerbs hasVerb createRouteTrie
      routes options = Ok m ->
    map fst (router_matchers m)
    = filter (fun verb =>
                existsb (fun route => hasVerb route verb)
                  (routes_list routes))
        httpVerbs
    /\ forall method pathname,
         exists r,
           runMatch (router_matchers m) method pathname = Some r
           /\ (forall mt, r = Some mt ->
                 match_verb mt = JS.toLowerCase method
                 /\ In (match_verb mt) (map fst (router_matchers m)))
           /\ (~ In (JS.toLowerCase method) (map fst (router_matchers m)) ->
               r = None).
Proof.
  intros vfp mrp seq httpVerbs getVerbs hasVerb createRouteTrie routes
    options m H.
  unfold renderRouter in H.
  destruct (routeImports _ _ _ _) as [imports|]; [| discriminate].
  cbn [bind] in H.
  destruct (verbCases _ _ _ _) as [cases|] eqn:Hcases; [| discriminate].
  cbn [bind] in H. apply Ok_inj in H. subst m. cbn [router_matchers].
  destruct (verbCases_cases hasVerb createRouteTrie _ _ cases Hcases)
    as [Hkeys Hall].
  split; [exact Hkeys |].
  intros method pathname. unfold runMatch.
  destruct (runCases_matchers hasVerb createRouteTrie _ cases
              (normalizePathname pathname) (JS.toLowerCase method) Hall false)
    as [c [Hc [Hsafe [Hret Hnone]]]].
  rewrite Hc. destruct c as [|r|]; [| | congruence].
  - exists None. split; [reflexivity |].
    split; [intros mt Hmt; discriminate | reflexivity].
  - exists r. split; [reflexivity |]. split.
    + intros mt ->. destruct (Hret mt eq_refl) as [Hin [Hv _]].
      split; [now apply Hv | exact Hin].
    + intros Hnot. specialize (Hnone eq_refl Hnot). discriminate.
Qed.

Lemma match_answers_by_method_witness :
  let routes :=
    {| routes_list := [editRoute; idRoute; restRoute];
       routes_special := {| special_404 := None; special_500 := None |} |} in
  let hasVerb := fun (_ : Route) (verb : HttpVerb) => (verb =? "get")%string in
  exists m,
    renderRouter "virtual:marko-run" "__marko-run__" "?marko-server-entry"
      ["get"; "post"] (fun _ => Some ["get"]) hasVerb
      (fun _ => Ok sampleTrie) routes None = Ok m
    /\ map fst (router_matchers m) = ["get"]
    /\ option_map (option_map match_route)
         (runMatch (router_matchers m) "GET" "item/edit")
       = Some (Some editRoute)
    /\ runMatch (router_matchers m) "POST" "/item/edit" = Some None.
Proof.
  intros routes hasVerb. eexists. split; [reflexivity |].
  destruct (match_answers_by_method "virtual:marko-run" "__marko-run__"
              "?marko-server-entry" ["get"; "post"] (fun _ => Some ["get"])
              hasVerb (fun _ => Ok sampleTrie) routes None _ eq_refl)
    as [Hkeys Hmatch].
  split; [exact Hkeys |]. split; [reflexivity |].
  destruct (Hmatch "POST" "/item/edit") as [r [Hr [_ Hnone]]].
  rewrite Hr. f_equal. apply Hnone.
  intros [H | []]. discriminate H.
Defined.

(** X12. On the pathname [/] the matcher of a trie returns the route of
    the root; without one, the root's catch-all route with the path index
    [1]; and [null] when the root has neither, whatever else the trie
    holds. *)
Theorem root_pathname_match :
  forall (t : RouteTrie) (verb : HttpVerb),
    exec {| env_pathname := "/"; env_vars := [] |}
      (writeRouterVerb t verb 0 (OffNum 1))
    = Returned
        match trie_route t with
        | Some r => Some (plainMatch verb r)
        | None =>
            option_map
              (fun r => {| match_verb := verb; match_route := r;
                           match_pathIndex := Some "1" |})
              (trie_catchAll t)
        end.
Proof.
  intros t verb. rewrite writeRouterVerb_root.
  rewrite (exec_const _ _ _ (VNum 1)) by reflexivity.
  destruct (trie_route t) as [r|].
  - cbn [app]. now rewrite (exec_if_true _ _ (VBool true)).
  - assert (Htail :
      forall env,
        exec env (tailCode verb 0 (OffNum 1) (trie_catchAll t))
        = Returned
            (option_map
               (fun r => {| match_verb := verb; match_route := r;
                            match_pathIndex := Some "1" |})
               (trie_catchAll t))).
    { intros env. unfold tailCode. now destruct (trie_catchAll t). }
    unfold segmentsCode.
    destruct (isSome (trie_static t) || isSome (trie_dynamic t)).
    + cbn [app]. rewrite (exec_if_false _ _ (VBool false)) by reflexivity.
      apply Htail.
    + apply Htail.
Qed.

(** ** Below a literal prefix *)






(** ** Trailing slashes: redirects come to an end *)

Lemma endsWithSlash_app (p : string) : JS.endsWithSlash (p ++ "/") = true.
Proof.
  induction p as [|c p IH]; [reflexivity |].
  change (String c p ++ "/") with (String c (p ++ "/")).
  cbn [JS.endsWithSlash]. destruct (p ++ "/") eqn:E; [| exact IH].
  destruct p; discriminate.
Qed.

(** X14. The redirects of [fetch] cannot loop.  Under [RedirectWith] the
    target of a redirect ends in a slash, so a request for it is not
    redirected again; under [RedirectWithout] the target is the pathname
    without its last character, a slash, so every further redirect is to
    a shorter pathname; both keep the origin.  The two rewriting policies
    never answer with a redirect, and [RewriteWith] leaves the url it
    produced unchanged when applied again. *)
Theorem trailing_slash_redirects_end :
  forall url : Url,
    (forall r,
       applyTrailingSlashes RedirectWith url = inl r ->
       exists target,
         r = RedirectResponse target
         /\ url_origin target = url_origin url
         /\ applyTrailingSlashes RedirectWith target
            = inr (target, url_pathname target))
    /\ (forall r,
          applyTrailingSlashes RedirectWithout url = inl r ->
          exists target,
            r = RedirectResponse target
            /\ url_origin target = url_origin url
            /\ url_pathname url = url_pathname target ++ "/")
    /\ (exists rest, applyTrailingSlashes RewriteWithout url = inr rest)
    /\ (exists url' pathname',
          applyTrailingSlashes RewriteWith url = inr (url', pathname')
          /\ url_pathname url' = pathname'
          /\ applyTrailingSlashes RewriteWith url' = inr (url', pathname')).
Proof.
  intros url. unfold applyTrailingSlashes.
  destruct (isRoot (url_pathname url)) eqn:Hroot;
    destruct (JS.endsWithSlash (url_pathname url)) eqn:Hend;
    cbn [negb andb]; repeat split; try discriminate;
    try (eexists; reflexivity).
  - exists url, (url_pathname url). now rewrite Hroot.
  - exists url, (url_pathname url). now rewrite Hroot.
  - intros r Hr. inversion Hr.
    destruct (endsWithSlash_split _ Hend) as [q Hq].
    exists (withPathname url (JS.slice (url_pathname url) 0 (-1))).
    repeat split. cbn [withPathname url_pathname].
    rewrite Hq at 2. now rewrite slice_drop_last.
  - exists url, (url_pathname url). now rewrite Hroot, Hend.
  - intros r Hr. inversion Hr.
    exists (withPathname url (url_pathname url ++ "/")).
    repeat split. cbn [withPathname url_pathname].
    rewrite endsWithSlash_app. now rewrite andb_false_r.
  - exists (withPathname url (url_pathname url ++ "/")),
      (url_pathname url ++ "/").
    repeat split. cbn [withPathname url_pathname].
    rewrite endsWithSlash_app. now rewrite andb_false_r.
Qed.

Lemma trailing_slash_redirects_end_witness :
  applyTrailingSlashes RedirectWith (sampleUrl "/docs")
  = inl (RedirectResponse (sampleUrl "/docs/"))
  /\ exists target,
       RedirectResponse (sampleUrl "/docs/") = RedirectResponse target
       /\ url_origin target = url_origin (sampleUrl "/docs")
       /\ applyTrailingSlashes RedirectWith target
          = inr (target, url_pathname target).
Proof.
  split; [reflexivity |].
  exact (proj1 (trailing_slash_redirects_end (sampleUrl "/docs")) _ eq_refl).
Defined.

(** ** What [invoke] can end in *)

(** X15. Whatever leaves [invoke] comes from the handler or from a bound
    special page.  An error that [invoke] throws is an error that the
    handler of the matched route threw, never one of the signals
    [NotMatched] and [NotHandled], and it is thrown only where no 500 page
    is bound or the request does not accept [text/html].  A response that
    [invoke] returns is the response of the handler, or the 404 page, with
    status 404, where one is bound and the request accepts [text/html], or
    the 500 page, with status 500 and the handler's error, under the same
    conditions. *)
Theorem invoke_result_origin :
  forall notFoundPage errorPage route request platform url,
    let context0 := initialContext request platform url in
    let routeContext (r : MatchedRoute) :=
      setRoute context0 (matched_params r) (matched_meta r) in
    (forall error,
       invoke notFoundPage errorPage route request platform url
       = Throws error ->
       exists r message stack,
         route = Some r
         /\ error = ErrorValue message stack
         /\ matched_handler r (routeContext r) = Throws error
         /\ (errorPage = false \/ acceptsHtml (routeContext r) = false))
    /\ (forall response,
          invoke notFoundPage errorPage route request platform url
          = Returns (Some response) ->
          (exists r,
             route = Some r
             /\ matched_handler r (routeContext r) = Returns (Some response))
          \/ (exists context,
                notFoundPage = true /\ acceptsHtml context = true
                /\ response
                   = PageResponse "page404" 404 (buildInput context None))
          \/ (exists r error,
                route = Some r /\ errorPage = true
                /\ acceptsHtml (routeContext r) = true
                /\ matched_handler r (routeContext r) = Throws error
                /\ response
                   = PageResponse "page500" 500
                       (buildInput (routeContext r) (Some error)))).
Proof.
  intros notFoundPage errorPage route request platform url context0
    routeContext.
  unfold invoke, invokeWithContext, invokeTry, notFoundFallback, invokeCatch.
  fold (initialContext request platform url). fold context0.
  destruct route as [r|].
  - fold (routeContext r).
    destruct (matched_handler r (routeContext r)) as [[response|]|[| |message stack]]
      eqn:Hhandler; cbn [snd].
    + split; [discriminate |]. intros response' H. inversion H. subst.
      left. now exists r.
    + destruct (notFoundPage && acceptsHtml (routeContext r)) eqn:Hpage;
        cbn [snd]; split; try discriminate.
      intros response H. inversion H. apply andb_prop in Hpage.
      right. left. now exists (routeContext r).
    + destruct (notFoundPage && acceptsHtml (routeContext r)) eqn:Hpage;
        cbn [snd]; split; try discriminate.
      intros response H. inversion H. apply andb_prop in Hpage.
      right. left. now exists (routeContext r).
    + split; discriminate.
    + destruct (errorPage && acceptsHtml (routeContext r)) eqn:Hpage;
        cbn [snd]; split; try discriminate.
      * intros response H. inversion H. apply andb_prop in Hpage.
        right. right. exists r, (ErrorValue message stack). tauto.
      * intros error H. inversion H. subst error.
        exists r, message, stack. apply andb_false_iff in Hpage.
        repeat split; assumption.
  - destruct notFoundPage; cbn [andb snd].
    + destruct (acceptsHtml (setRoute context0 [] MetaEmpty)) eqn:Hhtml;
        cbn [snd]; split; try discriminate.
      intros response H. inversion H. right. left.
      now exists (setRoute context0 [] MetaEmpty).
    + split; discriminate.
Qed.

Lemma invoke_result_origin_witness :
  let r := sampleMatched (fun _ => Throws (ErrorValue "boom" "at line 1")) in
  let request := sampleRequest "/item/7" None in
  invoke true true (Some r) request "edge" (sampleUrl "/item/7")
  = Throws (ErrorValue "boom" "at line 1")
  /\ exists r' message stack,
       Some r = Some r'
       /\ ErrorValue "boom" "at line 1" = ErrorValue message stack.
Proof.
  intros r request. split; [reflexivity |].
  destruct (proj1 (invoke_result_origin true true (Some r) request "edge"
                     (sampleUrl "/item/7")) _ eq_refl)
    as [r' [message [stack [Hr [He _]]]]].
  now exists r', message, stack.
Defined.

(** ** The router and the route entries *)

Lemma routeImports_lines (vfp mrp : string)
    (getVerbs : Route -> option (list HttpVerb)) (routes : list Route) :
  forall lines,
    routeImports vfp mrp getVerbs routes = Ok lines ->
    List.length lines = List.length routes
    /\ forall route,
         In route routes ->
         exists verbs,
           getVerbs route = Some verbs
           /\ In ("import { "
                  ++ JS.join ", "
                       (map (fun verb =>
                               verb ++ JS.showNum (route_index route)) verbs
                        +++ (if isSome (route_meta route)
                             then ["meta" ++ JS.showNum (route_index route)]
                             else []))
                  ++ " } from '" ++ vfp ++ "/" ++ mrp ++ "route__"
                  ++ route_key route ++ ".js';")
                lines.
Proof.
  induction routes as [|r routes IH]; intros lines H.
  - inversion H. split; [reflexivity | contradiction].
  - cbn [routeImports] in H.
    destruct (getVerbs r) as [verbs|] eqn:Hv; [| discriminate].
    destruct (routeImports vfp mrp getVerbs routes) as [rest|];
      [| discriminate].
    cbn [bind] in H. apply Ok_inj in H. subst lines.
    destruct (IH rest eq_refl) as [Hlen Hall].
    split; [cbn [List.length]; now rewrite Hlen |].
    intros route [<- | Hin].
    + exists verbs. split; [exact Hv | now left].
    + destruct (Hall route Hin) as [verbs' [Hv' Hline]].
      exists verbs'. split; [exact Hv' | now right].
Qed.

(** X16. What the router imports from the module of a route is what that
    module exports.  A rendered router has, for every route of the list,
    one line that imports from the route's entry module the names
    [<verb><index>] for the verbs that [getVerbs] answers, and
    [meta<index>] if the route has a meta file; and the entry rendered for
    that route, with the same [getVerbs], exports the dispatch functions
    under exactly these names, in the same order, and re-exports
    [meta<index>] if the route has a meta file. *)
Theorem router_imports_are_exported :
  forall vfp mrp seq vrp httpVerbs getVerbs hasVerb createRouteTrie routes
         options m route,
    renderRouter vfp mrp seq httpVerbs getVerbs hasVerb createRouteTrie
      routes options = Ok m ->
    In route (routes_list routes) ->
    exists verbs,
      getVerbs route = Some verbs
      /\ In ("import { "
             ++ JS.join ", "
                  (map (fun verb => verb ++ JS.showNum (route_index route))
                     verbs
                   +++ (if isSome (route_meta route)
                        then ["meta" ++ JS.showNum (route_index route)]
                        else []))
             ++ " } from '" ++ vfp ++ "/" ++ mrp ++ "route__"
             ++ route_key route ++ ".js';")
           (router_imports m)
      /\ forall entry,
           renderRouteEntry vfp mrp seq vrp getVerbs route = Ok entry ->
           entry_header entry
           = "// " ++ vfp ++ "/" ++ mrp ++ "route__" ++ route_key route
             ++ ".js"
           /\ map fn_name (entry_functions entry)
              = map (fun verb => verb ++ JS.showNum (route_index route)) verbs
           /\ forall meta,
                route_meta route = Some meta ->
                In ("export { default as meta"
                    ++ JS.showNum (route_index route) ++ " } from './"
                    ++ file_importPath meta ++ "';")
                  (entry_imports entry).
Proof.
  intros vfp mrp seq vrp httpVerbs getVerbs hasVerb createRouteTrie routes
    options m route H Hin.
  unfold renderRouter in H.
  destruct (routeImports _ _ _ _) as [imports|] eqn:Himports;
    [| discriminate].
  cbn [bind] in H.
  destruct (verbCases _ _ _ _) as [cases|]; [| discriminate].
  cbn [bind] in H. apply Ok_inj in H. subst m. cbn [router_imports].
  destruct (routeImports_lines vfp mrp getVerbs _ imports Himports)
    as [_ Hlines].
  destruct (Hlines route Hin) as [verbs [Hv Hline]].
  exists verbs. split; [exact Hv |]. split.
  - right. apply in_or_app. now left.
  - intros entry Hentry. unfold renderRouteEntry in Hentry.
    rewrite Hv in Hentry.
    pose proof (writeHandlers_result route verbs) as Hw.
    destruct (forallb (supportsVerb route) verbs).
    + destruct Hw as [fs [Hfs [Hnames _]]]. rewrite Hfs in Hentry.
      cbn [bind] in Hentry. apply Ok_inj in Hentry. subst entry.
      cbn [entry_header entry_functions entry_imports]. cbv zeta.
      split; [reflexivity |]. split; [exact Hnames |].
      intros meta Hmeta. rewrite Hmeta.
      do 4 (apply in_or_app; right). now left.
    + destruct Hw as [message Hfs]. rewrite Hfs in Hentry. discriminate.
Qed.

Lemma router_imports_are_exported_witness :
  let routes :=
    {| routes_list := [sampleChainRoute];
       routes_special := {| special_404 := None; special_500 := None |} |} in
  let getVerbs := fun _ : Route => Some ["get"; "post"] in
  exists m,
    renderRouter "virtual:marko-run" "__marko-run__" "?marko-server-entry"
      ["get"; "post"] getVerbs (fun _ _ => true) (fun _ => Ok sampleTrie)
      routes None = Ok m
    /\ In ("import { get3, post3 } from "
           ++ "'virtual:marko-run/__marko-run__route__item.js';")
         (router_imports m).
Proof.
  intros routes getVerbs. eexists. split; [reflexivity |].
  destruct (router_imports_are_exported "virtual:marko-run" "__marko-run__"
              "?marko-server-entry" "virtual:marko-run/internal"
              ["get"; "post"] getVerbs (fun _ _ => true)
              (fun _ => Ok sampleTrie) routes None _ sampleChainRoute
              eq_refl (or_introl eq_refl))
    as [verbs [Hv [Hline _]]].
  injection Hv as <-. exact Hline.
Defined.

(** X17. A match names a handler that the router imports.  If every verb
    that [hasVerb] grants a route is among the verbs [getVerbs] answers
    for it, and [createRouteTrie] builds tries that hold routes of its
    argument only, then a match that [match] returns is for a route of the
    list that has the verb, and the handler that its object literal names,
    [<verb><index>], is among the names that the router imports from the
    entry module of that route. *)
Theorem matched_handler_is_imported :
  forall vfp mrp seq httpVerbs getVerbs hasVerb createRouteTrie routes
         options m,
    renderRouter vfp mrp seq httpVerbs getVerbs hasVerb createRouteTrie
      routes options = Ok m ->
    (forall route verb,
       hasVerb route verb = true ->
       exists verbs, getVerbs route = Some verbs /\ In verb verbs) ->
    (forall rs trie,
       createRouteTrie rs = Ok trie ->
       incl (plainRoutes trie +++ catchAllRoutes trie) rs) ->
    forall method pathname mt,
      runMatch (router_matchers m) method pathname = Some (Some mt) ->
      In (match_route mt) (routes_list routes)
      /\ hasVerb (match_route mt) (match_verb mt) = true
      /\ exists names rest,
           show_Match mt
           = "{ handler: "
             ++ (match_verb mt ++ JS.showNum (route_index (match_route mt)))
             ++ rest
           /\ In (match_verb mt ++ JS.showNum (route_index (match_route mt)))
                names
           /\ In ("import { " ++ JS.join ", " names ++ " } from '" ++ vfp
                  ++ "/" ++ mrp ++ "route__" ++ route_key (match_route mt)
                  ++ ".js';")
                (router_imports m).
Proof.
  intros vfp mrp seq httpVerbs getVerbs hasVerb createRouteTrie routes
    options m H Hverbs Htries method pathname mt Hmatch.
  unfold renderRouter in H.
  destruct (routeImports _ _ _ _) as [imports|] eqn:Himports;
    [| discriminate].
  cbn [bind] in H.
  destruct (verbCases _ _ _ _) as [cases|] eqn:Hcases; [| discriminate].
  cbn [bind] in H. apply Ok_inj in H. subst m.
  cbn [router_matchers router_imports] in Hmatch |- *.
  destruct (verbCases_cases hasVerb createRouteTrie _ _ cases Hcases)
    as [_ Hall].
  unfold runMatch in Hmatch.
  destruct (runCases_matchers hasVerb createRouteTrie _ cases
              (normalizePathname pathname) (JS.toLowerCase method) Hall false)
    as [c [Hc [_ [Hret _]]]].
  rewrite Hc in Hmatch. destruct c as [|r|]; try discriminate.
  inversion Hmatch. subst r.
  destruct (Hret mt eq_refl) as [_ [_ [trie [Htrie Hroute]]]].
  apply (Htries _ trie Htrie), filter_In in Hroute.
  destruct Hroute as [Hin Hhas].
  split; [exact Hin |]. split; [exact Hhas |].
  destruct (Hverbs _ _ Hhas) as [verbs [Hv Hverb]].
  destruct (routeImports_lines vfp mrp getVerbs _ imports Himports)
    as [_ Hlines].
  destruct (Hlines _ Hin) as [verbs' [Hv' Hline]].
  rewrite Hv in Hv'. inversion Hv'. subst verbs'.
  eexists. eexists. split; [reflexivity |]. split.
  - apply in_or_app. left.
    apply (in_map (fun verb =>
                     verb ++ JS.showNum (route_index (match_route mt)))).
    exact Hverb.
  - right. apply in_or_app. left. exact Hline.
Qed.

(** The router of [/item/edit], [/item/$id] and [/item/$$rest]: the
    match of [/item/7] is the object of the dynamic route, which names the
    handler [get2] and the parameter [id], and [get2] is what the router
    imports from the entry of that route. *)
Lemma matched_handler_is_imported_witness :
  let routes :=
    {| routes_list := [editRoute; itemIdRoute; itemRestRoute];
       routes_special := {| special_404 := None; special_500 := None |} |} in
  let hasVerb := fun (_ : Route) (verb : HttpVerb) => (verb =? "get")%string in
  let getVerbs := fun _ : Route => Some ["get"] in
  exists m mt,
    renderRouter "virtual:marko-run" "__marko-run__" "?marko-server-entry"
      ["get"; "post"] getVerbs hasVerb sampleCreateRouteTrie routes None
    = Ok m
    /\ runMatch (router_matchers m) "GET" "/item/7" = Some (Some mt)
    /\ show_Match mt = "{ handler: get2, params: { id: s2 }, meta: {} }"
    /\ router_imports m
       = [ "import { NotHandled, NotMatched, createInput } from 'virtual:marko-run/internal';";
           "import { get1 } from 'virtual:marko-run/__marko-run__route__item.edit.js';";
           "import { get2 } from 'virtual:marko-run/__marko-run__route__item.$id.js';";
           "import { get3 } from 'virtual:marko-run/__marko-run__route__item.$$rest.js';" ]
    /\ In (match_route mt) (routes_list routes)
    /\ hasVerb (match_route mt) (match_verb mt) = true
    /\ exists names rest,
         show_Match mt
         = "{ handler: "
           ++ (match_verb mt ++ JS.showNum (route_index (match_route mt)))
           ++ rest
         /\ In (match_verb mt ++ JS.showNum (route_index (match_route mt)))
              names
         /\ In ("import { " ++ JS.join ", " names ++ " } from '"
                ++ "virtual:marko-run" ++ "/" ++ "__marko-run__" ++ "route__"
                ++ route_key (match_route mt) ++ ".js';")
              (router_imports m).
Proof.
  intros routes hasVerb getVerbs. eexists. eexists.
  split; [reflexivity |]. split; [reflexivity |]. split; [reflexivity |].
  split; [reflexivity |].
  refine (matched_handler_is_imported "virtual:marko-run"
            "__marko-run__" "?marko-server-entry" ["get"; "post"]
            getVerbs hasVerb sampleCreateRouteTrie routes None _
            eq_refl _ _ "GET" "/item/7" _ eq_refl).
  - intros route verb Hhas. exists ["get"]. split; [reflexivity |].
    left. symmetry. now apply String.eqb_eq.
  - intros rs trie Htrie.
    destruct rs as [|a [|b [|c [|d rest]]]]; try discriminate Htrie.
    injection Htrie as <-. intros r Hr. cbn in Hr. cbn. tauto.
Defined.

(** ** The paths of the route types *)

Lemma spanSegment_name (name rest : string) :
  noSlashChars name = true ->
  rest = EmptyString \/ (exists r, rest = String "/" r) ->
  spanSegment (name ++ rest) = (name, rest).
Proof.
  intros Hname Hrest. induction name as [|c name IH].
  - destruct Hrest as [-> | [r ->]]; reflexivity.
  - cbn [noSlashChars allChars] in Hname. apply andb_prop in Hname.
    destruct Hname as [Hc Hname].
    change (String c name ++ rest) with (String c (name ++ rest)).
    cbn [spanSegment]. apply negb_true_iff in Hc. rewrite Hc.
    now rewrite (IH Hname).
Qed.

Lemma findSub_cons (needle : string) (c : ascii) (s : string) :
  findSub needle (String c s) = None ->
  String.prefix needle (String c s) = false /\ findSub needle s = None.
Proof.
  cbn [findSub]. destruct (String.prefix needle (String c s));
    [discriminate |].
  destruct (findSub needle s); [discriminate | now split].
Qed.

Lemma replaceFirstParam_before (before rest : string) :
  findSub "/$" before = None ->
  replaceFirstParam (before ++ String "/" rest)
  = before ++ replaceFirstParam (String "/" rest).
Proof.
  induction before as [|c before IH]; intros Hnone; [reflexivity |].
  apply findSub_cons in Hnone. destruct Hnone as [Hprefix Hnone].
  change (String c before ++ String "/" rest)
    with (String c (before ++ String "/" rest)).
  cbn [replaceFirstParam]. rewrite (IH Hnone).
  destruct (c =? "/")%char eqn:Hc; [| now destruct (before ++ _)].
  destruct before as [|d before']; [reflexivity |].
  change (String d before' ++ String "/" rest)
    with (String d (before' ++ String "/" rest)).
  cbn iota.
  destruct (d =? "$")%char eqn:Hd; [| reflexivity].
  apply Ascii.eqb_eq in Hc, Hd. subst c d.
  destruct before'; discriminate Hprefix.
Qed.

Lemma replaceFirstParam_none (path : string) :
  findSub "/$" path = None -> replaceFirstParam path = path.
Proof.
  induction path as [|c path IH]; intros Hnone; [reflexivity |].
  apply findSub_cons in Hnone. destruct Hnone as [Hprefix Hnone].
  cbn [replaceFirstParam]. rewrite (IH Hnone).
  destruct (c =? "/")%char eqn:Hc; [| now destruct path].
  destruct path as [|d path']; [reflexivity |].
  destruct (d =? "$")%char eqn:Hd; [| reflexivity].
  apply Ascii.eqb_eq in Hc, Hd. subst c d.
  destruct path'; discriminate Hprefix.
Qed.

(** X18. The path type of a route rewrites the first parameter of the
    path and nothing after it.  For a path that goes on, after a part
    without [/$], with a parameter and then with the end of the path or a
    slash and any text: a dynamic parameter [/$name] becomes [/:name], a
    catch-all parameter [/$$name] becomes [/:name*], or [/:rest*] when it
    has no name, and the text after the parameter is kept as it is, with
    the parameters it may hold.  A path without [/$] is kept as it is. *)
Theorem path_type_rewrites_first_parameter_only :
  forall before name after : string,
    findSub "/$" before = None ->
    noSlashChars name = true ->
    after = EmptyString \/ (exists r, after = String "/" r) ->
    (String.prefix "$" name = false ->
     replaceFirstParam (before ++ "/$" ++ name ++ after)
     = before ++ "/:" ++ name ++ after)
    /\ replaceFirstParam (before ++ "/$$" ++ name ++ after)
       = before ++ "/:" ++ (if JS.truthy name then name else "rest") ++ "*"
         ++ after
    /\ replaceFirstParam before = before.
Proof.
  intros before name after Hbefore Hname Hafter.
  pose proof (spanSegment_name name after Hname Hafter) as Hspan.
  split; [| split].
  - intros Hdollar.
    change ("/$" ++ name ++ after) with (String "/" ("$" ++ name ++ after)).
    rewrite (replaceFirstParam_before before _ Hbefore). f_equal.
    change (String "/" ("$" ++ name ++ after))
      with (String "/" (String "$" (name ++ after))).
    cbn [replaceFirstParam Ascii.eqb Bool.eqb andb].
    destruct name as [|e name'].
    + cbn [append] in Hspan |- *.
      destruct Hafter as [-> | [r ->]]; reflexivity.
    + change (String e name' ++ after) with (String e (name' ++ after))
        in Hspan |- *.
      cbn [String.prefix] in Hdollar.
      destruct (Ascii.ascii_dec "$" e) as [<- | Hne];
        [now destruct name' |].
      destruct (e =? "$")%char eqn:He;
        [apply Ascii.eqb_eq in He; congruence |].
      rewrite Hspan. now rewrite app_assoc_str.
  - change ("/$$" ++ name ++ after)
      with (String "/" ("$$" ++ name ++ after)).
    rewrite (replaceFirstParam_before before _ Hbefore). f_equal.
    change (String "/" ("$$" ++ name ++ after))
      with (String "/" (String "$" (String "$" (name ++ after)))).
    cbn [replaceFirstParam Ascii.eqb Bool.eqb andb].
    rewrite Hspan. destruct (JS.truthy name); now rewrite !app_assoc_str.
  - now apply replaceFirstParam_none.
Qed.

Lemma path_type_rewrites_first_parameter_only_witness :
  findSub "/$" "/shop" = None
  /\ replaceFirstParam "/shop/$category/$item" = "/shop/:category/$item"
  /\ routePathType (sampleRoute "shop" "/shop/$category/$item" 1 None None [])
     = "`/shop/:category/$item`".
Proof.
  split; [reflexivity |]. split; [| reflexivity].
  exact (proj1 (path_type_rewrites_first_parameter_only "/shop" "category"
                  "/$item" eq_refl eq_refl
                  (or_intror (ex_intro _ "$item" eq_refl)))
           eq_refl).
Defined.

Lemma hrefFrom_slash (rest : string) :
  hrefFrom false (String "/" rest) = String "/" (hrefFrom false rest).
Proof. reflexivity. Qed.

Lemma hrefFrom_plain (text rest : string) :
  plainChars text = true ->
  hrefFrom false (text ++ rest) = text ++ hrefFrom false rest.
Proof.
  induction text as [|c text IH]; intros Hplain; [reflexivity |].
  cbn [plainChars allChars] in Hplain. apply andb_prop in Hplain.
  destruct Hplain as [Hc Hplain]. apply andb_prop in Hc.
  destruct Hc as [_ Hdollar]. apply negb_true_iff in Hdollar.
  change (String c text ++ rest) with (String c (text ++ rest)).
  cbn [hrefFrom]. rewrite Hdollar. now rewrite (IH Hplain).
Qed.

Lemma hrefFrom_name (name rest : string) :
  noSlashChars name = true ->
  rest = EmptyString \/ (exists r, rest = String "/" r) ->
  hrefFrom true (name ++ rest) = name ++ "}" ++ hrefFrom false rest.
Proof.
  intros Hname Hrest. induction name as [|c name IH].
  - destruct Hrest as [-> | [r ->]]; reflexivity.
  - cbn [noSlashChars allChars] in Hname. apply andb_prop in Hname.
    destruct Hname as [Hc Hname]. apply negb_true_iff in Hc.
    change (String c name ++ rest) with (String c (name ++ rest)).
    cbn [hrefFrom]. rewrite Hc. now rewrite (IH Hname).
Qed.

Lemma pathOfSegments_start (render : Segment -> string)
    (segments : list Segment) :
  pathOfSegments render segments = EmptyString
  \/ exists r, pathOfSegments render segments = String "/" r.
Proof. destruct segments; [now left | right; eexists; reflexivity]. Qed.

Lemma hrefPath_segments :
  forall segments : list Segment,
    forallb segmentOk segments = true ->
    hrefPath (pathOfSegments sourceSegment segments)
    = pathOfSegments hrefSegment segments.
Proof.
  unfold hrefPath.
  induction segments as [|segment segments IH]; intros Hok; [reflexivity |].
  cbn [forallb] in Hok. apply andb_prop in Hok. destruct Hok as [Hseg Hok].
  specialize (IH Hok).
  pose proof (pathOfSegments_start sourceSegment segments) as Hstart.
  cbn [pathOfSegments].
  change ("/" ++ sourceSegment segment ++ pathOfSegments sourceSegment segments)
    with (String "/" (sourceSegment segment
                      ++ pathOfSegments sourceSegment segments)).
  rewrite hrefFrom_slash.
  change ("/" ++ hrefSegment segment ++ pathOfSegments hrefSegment segments)
    with (String "/" (hrefSegment segment
                      ++ pathOfSegments hrefSegment segments)).
  f_equal.
  destruct segment as [text | name | name]; cbn [sourceSegment hrefSegment
                                                 segmentOk] in Hseg |- *.
  - rewrite (hrefFrom_plain _ _ Hseg). now rewrite IH.
  - apply andb_prop in Hseg. destruct Hseg as [Hname Hfirst].
    destruct name as [|d name']; [discriminate |].
    apply negb_true_iff in Hfirst.
    cbn [noSlashChars allChars] in Hname. apply andb_prop in Hname.
    destruct Hname as [Hslash Hname]. apply negb_true_iff in Hslash.
    change (("$" ++ String d name') ++ pathOfSegments sourceSegment segments)
      with (String "$" (String d (name'
                                  ++ pathOfSegments sourceSegment segments))).
    cbn [hrefFrom Ascii.eqb Bool.eqb andb]. rewrite Hfirst, Hslash.
    rewrite (hrefFrom_name _ _ Hname Hstart), IH.
    cbn [append]. now rewrite !app_assoc_str.
  - apply andb_prop in Hseg. destruct Hseg as [Hname Hne].
    destruct name as [|e name']; [discriminate |].
    cbn [noSlashChars allChars] in Hname. apply andb_prop in Hname.
    destruct Hname as [Hslash Hname]. apply negb_true_iff in Hslash.
    change (("$$" ++ String e name')
            ++ pathOfSegments sourceSegment segments)
      with (String "$" (String "$"
              (String e (name' ++ pathOfSegments sourceSegment segments)))).
    cbn [hrefFrom Ascii.eqb Bool.eqb andb]. rewrite Hslash.
    rewrite (hrefFrom_name _ _ Hname Hstart), IH.
    cbn [append]. now rewrite !app_assoc_str.
Qed.

Lemma hrefFrom_unchanged (path : string) :
  allChars (fun c => negb (c =? "$")%char) path = true ->
  hrefFrom false path = path.
Proof.
  induction path as [|c path IH]; intros Hplain; [reflexivity |].
  cbn [allChars] in Hplain. apply andb_prop in Hplain.
  destruct Hplain as [Hc Hplain]. apply negb_true_iff in Hc.
  cbn [hrefFrom]. rewrite Hc. now rewrite (IH Hplain).
Qed.

(** X19. The href path of a route rewrites every parameter of a
    well-formed path.  For a path made of segments, each after a slash,
    that are literal text without [$], a dynamic parameter [$name] or a
    catch-all parameter [$$name] with a name that is not empty, the href
    path has the same literal segments, [${name}] for every dynamic
    parameter and [${...name}] for every catch-all parameter.  A path
    without [$] is its own href path. *)
Theorem href_path_rewrites_every_parameter :
  (forall segments : list Segment,
     forallb segmentOk segments = true ->
     hrefPath (pathOfSegments sourceSegment segments)
     = pathOfSegments hrefSegment segments)
  /\ (forall path : string,
        allChars (fun c => negb (c =? "$")%char) path = true ->
        hrefPath path = path).
Proof.
  split.
  - exact hrefPath_segments.
  - intros path Hplain. unfold hrefPath. now apply hrefFrom_unchanged.
Qed.

Lemma href_path_rewrites_every_parameter_witness :
  forallb segmentOk [Literal "shop"; Dynamic "category"; CatchAll "rest"]
  = true
  /\ hrefPath "/shop/$category/$$rest" = "/shop/${category}/${...rest}".
Proof.
  split; [reflexivity |].
  exact (proj1 href_path_rewrites_every_parameter
           [Literal "shop"; Dynamic "category"; CatchAll "rest"] eq_refl).
Defined.

(** A catch-all parameter without a name is not rewritten as one: the
    second [$] is taken for the name. *)
Remark href_path_of_unnamed_catchAll : hrefPath "/files/$$" = "/files/${$}".
Proof. reflexivity. Qed.

(** ** The sets of paths *)

Lemma setAdd_In (x : string) (set : list string) (p : string) :
  In p (setAdd x set) <-> p = x \/ In p set.
Proof.
  unfold setAdd. destruct (existsb (String.eqb x) set) eqn:E.
  - apply existsb_exists in E. destruct E as [y [Hy Heq]].
    apply String.eqb_eq in Heq. subst y.
    split; [now right | intros [-> | H]; assumption].
  - rewrite in_app_iff. cbn [In]. split.
    + intros [H | [H | []]]; [now right | now left].
    + intros [H | H]; [right; now left | now left].
Qed.

Lemma setAdd_NoDup (x : string) (set : list string) :
  NoDup set -> NoDup (setAdd x set).
Proof.
  intros Hset. unfold setAdd.
  destruct (existsb (String.eqb x) set) eqn:E; [exact Hset |].
  assert (Hnot : ~ In x set).
  { intros Hin.
    assert (Htrue : existsb (String.eqb x) set = true).
    { apply existsb_exists. exists x. split; [exact Hin |].
      apply String.eqb_refl. }
    congruence. }
  clear E. induction Hset as [|y set Hy Hset IH]; cbn [app].
  - constructor; [intros [] | constructor].
  - constructor.
    + rewrite in_app_iff. intros [H | [H | []]]; [now apply Hy |].
      apply Hnot. now left.
    + apply IH. intros H. apply Hnot. now right.
Qed.

(** The paths of one route, added to the sets it counts for. *)
Lemma addPaths_sets (isGet isPost : bool) (paths : list string) :
  forall sets,
    let sets' :=
      fold_left
        (fun sets path =>
           ((if isGet then setAdd path (fst sets) else fst sets),
            (if isPost then setAdd path (snd sets) else snd sets)))
        paths sets in
    (NoDup (fst sets) -> NoDup (fst sets'))
    /\ (NoDup (snd sets) -> NoDup (snd sets'))
    /\ (forall p,
          In p (fst sets')
          <-> In p (fst sets) \/ isGet = true /\ In p paths)
    /\ (forall p,
          In p (snd sets')
          <-> In p (snd sets) \/ isPost = true /\ In p paths).
Proof.
  induction paths as [|path paths IH]; intros sets; cbn [fold_left].
  - repeat split; try tauto; intros [H | [_ []]]; exact H.
  - match goal with
    | |- context [fold_left _ paths ?s] => destruct (IH s) as [H1 [H2 [H3 H4]]]
    end.
    cbv zeta in H1, H2, H3, H4. cbn [fst snd] in H1, H2, H3, H4.
    split; [| split; [| split]].
    + intros Hset. apply H1. destruct isGet; [now apply setAdd_NoDup | exact Hset].
    + intros Hset. apply H2. destruct isPost; [now apply setAdd_NoDup | exact Hset].
    + intros p. rewrite H3. cbn [In]. destruct isGet.
      * rewrite setAdd_In. intuition congruence.
      * intuition congruence.
    + intros p. rewrite H4. cbn [In]. destruct isPost.
      * rewrite setAdd_In. intuition congruence.
      * intuition congruence.
Qed.

Lemma addRoutePaths_sets (sets : list string * list string) (route : Route) :
  let sets' := addRoutePaths sets route in
  (NoDup (fst sets) -> NoDup (fst sets'))
  /\ (NoDup (snd sets) -> NoDup (snd sets'))
  /\ (forall p,
        In p (fst sets')
        <-> In p (fst sets)
            \/ routeIsGet route = true /\ In p (routePaths route))
  /\ (forall p,
        In p (snd sets')
        <-> In p (snd sets)
            \/ routeIsPost route = true /\ In p (routePaths route)).
Proof.
  cbv zeta. unfold addRoutePaths.
  assert (Hnone :
    isSome (route_page route) || isSome (route_handler route) = false ->
    routeIsGet route = false /\ routeIsPost route = false).
  { unfold routeIsGet, routeIsPost, handlerIncludes.
    destruct (route_page route), (route_handler route);
      cbn; intros H; try discriminate H; now split. }
  destruct (isSome (route_page route) || isSome (route_handler route)).
  - destruct (routeIsGet route || routeIsPost route) eqn:Hany.
    + apply addPaths_sets.
    + apply orb_false_elim in Hany. destruct Hany as [-> ->].
      repeat split; try tauto; intros [H | [H _]];
        first [exact H | discriminate H].
  - destruct (Hnone eq_refl) as [-> ->].
    repeat split; try tauto; intros [H | [H _]];
        first [exact H | discriminate H].
Qed.

Lemma foldRoutePaths_sets (routes : list Route) :
  forall sets,
    let sets' := fold_left addRoutePaths routes sets in
    (NoDup (fst sets) -> NoDup (fst sets'))
    /\ (NoDup (snd sets) -> NoDup (snd sets'))
    /\ (forall p,
          In p (fst sets')
          <-> In p (fst sets)
              \/ exists route,
                   In route routes /\ routeIsGet route = true
                   /\ In p (routePaths route))
    /\ (forall p,
          In p (snd sets')
          <-> In p (snd sets)
              \/ exists route,
                   In route routes /\ routeIsPost route = true
                   /\ In p (routePaths route)).
Proof.
  induction routes as [|route routes IH]; intros sets; cbn [fold_left].
  - repeat split; try tauto; intros [H | [route [[] _]]]; exact H.
  - destruct (IH (addRoutePaths sets route)) as [H1 [H2 [H3 H4]]].
    destruct (addRoutePaths_sets sets route) as [G1 [G2 [G3 G4]]].
    cbv zeta in H1, H2, H3, H4, G1, G2, G3, G4.
    split; [tauto | split; [tauto | split]].
    + intros p. rewrite H3, G3. split.
      * intros [[H | [Hget Hin]] | [r [Hr [Hget Hin]]]].
        -- now left.
        -- right. exists route. split; [now left | now split].
        -- right. exists r. split; [now right | now split].
      * intros [H | [r [[<- | Hr] [Hget Hin]]]].
        -- left. now left.
        -- left. right. now split.
        -- right. exists r. now split.
    + intros p. rewrite H4, G4. split.
      * intros [[H | [Hpost Hin]] | [r [Hr [Hpost Hin]]]].
        -- now left.
        -- right. exists route. split; [now left | now split].
        -- right. exists r. split; [now right | now split].
      * intros [H | [r [[<- | Hr] [Hpost Hin]]]].
        -- left. now left.
        -- left. right. now split.
        -- right. exists r. now split.
Qed.

(** X20. The sets [GetPaths] and [PostPaths] of the route types hold
    every path once, and they hold exactly the paths of the routes that
    can be fetched and posted to: a path is in [GetPaths] when it is one
    of the paths of a route with a page or with a handler whose verbs
    include [get], and in [PostPaths] when it is one of the paths of a
    route with a handler whose verbs include [post]; a route with neither
    adds nothing. *)
Theorem collected_paths_are_the_route_paths :
  forall routes : list Route,
    NoDup (fst (collectPaths routes))
    /\ NoDup (snd (collectPaths routes))
    /\ (forall p,
          In p (fst (collectPaths routes))
          <-> exists route,
                In route routes /\ routeIsGet route = true
                /\ In p (routePaths route))
    /\ (forall p,
          In p (snd (collectPaths routes))
          <-> exists route,
                In route routes /\ routeIsPost route = true
                /\ In p (routePaths route)).
Proof.
  intros routes. unfold collectPaths.
  destruct (foldRoutePaths_sets routes ([], [])) as [H1 [H2 [H3 H4]]].
  cbv zeta in H1, H2, H3, H4. cbn [fst snd] in H1, H2, H3, H4.
  split; [apply H1; constructor |]. split; [apply H2; constructor |].
  split; intros p; [rewrite H3 | rewrite H4]; cbn [In]; tauto.
Qed.

Lemma noDollar_literals (literals : list string) :
  forallb plainChars literals = true ->
  allChars (fun c => negb (c =? "$")%char)
    (pathOfSegments hrefSegment (map Literal literals))
  = true.
Proof.
  induction literals as [|text literals IH]; intros Hok; [reflexivity |].
  cbn [forallb] in Hok. apply andb_prop in Hok. destruct Hok as [Htext Hok].
  cbn [map pathOfSegments hrefSegment].
  change ("/" ++ text ++ pathOfSegments hrefSegment (map Literal literals))
    with (String "/"
            (text ++ pathOfSegments hrefSegment (map Literal literals))).
  cbn [allChars Ascii.eqb Bool.eqb andb negb].
  specialize (IH Hok). revert Htext. generalize (pathOfSegments hrefSegment
                                                   (map Literal literals)) IH.
  intros rest Hrest. induction text as [|c text IHt]; intros Htext;
    [exact Hrest |].
  cbn [plainChars allChars] in Htext. apply andb_prop in Htext.
  destruct Htext as [Hc Htext]. apply andb_prop in Hc.
  destruct Hc as [_ Hc].
  change (String c text ++ rest) with (String c (text ++ rest)).
  cbn [allChars]. rewrite Hc. now apply IHt.
Qed.

Lemma findSub_splat (before rest : string) :
  allChars (fun c => negb (c =? "$")%char) before = true ->
  findSub "/${..." (before ++ "/${..." ++ rest)
  = Some (String.length before).
Proof.
  induction before as [|c before IH]; intros Hplain.
  - cbn [append]. change ("/${..." ++ rest)
      with (String "/" (String "$" (String "{" (String "." (String "."
             (String "." rest)))))).
    cbn [findSub]. now destruct rest.
  - cbn [allChars] in Hplain. apply andb_prop in Hplain.
    destruct Hplain as [Hc Hplain].
    change (String c before ++ "/${..." ++ rest)
      with (String c (before ++ "/${..." ++ rest)).
    cbn [findSub]. rewrite (IH Hplain).
    assert (Hprefix :
      String.prefix "/${..." (String c (before ++ "/${..." ++ rest)) = false).
    { cbn [String.prefix].
      destruct (Ascii.ascii_dec "/" c) as [_ | _]; [| reflexivity].
      destruct before as [|d before'].
      - reflexivity.
      - change (String d before' ++ "/${..." ++ rest)
          with (String d (before' ++ "/${..." ++ rest)).
        cbn [String.prefix].
        destruct (Ascii.ascii_dec "$" d) as [<- | _]; [| reflexivity].
        cbn [allChars Ascii.eqb Bool.eqb andb negb] in Hplain.
        discriminate Hplain. }
    now rewrite Hprefix.
Qed.

(** X21. A route whose path is literal segments followed by a catch-all
    parameter adds two paths to the sets: the path of the literal
    segments, or [/] when there is none, and the path with the catch-all
    parameter written as [${...name}]. *)
Theorem catchAll_route_adds_its_prefix :
  forall (route : Route) (literals : list string) (name : string),
    forallb plainChars literals = true ->
    noSlashChars name = true -> JS.truthy name = true ->
    route_path route
    = pathOfSegments sourceSegment (map Literal literals +++ [CatchAll name]) ->
    routePaths route
    = [ match literals with
        | [] => "/"
        | _ => pathOfSegments hrefSegment (map Literal literals)
        end;
        pathOfSegments hrefSegment (map Literal literals)
        ++ "/${..." ++ name ++ "}" ].
Proof.
  intros route literals name Hliterals Hname Hne Hpath.
  assert (Hok :
    forallb segmentOk (map Literal literals +++ [CatchAll name]) = true).
  { rewrite forallb_app. cbn [forallb segmentOk].
    rewrite Hname, Hne. cbn [andb]. rewrite andb_true_r.
    clear - Hliterals. induction literals as [|text literals IH];
      [reflexivity |].
    cbn [forallb map segmentOk] in Hliterals |- *.
    apply andb_prop in Hliterals. destruct Hliterals as [-> Hliterals].
    now apply IH. }
  assert (Hsplit :
    pathOfSegments hrefSegment (map Literal literals +++ [CatchAll name])
    = pathOfSegments hrefSegment (map Literal literals)
      ++ "/${..." ++ name ++ "}").
  { clear. induction literals as [|text literals IH].
    - cbn [map app pathOfSegments hrefSegment append].
      now rewrite app_assoc_str, app_empty_r.
    - cbn [map app pathOfSegments]. rewrite IH.
      now rewrite !app_assoc_str. }
  unfold routePaths. cbv zeta.
  rewrite Hpath, (hrefPath_segments _ Hok), Hsplit.
  set (before := pathOfSegments hrefSegment (map Literal literals)).
  unfold indexOfStr.
  rewrite (findSub_splat before (name ++ "}")
             (noDollar_literals literals Hliterals)).
  assert (Hpos : (0 <=? Z.of_nat (String.length before)) = true)
    by (apply Z.leb_le; lia).
  rewrite Hpos.
  assert (Hslice :
    JS.slice (before ++ "/${..." ++ name ++ "}") 0
      (Z.of_nat (String.length before))
    = before).
  { rewrite slice_inside.
    - rewrite Z.sub_0_r, Nat2Z.id. cbn [Z.to_nat JS.drop].
      replace (JS.drop 0 (before ++ "/${..." ++ name ++ "}"))
        with (before ++ "/${..." ++ name ++ "}")
        by (now destruct (before ++ _)).
      apply take_app.
    - lia.
    - rewrite len_app. unfold JS.len. lia. }
  rewrite Hslice. cbn [app]. f_equal.
  unfold before. destruct literals as [|text literals']; reflexivity.
Qed.

Lemma catchAll_route_adds_its_prefix_witness :
  let route := sampleRoute "files" "/files/$$rest" 1 None None [] in
  route_path route
  = pathOfSegments sourceSegment (map Literal ["files"] +++ [CatchAll "rest"])
  /\ routePaths route = ["/files"; "/files/${...rest}"].
Proof.
  intros route. split; [reflexivity |].
  exact (catchAll_route_adds_its_prefix route ["files"] "rest" eq_refl eq_refl
           eq_refl eq_refl).
Defined.

(** ** When the router is rendered *)

Lemma routeImports_ok (vfp mrp : string)
    (getVerbs : Route -> option (list HttpVerb)) (routes : list Route) :
  (exists lines, routeImports vfp mrp getVerbs routes = Ok lines)
  <-> forall route,
        In route routes -> exists verbs, getVerbs route = Some verbs.
Proof.
  induction routes as [|r routes IH]; cbn [routeImports].
  - split; [intros _ route [] | intros _; now eexists].
  - destruct (getVerbs r) as [verbs|] eqn:Hv.
    + destruct (routeImports vfp mrp getVerbs routes) as [rest|message];
        cbn [bind].
      * split; [| intros _; now eexists].
        intros _ route [<- | Hin]; [now exists verbs |].
        now apply (proj1 IH); [eexists |].
      * split.
        -- intros [lines H]. discriminate.
        -- intros H. destruct (proj2 IH) as [lines Hlines]; [| discriminate].
           intros route Hin. apply H. now right.
    + split.
      * intros [lines H]. discriminate.
      * intros H. destruct (H r (or_introl eq_refl)) as [verbs Hverbs].
        congruence.
Qed.

Lemma verbCases_ok (hasVerb : Route -> HttpVerb -> bool)
    (createRouteTrie : list Route -> result RouteTrie)
    (routes : list Route) (verbs : list HttpVerb) :
  (exists cases, verbCases hasVerb createRouteTrie routes verbs = Ok cases)
  <-> forall verb,
        In verb verbs ->
        existsb (fun route => hasVerb route verb) routes = true ->
        exists trie,
          createRouteTrie (filter (fun route => hasVerb route verb) routes)
          = Ok trie.
Proof.
  induction verbs as [|verb verbs IH]; cbn [verbCases].
  - split; [intros _ v [] | intros _; now eexists].
  - pose proof (filter_nil_existsb (fun route => hasVerb route verb) routes)
      as Hsome.
    destruct (filter (fun route => hasVerb route verb) routes)
      as [|r0 rs] eqn:Hf.
    + rewrite IH. split.
      * intros H v [<- | Hin] Hv; [congruence | now apply H].
      * intros H v Hin. apply H. now right.
    + destruct (createRouteTrie (r0 :: rs)) as [trie|message] eqn:Htrie;
        cbn [bind].
      * destruct (verbCases hasVerb createRouteTrie routes verbs)
          as [cases|message]; cbn [bind].
        -- split; [| intros _; now eexists].
           intros _ v [<- | Hin] Hv.
           ++ exists trie. now rewrite Hf.
           ++ now apply (proj1 IH); [eexists | |].
        -- split.
           ++ intros [cases H]. discriminate.
           ++ intros H. destruct (proj2 IH) as [cases Hcases];
                [| discriminate].
              intros v Hin. apply H. now right.
      * split.
        -- intros [cases H]. discriminate.
        -- intros H. destruct (H verb (or_introl eq_refl) Hsome) as [trie Ht].
           rewrite Hf in Ht. congruence.
Qed.

(** X22. A router is rendered exactly when [getVerbs] answers for every
    route of the list and [createRouteTrie] builds a trie for every verb
    of [httpVerbs] that some route has, from the routes that have it; it
    is not asked for a trie for a verb that no route has. *)
Theorem renderRouter_succeeds_iff :
  forall vfp mrp seq httpVerbs getVerbs hasVerb createRouteTrie routes
         options,
    (exists m,
       renderRouter vfp mrp seq httpVerbs getVerbs hasVerb createRouteTrie
         routes options = Ok m)
    <-> (forall route,
           In route (routes_list routes) ->
           exists verbs, getVerbs route = Some verbs)
        /\ (forall verb,
              In verb httpVerbs ->
              existsb (fun route => hasVerb route verb) (routes_list routes)
              = true ->
              exists trie,
                createRouteTrie
                  (filter (fun route => hasVerb route verb)
                     (routes_list routes))
                = Ok trie).
Proof.
  intros vfp mrp seq httpVerbs getVerbs hasVerb createRouteTrie routes
    options.
  rewrite <- routeImports_ok with (vfp := vfp) (mrp := mrp).
  rewrite <- verbCases_ok. unfold renderRouter.
  destruct (routeImports vfp mrp getVerbs (routes_list routes))
    as [imports|message]; cbn [bind].
  - destruct (verbCases hasVerb createRouteTrie (routes_list routes)
                httpVerbs) as [cases|message']; cbn [bind].
    + split; [intros _; split; now eexists | intros _; now eexists].
    + split; [intros [m H]; discriminate |].
      intros [_ [cases H]]. discriminate.
  - split; [intros [m H]; discriminate |].
    intros [[lines H] _]. discriminate.
Qed.

(** ** The page of a dispatch function *)

Lemma page_or_call (body : list cstmt) :
  (List.length (flat_map calledName body)
   + List.length (filter isPageStmt body))%nat
  = List.length body.
Proof.
  induction body as [|s body IH]; [reflexivity |].
  destruct s; cbn [flat_map calledName filter isPageStmt app List.length];
    lia.
Qed.

Section EntryPage.

Variables virtualFilePrefix markoRunFilePrefix : string.
Variables serverEntryQuery virtualRuntimePrefix : string.
Variable getVerbs : Route -> option (list HttpVerb).

(** X23. The page is in scope where a dispatch function uses it.  A
    dispatch function of a rendered route entry that holds a statement
    building the page response, [new Response(page.stream(buildInput()),
    ...)], is the function of the verb [get] of a route with a page: it
    has the parameter [buildInput], and the entry imports [page] from the
    template module of the route. *)
Theorem page_is_in_scope_where_used :
  forall route m f s,
    renderRouteEntry virtualFilePrefix markoRunFilePrefix serverEntryQuery
      virtualRuntimePrefix getVerbs route = Ok m ->
    In f (entry_functions m) -> In s (fn_body f) -> isPageStmt s = true ->
    fn_name f = "get" ++ JS.showNum (route_index route)
    /\ fn_params f = ["context"; "buildInput"]
    /\ In ("import page from '" ++ virtualFilePrefix ++ "/"
           ++ markoRunFilePrefix ++ "route__" ++ route_key route ++ ".marko"
           ++ serverEntryQuery ++ "';")
         (entry_imports m).
Proof.
  intros route m f s Hm Hf Hs Hpage.
  destruct (getVerbs route) as [verbs|] eqn:Hv.
  2:{ unfold renderRouteEntry in Hm. rewrite Hv in Hm. discriminate. }
  destruct (entry_functions_verbs virtualFilePrefix markoRunFilePrefix
              serverEntryQuery virtualRuntimePrefix getVerbs route verbs m
              Hm Hv f Hf) as [verb [_ Hfn]].
  destruct (writeRouteEntryHandler_body route verb f Hfn)
    as [consts [ret [Hbody [_ [_ [Hlen [Hcalled _]]]]]]].
  assert (Happlies : pageApplies route verb = true).
  { pose proof (page_or_call (fn_body f)) as Hcount.
    assert (Hall : List.length (fn_body f) = S (List.length consts)).
    { rewrite Hbody, List.length_app. cbn [List.length]. lia. }
    rewrite Hcalled, length_rev, List.length_app, Hall in Hcount.
    unfold middlewareNames in Hcount. rewrite length_map in Hcount.
    destruct (pageApplies route verb); [reflexivity |].
    assert (Hin : In s (filter isPageStmt (fn_body f)))
      by (apply filter_In; now split).
    destruct (filter isPageStmt (fn_body f)); [contradiction |].
    cbn [List.length] in Hcount. lia. }
  unfold pageApplies in Happlies. apply andb_prop in Happlies.
  destruct Happlies as [Hsome Hget]. apply String.eqb_eq in Hget. subst verb.
  pose proof (writeRouteEntryHandler_result route "get") as Hresult.
  unfold supportsVerb, pageApplies in Hresult. rewrite Hsome in Hresult.
  cbn [andb orb String.eqb Ascii.eqb Bool.eqb] in Hresult.
  destruct Hresult as [f' [Hf' [Hname Hparams]]].
  rewrite Hfn in Hf'. apply Ok_inj in Hf'. subst f'.
  split; [exact Hname |]. split; [exact Hparams |].
  unfold renderRouteEntry in Hm. rewrite Hv in Hm.
  destruct (writeHandlers route verbs) as [fs|message]; [| discriminate].
  cbn [bind] in Hm. apply Ok_inj in Hm. subst m.
  cbn [entry_imports]. cbv zeta. rewrite Hsome.
  do 3 (apply in_or_app; right). apply in_or_app. left. now left.
Qed.

End EntryPage.

Lemma page_is_in_scope_where_used_witness :
  let getVerbs := fun _ : Route => Some ["get"; "post"] in
  exists m,
    renderRouteEntry "virtual:marko-run" "__marko-run__" "?marko-server-entry"
      "virtual:marko-run/internal" getVerbs sampleChainRoute = Ok m
    /\ In ("import page from 'virtual:marko-run/__marko-run__route__item"
           ++ ".marko?marko-server-entry';")
         (entry_imports m).
Proof.
  intros getVerbs. eexists. split; [reflexivity |].
  refine (proj2 (proj2 (page_is_in_scope_where_used "virtual:marko-run"
                          "__marko-run__" "?marko-server-entry"
                          "virtual:marko-run/internal" getVerbs
                          sampleChainRoute _ _ (ConstPage "__page") eq_refl
                          (or_introl eq_refl) (or_introl eq_refl) eq_refl))).
Defined.

(** ** The arguments of [match] *)

Lemma lowerChar_idempotent (c : ascii) :
  JS.lowerChar (JS.lowerChar c) = JS.lowerChar c.
Proof.
  destruct c as [[] [] [] [] [] [] [] []]; reflexivity.
Qed.

Lemma toLowerCase_idempotent (s : string) :
  JS.toLowerCase (JS.toLowerCase s) = JS.toLowerCase s.
Proof.
  induction s as [|c s IH]; [reflexivity |].
  cbn [JS.toLowerCase]. now rewrite lowerChar_idempotent, IH.
Qed.

Lemma normalizePathname_slash (pathname : string) :
  exists rest, normalizePathname pathname = String "/" rest.
Proof.
  destruct pathname as [|c rest]; [now exists EmptyString |].
  cbn [normalizePathname].
  destruct (Ascii.eqb_spec c "/") as [-> | _]; eexists; reflexivity.
Qed.

(** X24. [match] reads the method up to the case of its letters and the
    pathname up to a missing first slash: the answer for a method is the
    answer for the method in lower case, the answer for an empty pathname
    is the answer for [/], and the answer for a pathname that does not
    start with a slash is the answer for the pathname after a slash; a
    pathname that starts with a slash is taken as it is. *)
Theorem match_normalizes_its_arguments :
  forall (matchers : list (HttpVerb * list stmt)) (method pathname : string),
    runMatch matchers method pathname
    = runMatch matchers (JS.toLowerCase method) (normalizePathname pathname)
    /\ runMatch matchers method EmptyString = runMatch matchers method "/"
    /\ (String.prefix "/" pathname = false ->
        runMatch matchers method pathname
        = runMatch matchers method ("/" ++ pathname))
    /\ (String.prefix "/" pathname = true ->
        normalizePathname pathname = pathname).
Proof.
  intros matchers method pathname.
  assert (Hidem :
    forall p, normalizePathname (normalizePathname p) = normalizePathname p).
  { intros p. destruct (normalizePathname_slash p) as [rest ->]. reflexivity. }
  split; [| split; [| split]].
  - unfold runMatch. now rewrite Hidem, toLowerCase_idempotent.
  - reflexivity.
  - intros Hprefix. unfold runMatch. f_equal.
    destruct pathname as [|c rest]; [reflexivity |].
    cbn [normalizePathname append].
    cbn [String.prefix] in Hprefix.
    destruct (Ascii.eqb_spec c "/") as [-> | Hne]; [| reflexivity].
    destruct (Ascii.ascii_dec "/" "/"); [| congruence].
    now destruct rest.
  - intros Hprefix. destruct pathname as [|c rest]; [discriminate |].
    cbn [normalizePathname]. cbn [String.prefix] in Hprefix.
    destruct (Ascii.eqb_spec c "/") as [-> | Hne]; [reflexivity |].
    destruct (Ascii.ascii_dec "/" c); [congruence | discriminate].
Qed.
